(** * ElasticSearch-POC: query compiler, result shaper and benchmark harness

    A shallow embedding of the route handlers of the product-search
    service (routes/search.js, routes/analytics.js, the aggregations
    routes and the performance routes), followed by the properties of
    these handlers that the specification states.

    Layout: the embedding comes first (one module per source file), the
    lemmas and theorems follow. *)

From Stdlib Require Import ZArith QArith Qround Qreduction Qabs Qpower.
From Stdlib Require Import String Ascii List Lia Lqa DecimalString DecimalZ.
From stdpp Require Import base numbers list strings gmap sorting.

Local Open Scope Z_scope.
#[local] Set Warnings "-register-all".

(* ================================================================== *)
(** * JavaScript numbers *)
(* ================================================================== *)

(** The handlers compute with JavaScript numbers, which are IEEE 754
    doubles.  A number is modelled as a rational, which stands for a
    double, or one of the three special values.  Signed zero is not
    distinguished (no modelled expression observes it).

    [mul] and [div] of this module are the exact product and quotient.
    The operators [*] and [/] of the language give the double nearest to
    the exact result: these are [Binary64.mul] and [Binary64.div] below,
    and the code that shapes decimal values, whose results depend on
    that rounding, is written with them.  The exact quotient is kept for
    the quotients of two integers (counts, sums of milliseconds and page
    sizes, all far below 2^53) of which only the order, the bounds by
    integers, the values of n/n and 0/n and the ceiling are used: for
    such operands the rounded quotient has the same. *)
Module JsNum.

Inductive jsnum : Type :=
| Fin (q : Q)
| NaN
| PInf
| NInf.

Definition of_Z (z : Z) : jsnum := Fin (inject_Z z).

(** [a * b] *)
Definition mul (a b : jsnum) : jsnum :=
  match a, b with
  | NaN, _ | _, NaN => NaN
  | Fin x, Fin y => Fin (Qred (x * y))
  | Fin x, PInf | PInf, Fin x =>
      match (x ?= 0)%Q with Eq => NaN | Gt => PInf | Lt => NInf end
  | Fin x, NInf | NInf, Fin x =>
      match (x ?= 0)%Q with Eq => NaN | Gt => NInf | Lt => PInf end
  | PInf, PInf | NInf, NInf => PInf
  | PInf, NInf | NInf, PInf => NInf
  end.

(** [a / b]: a zero divisor gives NaN for 0/0 and an infinity otherwise;
    nothing is thrown. *)
Definition div (a b : jsnum) : jsnum :=
  match a, b with
  | NaN, _ | _, NaN => NaN
  | Fin x, Fin y =>
      if Qeq_bool y 0
      then match (x ?= 0)%Q with Eq => NaN | Gt => PInf | Lt => NInf end
      else Fin (Qred (x / y))
  | Fin _, (PInf | NInf) => Fin 0
  | PInf, Fin y => if Qle_bool 0 y then PInf else NInf
  | NInf, Fin y => if Qle_bool 0 y then NInf else PInf
  | (PInf | NInf), (PInf | NInf) => NaN
  end.

(** [Math.round]: the nearest integer, ties towards +infinity. *)
Definition Math_round (a : jsnum) : jsnum :=
  match a with
  | Fin x => Fin (inject_Z (Qfloor (x + (1 # 2))))
  | other => other
  end.

(** [Math.ceil]: the least integer not below the number. *)
Definition Math_ceil (a : jsnum) : jsnum :=
  match a with
  | Fin x => Fin (inject_Z (Qceiling x))
  | other => other
  end.

(** [Math.min(...l)] and [Math.max(...l)] over an array of integers; the
    empty argument list gives +Infinity and -Infinity. *)
Definition Math_min (l : list Z) : jsnum :=
  match l with
  | [] => PInf
  | x :: t => of_Z (fold_left Z.min t x)
  end.

Definition Math_max (l : list Z) : jsnum :=
  match l with
  | [] => NInf
  | x :: t => of_Z (fold_left Z.max t x)
  end.

(** Numeric equality [===] of two numbers: NaN equals nothing. *)
Definition eqb (a b : jsnum) : bool :=
  match a, b with
  | Fin x, Fin y => Qeq_bool x y
  | PInf, PInf | NInf, NInf => true
  | _, _ => false
  end.

Definition is_finite (a : jsnum) : bool :=
  match a with Fin _ => true | _ => false end.

Definition is_NaN (a : jsnum) : bool :=
  match a with NaN => true | _ => false end.

End JsNum.

Export JsNum.

(* ================================================================== *)
(** * Rounding to a double *)
(* ================================================================== *)

(** A finite double is [m * 2^e] for integers [m] and [e] with
    [|m| < 2^53] and [-1074 <= e <= 971].  The result of an arithmetic
    operation is the double nearest to the exact result; of two that are
    equally near it is the one with the even [m]; a result that would
    need [e > 971] is an infinity. *)
Module Binary64.

Definition pow2 (e : Z) : Q := (2 # 1) ^ e.

(** The least positive normal double, and the power of two of the
    largest doubles. *)
Definition min_normal : Q := pow2 (-1022).
Definition max_binade : Q := pow2 1023.

(** For [x > 0], the [e] with [2^(e-1) <= x < 2^e]. *)
Definition magnitude (x : Q) : Z :=
  let c := Z.log2 (Qnum x) - Z.log2 (Z.pos (Qden x)) in
  if Qle_bool (pow2 c) x then c + 1 else c.

(** The integer nearest to [s]; the even one when [s] is half way
    between two. *)
Definition nearest_even (s : Q) : Z :=
  let f := Qfloor s in
  match (s - inject_Z f ?= 1 # 2)%Q with
  | Lt => f
  | Gt => f + 1
  | Eq => if Z.even f then f else f + 1
  end.

(** The exponent [e] of the doubles around [x]: 53 bits below the
    magnitude of [x], and never below that of the subnormal doubles. *)
Definition quantum (x : Q) : Z := Z.max (magnitude (Qabs x) - 53) (-1074).

(** The multiple of [2^e] nearest to [x]. *)
Definition nearest (x : Q) : Q :=
  inject_Z (nearest_even (x / pow2 (quantum x))) * pow2 (quantum x).

(** The double nearest to the rational [x]. *)
Definition round (x : Q) : jsnum :=
  let x := Qred x in
  if Qeq_bool x 0 then Fin 0
  else
    let r := nearest x in
    if Qle_bool (pow2 1024) r then PInf
    else if Qle_bool r (- pow2 1024) then NInf
    else Fin (Qred r).

Definition rounded (a : jsnum) : jsnum :=
  match a with
  | Fin q => round q
  | other => other
  end.

(** [a * b] and [a / b] of two doubles. *)
Definition mul (a b : jsnum) : jsnum := rounded (JsNum.mul a b).

Definition div (a b : jsnum) : jsnum := rounded (JsNum.div a b).

(** The number a JSON value is in an arithmetic expression: a numeral is
    the double nearest to it (as [JSON.parse] reads it), and [null] is 0
    ([null * 100] is [0]). *)
Definition ToNumber (v : option Q) : jsnum :=
  match v with
  | Some q => round q
  | None => Fin 0
  end.

End Binary64.

(* ================================================================== *)
(** * routes/analytics.js: the result shaper of the analytics routes *)
(* ================================================================== *)

Module Analytics.

(** The aggregations of the engine's answer to the overview query.  The
    value of a metric is a numeral of the JSON answer, or [null] for a
    metric over no documents. *)
Record OverviewAggs : Type := {
  total_products_value : Z;
  avg_price_value : option Q;
  min_price_value : option Q;
  max_price_value : option Q;
  avg_rating_value : option Q;
  in_stock_count_count_value : Z;
  out_of_stock_count_count_value : Z
}.

Record PriceStats : Type := {
  average : jsnum;
  min : option Q;
  max : option Q
}.

Record StockStatus : Type := {
  in_stock : Z;
  out_of_stock : Z
}.

Record Overview : Type := {
  total_products : Z;
  price_stats : PriceStats;
  average_rating : jsnum;
  stock_status : StockStatus
}.

(** GET /api/analytics/overview, the object handed to [res.json]. *)
Definition overview (aggs : OverviewAggs) : Overview :=
  {| total_products := total_products_value aggs;
     price_stats :=
       {| average :=
            Binary64.div
              (Math_round
                 (Binary64.mul (Binary64.ToNumber (avg_price_value aggs)) (of_Z 100)))
              (of_Z 100);
          min := min_price_value aggs;
          max := max_price_value aggs |};
     average_rating :=
       Binary64.div
         (Math_round
            (Binary64.mul (Binary64.ToNumber (avg_rating_value aggs)) (of_Z 100)))
         (of_Z 100);
     stock_status :=
       {| in_stock := in_stock_count_count_value aggs;
          out_of_stock := out_of_stock_count_count_value aggs |} |}.

(** One bucket of the [categories] terms aggregation. *)
Record Bucket : Type := {
  key : string;
  doc_count : Z;
  bucket_avg_price_value : option Q;
  bucket_avg_rating_value : option Q;
  bucket_in_stock_count_value : Z
}.

Record Category : Type := {
  category : string;
  count : Z;
  avg_price : jsnum;
  avg_rating : jsnum;
  in_stock_count : Z;
  in_stock_percentage : jsnum
}.

(** GET /api/analytics/categories, the function mapped over the buckets. *)
Definition shape_bucket (bucket : Bucket) : Category :=
  {| category := key bucket;
     count := doc_count bucket;
     avg_price :=
       Binary64.div
         (Math_round
            (Binary64.mul (Binary64.ToNumber (bucket_avg_price_value bucket)) (of_Z 100)))
         (of_Z 100);
     avg_rating :=
       Binary64.div
         (Math_round
            (Binary64.mul (Binary64.ToNumber (bucket_avg_rating_value bucket)) (of_Z 100)))
         (of_Z 100);
     in_stock_count := bucket_in_stock_count_value bucket;
     in_stock_percentage :=
       Math_round
         (Binary64.mul
            (Binary64.div (of_Z (bucket_in_stock_count_value bucket))
                          (of_Z (doc_count bucket)))
            (of_Z 100)) |}.

Definition categories (buckets : list Bucket) : list Category :=
  map shape_bucket buckets.

End Analytics.

(* ================================================================== *)
(** * The aggregations routes (/api/aggregations) *)
(* ================================================================== *)

Module Aggregations.

(** One bucket of the [categories] terms aggregation of
    GET /api/aggregations/categories. *)
Record Bucket : Type := {
  key : string;
  doc_count : Z;
  bucket_avg_price_value : option Q;
  bucket_avg_rating_value : option Q;
  bucket_min_price_value : option Q;
  bucket_max_price_value : option Q;
  bucket_in_stock_count_count_value : Z
}.

Record Category : Type := {
  category : string;
  count : Z;
  avg_price : jsnum;
  avg_rating : jsnum;
  min_price : option Q;
  max_price : option Q;
  in_stock_count : Z;
  in_stock_percentage : jsnum
}.

(** GET /api/aggregations/categories, the function mapped over the
    buckets. *)
Definition shape_bucket (bucket : Bucket) : Category :=
  {| category := key bucket;
     count := doc_count bucket;
     avg_price :=
       Binary64.div
         (Math_round
            (Binary64.mul (Binary64.ToNumber (bucket_avg_price_value bucket)) (of_Z 100)))
         (of_Z 100);
     avg_rating :=
       Binary64.div
         (Math_round
            (Binary64.mul (Binary64.ToNumber (bucket_avg_rating_value bucket)) (of_Z 100)))
         (of_Z 100);
     min_price := bucket_min_price_value bucket;
     max_price := bucket_max_price_value bucket;
     in_stock_count := bucket_in_stock_count_count_value bucket;
     in_stock_percentage :=
       Math_round
         (Binary64.mul
            (Binary64.div (of_Z (bucket_in_stock_count_count_value bucket))
                          (of_Z (doc_count bucket)))
            (of_Z 100)) |}.

Definition categories (buckets : list Bucket) : list Category :=
  map shape_bucket buckets.

(** [s.split(',')]: the pieces between the commas; a string without a
    comma, the empty one included, is a single piece. *)
Fixpoint split_comma (s : string) : list string :=
  match s with
  | EmptyString => [EmptyString]
  | String c rest =>
      if Ascii.eqb c ","%char
      then EmptyString :: split_comma rest
      else match split_comma rest with
           | [] => [String c EmptyString]
           | piece :: pieces => String c piece :: pieces
           end
  end.

(** The number of commas of a string. *)
Fixpoint count_commas (s : string) : nat :=
  match s with
  | EmptyString => 0
  | String c rest => (if Ascii.eqb c ","%char then 1 else 0) + count_commas rest
  end.

(** One entry of the [ranges] array of a range aggregation; a missing
    [from] or [to] leaves that side unbounded. *)
Record Range (num : Type) : Type := {
  from : option num;
  to : option num;
  range_key : string
}.
Arguments from {num} _.
Arguments to {num} _.
Arguments range_key {num} _.

Section price_analysis.

(** [Number(piece)] and the conversion of a number to a string inside a
    template literal are the language's own; the builder is written over
    any number type that has them. *)
Context {num : Type}.
Variable Number : string -> num.
Variable toString : num -> string.

(** [arr[i]] for a possibly negative or too large index. *)
Definition index (arr : list num) (i : Z) : option num :=
  if i <? 0 then None else arr !! Z.to_nat i.

(** [`${arr[i]}`] *)
Definition template (v : option num) : string :=
  match v with
  | Some x => toString x
  | None => "undefined"
  end.

(** The body of the [for] loop at index [i]. *)
Definition range_at (rangeValues : list num) (i : Z) : Range num :=
  if i =? 0
  then {| from := None;
          to := index rangeValues i;
          range_key := "Under $" +:+ template (index rangeValues i) |}
  else {| from := index rangeValues (i - 1);
          to := index rangeValues i;
          range_key :=
            "$" +:+ template (index rangeValues (i - 1)) +:+ " - $"
                +:+ template (index rangeValues i) |}.

(** The [priceRanges] array after the loop and the final push. *)
Definition priceRanges (rangeValues : list num) : list (Range num) :=
  let n := Z.of_nat (length rangeValues) in
  map (fun i => range_at rangeValues (Z.of_nat i)) (seq 0 (length rangeValues))
  ++ [ {| from := index rangeValues (n - 1);
          to := None;
          range_key := "Over $" +:+ template (index rangeValues (n - 1)) |} ].

(** The buckets as the specification words them, by recursion on the
    breakpoints: under the first, between each adjacent pair, over the
    last. *)
Fixpoint spec_between (b : num) (rest : list num) : list (Range num) :=
  match rest with
  | [] =>
      [ {| from := Some b; to := None;
           range_key := "Over $" +:+ toString b |} ]
  | c :: rest =>
      {| from := Some b; to := Some c;
         range_key := "$" +:+ toString b +:+ " - $" +:+ toString c |}
      :: spec_between c rest
  end.

Definition spec_ranges (b1 : num) (rest : list num) : list (Range num) :=
  {| from := None; to := Some b1; range_key := "Under $" +:+ toString b1 |}
  :: spec_between b1 rest.

(** GET /api/aggregations/price-analysis: the [ranges] query parameter
    (default '50,100,200,500') up to the [ranges] of the aggregation. *)
Definition rangeValues (ranges : option string) : list num :=
  map Number (split_comma (default "50,100,200,500"%string ranges)).

Definition price_analysis_ranges (ranges : option string) : list (Range num) :=
  priceRanges (rangeValues ranges).

End price_analysis.

(** Whether a blank occurs in a string; the text of a number has none. *)
Fixpoint has_blank (s : string) : bool :=
  match s with
  | EmptyString => false
  | String c rest => Ascii.eqb c " "%char || has_blank rest
  end.

(** Integer breakpoints.  [Number_integer] agrees with [Number] on the
    empty piece (which is 0) and on decimal integer literals with an
    optional minus sign, and [toString_integer] with the template
    conversion on integers of ordinary magnitude; [None] is NaN, printed
    as "NaN".  The other literal forms (a lone sign, fractions,
    exponents, surrounding blanks) are outside this instance. *)
Definition Number_integer (s : string) : option Z :=
  option_map Z.of_int (NilEmpty.int_of_string s).

Definition toString_integer (x : option Z) : string :=
  match x with
  | Some z => NilEmpty.string_of_int (Z.to_int z)
  | None => "NaN"
  end.

(** [a < b] on these numbers: false as soon as one side is NaN. *)
Definition lt_integer (a b : option Z) : Prop :=
  match a, b with
  | Some x, Some y => x < y
  | _, _ => False
  end.

End Aggregations.

(* ================================================================== *)
(** * routes/search.js: POST /api/search *)
(* ================================================================== *)

Module Search.

(** The value of a [term] clause: a category name or the stock flag. *)
Inductive Scalar : Type :=
| SString (s : string)
| SBool (b : bool).

(** The query clauses the handler builds. *)
Inductive Query : Type :=
| MultiMatch (query : option string) (fields : list string)
    (type : string) (fuzziness : string)
| MatchPhrase (field : string) (query : option string) (slop : Z)
| Wildcard (field : string) (value : string) (case_insensitive : bool)
| Fuzzy (field : string) (value : option string) (fuzziness : Z)
| MatchAll
| Term (field : string) (value : Scalar)
| Range (field : string) (gte lte : option Q)
| Terms (field : string) (values : list string)
| Bool (must : list Query) (filter : list Query).

(** The [filters] object of the request body.  [None] is a key that is
    not there ([undefined]). *)
Record Filters : Type := {
  category : option string;
  priceMin : option Q;
  priceMax : option Q;
  rating : option Q;
  inStock : option bool;
  tags : option (list string)
}.

(** [filters = {}] *)
Definition no_filters : Filters :=
  {| category := None; priceMin := None; priceMax := None;
     rating := None; inStock := None; tags := None |}.

(** The request body before the defaults of the destructuring. *)
Record Body : Type := {
  body_query : option string;
  body_filters : option Filters;
  body_page : option Z;
  body_size : option Z;
  body_sort : option string;
  body_order : option string;
  body_searchType : option string
}.

(** The object handed to [elasticsearchService.search]. *)
Record SearchQuery : Type := {
  query : Query;
  from : Z;
  size : Z;
  sort : list (string * string)
}.

(** [v !== undefined] *)
Definition defined {A : Type} (v : option A) : bool :=
  match v with Some _ => true | None => false end.

(** Truthiness of a string and of a number. *)
Definition truthy_string (s : string) : bool :=
  match s with EmptyString => false | String _ _ => true end.

Definition truthy_number (q : Q) : bool := negb (Qeq_bool q 0).

(** [Object.keys(filters).length] *)
Definition Object_keys_length (filters : Filters) : nat :=
  (if defined (category filters) then 1 else 0)
  + (if defined (priceMin filters) then 1 else 0)
  + (if defined (priceMax filters) then 1 else 0)
  + (if defined (rating filters) then 1 else 0)
  + (if defined (inStock filters) then 1 else 0)
  + (if defined (tags filters) then 1 else 0).

(** [`${query}`] *)
Definition template (v : option string) : string :=
  match v with
  | Some s => s
  | None => "undefined"
  end.

(** The [switch (searchType)]. *)
Definition primary_query (searchType : string) (query : option string) : Query :=
  if String.eqb searchType "multi_match" then
    MultiMatch query ["name^3"; "description^2"; "category"; "tags"]%string
      "best_fields" "AUTO"
  else if String.eqb searchType "match_phrase" then
    MatchPhrase "name" query 2
  else if String.eqb searchType "wildcard" then
    Wildcard "name" ("*" +:+ template query +:+ "*") true
  else if String.eqb searchType "fuzzy" then
    Fuzzy "name" query 2
  else MatchAll.

(** The [filterQueries] array after the five conditional pushes. *)
Definition filterQueries (filters : Filters) : list Query :=
  match category filters with
  | Some c => if truthy_string c then [Term "category" (SString c)] else []
  | None => []
  end
  ++ (if defined (priceMin filters) || defined (priceMax filters)
      then [Range "price" (priceMin filters) (priceMax filters)]
      else [])
  ++ match rating filters with
     | Some r => if truthy_number r then [Range "rating" (Some r) None] else []
     | None => []
     end
  ++ match inStock filters with
     | Some b => [Term "inStock" (SBool b)]
     | None => []
     end
  ++ match tags filters with
     | Some ts => if (0 <? length ts)%nat then [Terms "tags" ts] else []
     | None => []
     end.

(** [parseInt(size)] on a number that is an integer of ordinary
    magnitude gives the number back. *)
Definition parseInt (size : Z) : Z := size.

(** The handler up to the call of the search service. *)
Definition searchQuery (body : Body) : SearchQuery :=
  let query := body_query body in
  let filters := default no_filters (body_filters body) in
  let page := default 1 (body_page body) in
  let size := default 10 (body_size body) in
  let sort := default "createdAt"%string (body_sort body) in
  let order := default "desc"%string (body_order body) in
  let searchType := default "multi_match"%string (body_searchType body) in
  let from := (page - 1) * size in
  let searchQuery_query := primary_query searchType query in
  let searchQuery_query :=
    if (0 <? Object_keys_length filters)%nat then
      let filterQueries := filterQueries filters in
      if (0 <? length filterQueries)%nat
      then Bool [searchQuery_query] filterQueries
      else searchQuery_query
    else searchQuery_query in
  {| query := searchQuery_query;
     from := from;
     size := parseInt size;
     sort := [(sort, order)] |}.

(** ** The filter clause builder as the specification words it *)

(** A field of the filter set is present when its key is there; the two
    price bounds make one field, and the tag set is present when it has a
    member. *)
Definition present_fields (filters : Filters) : nat :=
  (if defined (category filters) then 1 else 0)
  + (if defined (priceMin filters) || defined (priceMax filters)
     then 1 else 0)
  + (if defined (rating filters) then 1 else 0)
  + (if defined (inStock filters) then 1 else 0)
  + (match tags filters with Some (_ :: _) => 1 | _ => 0 end).

(** One clause per present field, in the fixed order: category term,
    price range, rating floor, stock term, tags membership. *)
Definition spec_filter_clauses (filters : Filters) : list Query :=
  match category filters with
  | Some c => [Term "category" (SString c)]
  | None => []
  end
  ++ (if defined (priceMin filters) || defined (priceMax filters)
      then [Range "price" (priceMin filters) (priceMax filters)]
      else [])
  ++ match rating filters with
     | Some r => [Range "rating" (Some r) None]
     | None => []
     end
  ++ match inStock filters with
     | Some b => [Term "inStock" (SBool b)]
     | None => []
     end
  ++ match tags filters with
     | Some (t :: ts) => [Terms "tags" (t :: ts)]
     | _ => []
     end.

End Search.

(* ================================================================== *)
(** * The performance routes (/api/performance) *)
(* ================================================================== *)

Module Performance.

(** ** A state monad for the two kinds of effect of the handler *)

Definition State (S A : Type) : Type := S -> A * S.

Definition ret {S A : Type} (a : A) : State S A := fun s => (a, s).

Definition bind {S A B : Type} (m : State S A) (k : A -> State S B) : State S B :=
  fun s => let (a, s') := m s in k a s'.

Notation "x <- m ;; k" := (bind m (fun x => k))
  (at level 100, m at next level, right associativity).

(** ** Arrays of numbers

    [calculatePercentile] receives a reference to an array and calls
    [slice] and [sort] on it; [sort] works in place.  The arrays of
    numbers therefore live in a store, and a reference is a location. *)

Abbreviation loc := positive.
Abbreviation heap := (gmap positive (list Z)).

(** A new array with the given elements. *)
Definition array_new (elements : list Z) : State heap loc :=
  fun h => let a := fresh (dom h) in (a, <[a := elements]> h).

(** The elements of the array at [a]. *)
Definition array_elements (a : loc) : State heap (list Z) :=
  fun h => (default [] (h !! a), h).

(** [a.slice()]: a new array with the same elements. *)
Definition array_slice (a : loc) : State heap loc :=
  elements <- array_elements a ;;
  array_new elements.

(** The order a comparator induces: [x] may stay before [y] when
    [compare x y <= 0]. *)
Definition sorts_before (compare : Z -> Z -> Z) (x y : Z) : Prop :=
  compare x y <= 0.

#[global] Instance sorts_before_dec (compare : Z -> Z -> Z) :
  RelDecision (sorts_before compare).
Proof. intros x y. unfold sorts_before. apply _. Defined.

(** [a.sort(compare)]: sorts the array at [a] in place (a stable merge
    sort) and returns the same reference. *)
Definition array_sort (compare : Z -> Z -> Z) (a : loc) : State heap loc :=
  fun h => (a, alter (merge_sort (sorts_before compare)) a h).

(** [arr[index]] for an integer index; [None] is [undefined]. *)
Definition array_get (elements : list Z) (index : Z) : option Z :=
  if index <? 0 then None else elements !! Z.to_nat index.

(** [Math.ceil((percentile / 100) * length) - 1], in exact arithmetic.
    For the percentiles the handler asks for (50, 90, 95 and 99, and for
    100) the product computed in binary floating point has the same
    ceiling as the exact one at every length an array can have; for other
    percentiles it need not (7 at length 100 gives 7.000000000000001), so
    the properties of the percentiles are stated for the handler's. *)
Definition percentile_index (percentile : Z) (length : nat) : Z :=
  Qceiling ((inject_Z percentile / inject_Z 100) * inject_Z (Z.of_nat length)) - 1.

(** The helper [calculatePercentile(arr, percentile)]. *)
Definition calculatePercentile (arr : loc) (percentile : Z) : State heap (option Z) :=
  copy <- array_slice arr ;;
  sorted <- array_sort (fun a b => a - b) copy ;;
  elements <- array_elements sorted ;;
  let index := percentile_index percentile (length elements) in
  ret (array_get elements index).

(** The value of the percentile of an array with the given elements,
    without the store. *)
Definition percentile_of (elements : list Z) (percentile : Z) : option Z :=
  let sorted := merge_sort (sorts_before (fun a b => a - b)) elements in
  array_get sorted (percentile_index percentile (length sorted)).

(** Successive calls on one array, as the statistics object makes four
    of. *)
Fixpoint percentiles (arr : loc) (ps : list Z) : State heap (list (option Z)) :=
  match ps with
  | [] => ret []
  | p :: ps =>
      v <- calculatePercentile arr p ;;
      vs <- percentiles arr ps ;;
      ret (v :: vs)
  end.

(** Every array of [h] is still there in [h'], with the same elements in
    the same order. *)
Definition preserved (h h' : heap) : Prop :=
  forall (a : loc) (elements : list Z), h !! a = Some elements -> h' !! a = Some elements.

(** ** The calls of a load test *)

(** What the handler reads of a response: the length of its JSON text,
    [hits.total.value] when there is a [hits] property, and [took]. *)
Record Response : Type := {
  response_json_length : nat;
  response_hits_total_value : option Z;
  response_took : option Z
}.

(** A service call resolves with a response ([None] is [null], which
    [getDocument] returns for a missing document) or rejects with an
    error. *)
Inductive Outcome : Type :=
| Resolved (response : option Response)
| Rejected (message : string).

(** One entry of [iterationResults]. *)
Record QueryResult (Query : Type) : Type := {
  query : Query;
  success : bool;
  duration : Z;
  responseSize : option nat;
  hits : option Z;
  took : option Z;
  error : option string
}.
Arguments query {Query} _.
Arguments success {Query} _.
Arguments duration {Query} _.
Arguments responseSize {Query} _.
Arguments hits {Query} _.
Arguments took {Query} _.
Arguments error {Query} _.

(** One entry of [results.results]. *)
Record IterationResult (Query : Type) : Type := {
  iteration : Z;
  queries : list (QueryResult Query)
}.
Arguments iteration {Query} _.
Arguments queries {Query} _.

(** The clock of [Date.now()] and the service: how many times each has
    been used. *)
Record Usage : Type := {
  ticks : nat;
  calls : nat
}.

Section load_test.

(** The queries of the request body are opaque to the handler, but for
    [query.id]. *)
Context {Query Id : Type}.
Variable query_id : Query -> Id.

(** The environment of one run: the successive readings of [Date.now()]
    and, for the k-th call of the service, how each of its three methods
    would answer. *)
Variable now : nat -> Z.
Variable search : nat -> Query -> Outcome.
Variable indexDocument : nat -> Query -> Outcome.
Variable getDocument : nat -> Id -> Outcome.

(** The message of the TypeError of reading [hits] of [null]. *)
Variable null_hits_message : string.

Definition Date_now : State Usage Z :=
  fun u => (now (ticks u), {| ticks := S (ticks u); calls := calls u |}).

(** The outcome the service gives to a call, by the [switch (testType)]. *)
Definition service_outcome (testType : string) (query : Query) (k : nat) : Outcome :=
  if String.eqb testType "search" then search k query
  else if String.eqb testType "index" then indexDocument k query
  else if String.eqb testType "get" then getDocument k (query_id query)
  else search k query.

Definition call_service (testType : string) (query : Query) : State Usage Outcome :=
  fun u => (service_outcome testType query (calls u),
            {| ticks := ticks u; calls := S (calls u) |}).

(** The entry pushed by the [catch] block. *)
Definition failure (query : Query) (duration : Z) (message : string) : QueryResult Query :=
  {| query := query; success := false; duration := duration;
     responseSize := None; hits := None; took := None;
     error := Some message |}.

(** The body of [for (const query of queries)]: one timed call, which
    ends in one entry whatever the call does.  A resolved [null] makes
    the construction of the entry throw after [endTime] was read; the
    [catch] block then reads the clock again. *)
Definition run_query (testType : string) (query : Query) : State Usage (QueryResult Query) :=
  startTime <- Date_now ;;
  outcome <- call_service testType query ;;
  match outcome with
  | Resolved response =>
      endTime <- Date_now ;;
      let duration := endTime - startTime in
      match response with
      | Some response =>
          ret {| query := query; success := true; duration := duration;
                 responseSize := Some (response_json_length response);
                 hits := Some (default 0 (response_hits_total_value response));
                 took := Some (default 0 (response_took response));
                 error := None |}
      | None =>
          endTime <- Date_now ;;
          let duration := endTime - startTime in
          ret (failure query duration null_hits_message)
      end
  | Rejected message =>
      endTime <- Date_now ;;
      let duration := endTime - startTime in
      ret (failure query duration message)
  end.

(** The inner loop, pushing onto [iterationResults]. *)
Fixpoint run_queries (testType : string) (queries : list Query)
    (iterationResults : list (QueryResult Query))
  : State Usage (list (QueryResult Query)) :=
  match queries with
  | [] => ret iterationResults
  | query :: rest =>
      entry <- run_query testType query ;;
      run_queries testType rest (iterationResults ++ [entry])
  end.

(** The outer loop [for (let i = 0; i < iterations; i++)], with
    [remaining] turns to go, pushing onto [results.results]. *)
Fixpoint run_iterations (testType : string) (queries : list Query)
    (remaining : nat) (i : Z) (results : list (IterationResult Query))
  : State Usage (list (IterationResult Query)) :=
  match remaining with
  | O => ret results
  | S remaining =>
      iterationResults <- run_queries testType queries [] ;;
      run_iterations testType queries remaining (i + 1)
        (results ++ [ {| iteration := i + 1; queries := iterationResults |} ])
  end.

Definition run_load_test (testType : string) (queries : list Query) (iterations : nat)
  : State Usage (list (IterationResult Query)) :=
  run_iterations testType queries iterations 0 [].

End load_test.

(** ** The statistics of a load test *)

Record Statistics : Type := {
  totalQueries : Z;
  successfulQueries : Z;
  failedQueries : Z;
  successRate : jsnum;
  averageDuration : jsnum;
  minDuration : jsnum;
  maxDuration : jsnum;
  p50Duration : option Z;
  p90Duration : option Z;
  p95Duration : option Z;
  p99Duration : option Z
}.

Section statistics.

Context {Query : Type}.

(** [results.results.flatMap(iteration => iteration.queries)] *)
Definition all_queries (results : list (IterationResult Query)) : list (QueryResult Query) :=
  flat_map queries results.

(** The elements of [allDurations].  Every entry has a duration, so the
    filter [duration !== undefined] keeps them all. *)
Definition allDurations (results : list (IterationResult Query)) : list Z :=
  map duration (all_queries results).

(** The array [successfulQueries]. *)
Definition successful (results : list (IterationResult Query)) : list (QueryResult Query) :=
  filter (fun entry => success entry = true) (all_queries results).

(** The [statistics] object over the array [allDurations] and the number
    of successful entries, its properties evaluated in order. *)
Definition statistics_over (allDurations : loc) (successfulQueries_length : Z)
  : State heap Statistics :=
  elements <- array_elements allDurations ;;
  let allDurations_length := Z.of_nat (length elements) in
  let sum := fold_left Z.add elements 0 in
  p50 <- calculatePercentile allDurations 50 ;;
  p90 <- calculatePercentile allDurations 90 ;;
  p95 <- calculatePercentile allDurations 95 ;;
  p99 <- calculatePercentile allDurations 99 ;;
  ret {| totalQueries := allDurations_length;
         successfulQueries := successfulQueries_length;
         failedQueries := allDurations_length - successfulQueries_length;
         successRate :=
           mul (div (of_Z successfulQueries_length) (of_Z allDurations_length))
               (of_Z 100);
         averageDuration := div (of_Z sum) (of_Z allDurations_length);
         minDuration := Math_min elements;
         maxDuration := Math_max elements;
         p50Duration := p50;
         p90Duration := p90;
         p95Duration := p95;
         p99Duration := p99 |}.

(** "Calculate statistics": the array [allDurations] is built from the
    results, then the object. *)
Definition statistics (results : list (IterationResult Query)) : State heap Statistics :=
  arr <- array_new (allDurations results) ;;
  statistics_over arr (Z.of_nat (length (successful results))).

(** The body of the answer: the run's entries and the statistics (the
    echoed parameters and the two time stamps are left out). *)
Record LoadTestResults : Type := {
  load_test_results : list (IterationResult Query);
  load_test_statistics : Statistics
}.

Definition respond (results : list (IterationResult Query)) : State heap LoadTestResults :=
  stats <- statistics results ;;
  ret {| load_test_results := results; load_test_statistics := stats |}.

End statistics.

(** The answer of POST /api/performance/load-test: status 400 with an
    error, or the body built from the run. *)
Inductive Answer (Query : Type) : Type :=
| BadRequest (error : string)
| Json (body : @LoadTestResults Query).
Arguments BadRequest {Query} _.
Arguments Json {Query} _.

(** The handler as far as its arrays and its service calls go: the
    check of the [queries] array, the loop, the statistics.  The two
    readings of [new Date()] for [startTime] and [endTime] and the
    echoed parameters are not part of this embedding;
    [LoadTest.load_test_route] below has them. *)
Definition load_test_route {Query Id : Type} (query_id : Query -> Id)
    (now : nat -> Z) (search indexDocument : nat -> Query -> Outcome)
    (getDocument : nat -> Id -> Outcome) (null_hits_message : string)
    (testType : string) (queries : list Query) (iterations : nat)
    (u : Usage) (h : heap) : Answer Query * Usage * heap :=
  match queries with
  | [] => (BadRequest "Queries array is required and must not be empty", u, h)
  | _ :: _ =>
      let (results, u') :=
        run_load_test query_id now search indexDocument getDocument
          null_hits_message testType queries iterations u in
      let (body, h') := respond results h in
      (Json body, u', h')
  end.

End Performance.

(* ================================================================== *)
(** * The performance routes: the load test on one time line *)
(* ================================================================== *)

(** [Performance] counts the readings of the clock and the calls of the
    service apart from each other, which leaves open in what order they
    happen.  Here the handler of POST /api/performance/load-test is
    embedded once more, in full and with that order: every reading of
    the clock ([Date.now()] and [new Date()]) and every call of the
    service is one interaction of the handler with its environment, and
    the interactions are numbered in the order in which the handler
    makes them.  The environment gives the time the clock shows at an
    interaction and the outcome of a call made as an interaction; the
    state of the handler is the number of interactions made so far. *)
Module LoadTest.
Import Performance.

(** The body of the answer; the two time stamps are the instants read
    (their ISO text is not modelled). *)
Record Body (Query : Type) : Type := {
  body_testType : string;
  body_iterations : nat;
  body_concurrent : Z;
  body_totalQueries : Z;
  body_startTime : Z;
  body_results : list (IterationResult Query);
  body_endTime : Z;
  body_statistics : Statistics
}.
Arguments body_testType {Query} _.
Arguments body_iterations {Query} _.
Arguments body_concurrent {Query} _.
Arguments body_totalQueries {Query} _.
Arguments body_startTime {Query} _.
Arguments body_results {Query} _.
Arguments body_endTime {Query} _.
Arguments body_statistics {Query} _.

(** Status 400 with an error, or the body. *)
Inductive Answer (Query : Type) : Type :=
| BadRequest (error : string)
| Json (body : Body Query).
Arguments BadRequest {Query} _.
Arguments Json {Query} _.

Section handler.

Context {Query Id : Type}.
Variable query_id : Query -> Id.

(** The environment: the time at the n-th interaction, and how each
    method of the service answers a call that is the n-th interaction. *)
Variable clock : nat -> Z.
Variable search : nat -> Query -> Outcome.
Variable indexDocument : nat -> Query -> Outcome.
Variable getDocument : nat -> Id -> Outcome.

(** The message of the TypeError of reading [hits] of [null]. *)
Variable null_hits_message : string.

Definition Date_now : State nat Z := fun n => (clock n, S n).

(** [new Date()] reads the same clock. *)
Definition new_Date : State nat Z := fun n => (clock n, S n).

Definition call_service (testType : string) (query : Query) : State nat Outcome :=
  fun n =>
    (service_outcome query_id search indexDocument getDocument testType query n, S n).

(** The body of [for (const query of queries)]: the reading of
    [startTime], the awaited call, the reading of [endTime] and the
    entry.  When the call rejects, the reading of [endTime] is that of
    the [catch] block.  When it resolves with [null], [endTime] is read,
    the construction of the entry throws, and the [catch] block reads
    the clock once more. *)
Definition run_query (testType : string) (query : Query) : State nat (QueryResult Query) :=
  startTime <- Date_now ;;
  outcome <- call_service testType query ;;
  match outcome with
  | Resolved response =>
      endTime <- Date_now ;;
      let duration := endTime - startTime in
      match response with
      | Some response =>
          ret {| query := query; success := true; duration := duration;
                 responseSize := Some (response_json_length response);
                 hits := Some (default 0 (response_hits_total_value response));
                 took := Some (default 0 (response_took response));
                 error := None |}
      | None =>
          endTime <- Date_now ;;
          let duration := endTime - startTime in
          ret (failure query duration null_hits_message)
      end
  | Rejected message =>
      endTime <- Date_now ;;
      let duration := endTime - startTime in
      ret (failure query duration message)
  end.

(** The inner loop, pushing onto [iterationResults]. *)
Fixpoint run_queries (testType : string) (queries : list Query)
    (iterationResults : list (QueryResult Query))
  : State nat (list (QueryResult Query)) :=
  match queries with
  | [] => ret iterationResults
  | query :: rest =>
      entry <- run_query testType query ;;
      run_queries testType rest (iterationResults ++ [entry])
  end.

(** The outer loop [for (let i = 0; i < iterations; i++)], with
    [remaining] turns to go, pushing onto [results.results]. *)
Fixpoint run_iterations (testType : string) (queries : list Query)
    (remaining : nat) (i : Z) (results : list (IterationResult Query))
  : State nat (list (IterationResult Query)) :=
  match remaining with
  | O => ret results
  | S remaining =>
      iterationResults <- run_queries testType queries [] ;;
      run_iterations testType queries remaining (i + 1)
        (results ++ [ {| iteration := i + 1; queries := iterationResults |} ])
  end.

(** The handler: the check of the [queries] array, the time stamp
    [startTime], the loops, the statistics, and the time stamp [endTime]
    read after them. *)
Definition load_test_route (testType : string) (concurrent : Z)
    (queries : list Query) (iterations : nat) (n : nat) (h : heap)
  : Answer Query * nat * heap :=
  match queries with
  | [] => (BadRequest "Queries array is required and must not be empty", n, h)
  | _ :: _ =>
      let (startTime, n1) := new_Date n in
      let (results, n2) := run_iterations testType queries iterations 0 [] n1 in
      let (stats, h') := statistics results h in
      let (endTime, n3) := new_Date n2 in
      (Json {| body_testType := testType;
               body_iterations := iterations;
               body_concurrent := concurrent;
               body_totalQueries := Z.of_nat (length queries);
               body_startTime := startTime;
               body_results := results;
               body_endTime := endTime;
               body_statistics := stats |},
       n3, h')
  end.

(** How many interactions one timed call is, by its outcome: the reading
    before the call, the call and the reading after it, and for a [null]
    answer the further reading of the [catch] block. *)
Definition interactions_of (outcome : Outcome) : nat :=
  match outcome with
  | Resolved None => 4
  | _ => 3
  end.

(** The number of interactions made once the timed calls of [queries],
    begun at interaction [n], are over. *)
Fixpoint after (testType : string) (queries : list Query) (n : nat) : nat :=
  match queries with
  | [] => n
  | query :: rest =>
      after testType rest
        (n + interactions_of
               (service_outcome query_id search indexDocument getDocument
                  testType query (S n)))
  end.

End handler.

End LoadTest.

(* ================================================================== *)
(** * routes/search.js: the answer of POST /api/search *)
(* ================================================================== *)

Module SearchAnswer.
Import Search.

(** What the handler reads of the engine's response. *)
Record Hit (Source : Type) : Type := {
  hit_source : Source;
  hit_score : option Q
}.
Arguments hit_source {Source} _.
Arguments hit_score {Source} _.

Record Response (Source : Type) : Type := {
  hits_hits : list (Hit Source);
  hits_total_value : Z;
  response_took : option Z
}.
Arguments hits_hits {Source} _.
Arguments hits_total_value {Source} _.
Arguments response_took {Source} _.

(** The body of the answer; a product is the stored source together with
    its score. *)
Record Answer (Source : Type) : Type := {
  products : list (Source * option Q);
  total : Z;
  page : Z;
  size : Z;
  totalPages : jsnum;
  searchType : string;
  took : option Z
}.
Arguments products {Source} _.
Arguments total {Source} _.
Arguments page {Source} _.
Arguments size {Source} _.
Arguments totalPages {Source} _.
Arguments searchType {Source} _.
Arguments took {Source} _.

(** The object handed to [res.json] after the search. *)
Definition answer {Source : Type} (body : Body) (response : Response Source)
  : Answer Source :=
  let page := default 1 (body_page body) in
  let size := default 10 (body_size body) in
  let searchType := default "multi_match"%string (body_searchType body) in
  {| products := map (fun hit => (hit_source hit, hit_score hit)) (hits_hits response);
     total := hits_total_value response;
     page := parseInt page;
     size := parseInt size;
     totalPages := Math_ceil (div (of_Z (hits_total_value response)) (of_Z size));
     searchType := searchType;
     took := response_took response |}.

End SearchAnswer.

(* ================================================================== *)
(** * The aggregations routes: POST /api/aggregations/complex *)
(* ================================================================== *)

Module ComplexAggregation.
Import Search.

(** The request body before the defaults of the destructuring. *)
Record Body : Type := {
  category_filter : option string;
  price_min : option Q;
  price_max : option Q;
  rating_min : option Q
}.

(** [rating_min > 0] *)
Definition positive (r : Q) : bool := negb (Qle_bool r 0).

(** The [filters] array after the three conditional pushes. *)
Definition filters (body : Body) : list Query :=
  let rating_min := default 0%Q (rating_min body) in
  match category_filter body with
  | Some c => if truthy_string c then [Term "category" (SString c)] else []
  | None => []
  end
  ++ (if defined (price_min body) || defined (price_max body)
      then [Range "price" (price_min body) (price_max body)]
      else [])
  ++ (if positive rating_min then [Range "rating" (Some rating_min) None] else []).

(** The [query] property of the request to the engine: a boolean node
    with the (always empty) [mustQueries] and the filters. *)
Definition query (body : Body) : Query := Bool [] (filters body).

End ComplexAggregation.

(* ================================================================== *)
(** * The performance routes: GET /api/performance/benchmark and
      GET /api/performance/index-stats *)
(* ================================================================== *)

Module Benchmark.
Import Performance.

(** One entry of [results.tests]. *)
Record TestResult : Type := {
  name : string;
  success : bool;
  duration : Z;
  elasticsearchTook : option Z;
  totalHits : option Z;
  responseSize : option nat;
  error : option string
}.

(** The [summary] of the answer. *)
Record Summary : Type := {
  totalTests : Z;
  successfulTests : Z;
  failedTests : Z;
  averageDuration : jsnum;
  minDuration : jsnum;
  maxDuration : jsnum
}.

Section benchmark.

Context {Query : Type}.

(** The environment, as for the load test: the readings of the clock and
    the answer of the search service to its k-th call. *)
Variable now : nat -> Z.
Variable search : nat -> Query -> Outcome.

(** The messages of the TypeErrors of reading [took] of [null] and
    [total] of [undefined]. *)
Variable null_took_message : string.
Variable undefined_total_message : string.

Definition call_search (query : Query) : State Usage Outcome :=
  fun u => (search (calls u) query, {| ticks := ticks u; calls := S (calls u) |}).

(** The entry pushed by the [catch] block. *)
Definition failed (name : string) (duration : Z) (message : string) : TestResult :=
  {| name := name; success := false; duration := duration;
     elasticsearchTook := None; totalHits := None; responseSize := None;
     error := Some message |}.

(** The body of [for (const test of benchmarkTests)].  The entry of a
    success reads [response.took] and [response.hits.total.value]
    without a guard: a [null] response or one without [hits] makes the
    construction throw, and the [catch] block reads the clock again. *)
Definition run_test (test : string * Query) : State Usage TestResult :=
  startTime <- Date_now now ;;
  outcome <- call_search (snd test) ;;
  match outcome with
  | Resolved response =>
      endTime <- Date_now now ;;
      let duration := endTime - startTime in
      match response with
      | Some response =>
          match response_hits_total_value response with
          | Some total =>
              ret {| name := fst test; success := true; duration := duration;
                     elasticsearchTook := Performance.response_took response;
                     totalHits := Some total;
                     responseSize := Some (response_json_length response);
                     error := None |}
          | None =>
              endTime <- Date_now now ;;
              let duration := endTime - startTime in
              ret (failed (fst test) duration undefined_total_message)
          end
      | None =>
          endTime <- Date_now now ;;
          let duration := endTime - startTime in
          ret (failed (fst test) duration null_took_message)
      end
  | Rejected message =>
      endTime <- Date_now now ;;
      let duration := endTime - startTime in
      ret (failed (fst test) duration message)
  end.

(** The loop over [benchmarkTests], pushing onto [results.tests]. *)
Fixpoint run_tests (benchmarkTests : list (string * Query)) (tests : list TestResult)
  : State Usage (list TestResult) :=
  match benchmarkTests with
  | [] => ret tests
  | test :: rest =>
      entry <- run_test test ;;
      run_tests rest (tests ++ [entry])
  end.

End benchmark.

(** "Calculate overall statistics": over the durations of the successful
    tests only. *)
Definition summary (tests : list TestResult) : Summary :=
  let successfulTests := filter (fun test => success test = true) tests in
  let durations := map duration successfulTests in
  {| totalTests := Z.of_nat (length tests);
     successfulTests := Z.of_nat (length successfulTests);
     failedTests := Z.of_nat (length tests) - Z.of_nat (length successfulTests);
     averageDuration :=
       div (of_Z (fold_left Z.add durations 0)) (of_Z (Z.of_nat (length durations)));
     minDuration := Math_min durations;
     maxDuration := Math_max durations |}.

(** The handler: the entries and their summary. *)
Definition benchmark {Query : Type} (now : nat -> Z) (search : nat -> Query -> Outcome)
    (null_took_message undefined_total_message : string)
    (benchmarkTests : list (string * Query))
  : State Usage (list TestResult * Summary) :=
  tests <- run_tests now search null_took_message undefined_total_message
             benchmarkTests [] ;;
  ret (tests, summary tests).

(** GET /api/performance/index-stats:
    [Math.round(size_in_bytes / 1024 / 1024 * 100) / 100]. *)
Definition size_mb (size_in_bytes : Z) : jsnum :=
  Binary64.div
    (Math_round
       (Binary64.mul
          (Binary64.div (Binary64.div (of_Z size_in_bytes) (of_Z 1024)) (of_Z 1024))
          (of_Z 100)))
    (of_Z 100).

End Benchmark.

(* ================================================================== *)
(** * services/elasticsearchService.js and routes/products.js *)
(* ================================================================== *)

Module ElasticsearchService.

(** One element of the body of a bulk request: the action line of a
    document, or the document. *)
Inductive BulkLine (Id Doc : Type) : Type :=
| IndexAction (_index : string) (_id : Id)
| Document (doc : Doc).
Arguments IndexAction {Id Doc} _ _.
Arguments Document {Id Doc} _.

(** [bulkIndex]: the [body] after [documents.forEach], two pushes per
    document. *)
Definition bulk_body {Id Doc : Type} (indexName : string) (doc_id : Doc -> Id)
    (documents : list Doc) : list (BulkLine Id Doc) :=
  fold_left
    (fun body doc => (body ++ [IndexAction indexName (doc_id doc)]) ++ [Document doc])
    documents [].

(** An error of the engine's client. *)
Record ClientError : Type := {
  status : option Z;
  message : string
}.

(** A call that returns or throws. *)
Inductive Result (A : Type) : Type :=
| Returns (a : A)
| Throws (e : ClientError).
Arguments Returns {A} _.
Arguments Throws {A} _.

(** A value that may be [undefined] or [null]. *)
Inductive Nullable (A : Type) : Type :=
| Undefined
| Null
| Value (a : A).
Arguments Undefined {A}.
Arguments Null {A}.
Arguments Value {A} _.

(** [getDocument]: the [_source] of the client's response, which is
    [undefined] when the response has none; a 404 of the client is
    turned into [null], any other error is thrown on.  The argument is
    what [client.get] does: it returns a response, given here by its
    [_source], or throws. *)
Definition getDocument {Source : Type} (client_get : Result (Nullable Source))
  : Result (Nullable Source) :=
  match client_get with
  | Returns _source => Returns _source
  | Throws e =>
      if bool_decide (status e = Some 404) then Returns Null else Throws e
  end.

(** [deleteDocument] returns what [client.delete] returns, and treats
    the errors in the same way. *)
Definition deleteDocument {Response : Type} (client_delete : Result (Nullable Response))
  : Result (Nullable Response) :=
  match client_delete with
  | Returns response => Returns response
  | Throws e =>
      if bool_decide (status e = Some 404) then Returns Null else Throws e
  end.

End ElasticsearchService.

Module Products.
Import ElasticsearchService.

(** The answer of a route: a status and a body. *)
Inductive Answer (Body : Type) : Type :=
| Json (status : Z) (body : Body)
| Error (status : Z) (error : string).
Arguments Json {Body} _ _.
Arguments Error {Body} _ _.

(** Whether a value counts as true in a condition: [undefined] and
    [null] do not, and for any other value [truthy] says so (an object,
    as a stored document is, always does; [0], [""] and [false] do
    not). *)
Definition to_boolean {A : Type} (truthy : A -> bool) (v : Nullable A) : bool :=
  match v with
  | Value a => truthy a
  | _ => false
  end.

(** GET /api/products/:id, with its test [if (!product)]. *)
Definition get_product {Source : Type} (truthy : Source -> bool)
    (client_get : Result (Nullable Source)) : Answer (Nullable Source) :=
  match getDocument client_get with
  | Returns product =>
      if negb (to_boolean truthy product)
      then Error 404 "Product not found"
      else Json 200 product
  | Throws e => Error 500 (message e)
  end.

(** DELETE /api/products/:id, with its test [if (!result)]. *)
Definition delete_product {Response : Type} (truthy : Response -> bool)
    (client_delete : Result (Nullable Response)) : Answer string :=
  match deleteDocument client_delete with
  | Returns result =>
      if negb (to_boolean truthy result)
      then Error 404 "Product not found"
      else Json 200 "Product deleted successfully"%string
  | Throws e => Error 500 (message e)
  end.

Section documents.

(** A document is an object: a finite map from keys to values, strings
    among them. *)
Context {Value : Type}.
Variable VString : string -> Value.

(** POST /api/products:
    [{ id: crypto.randomUUID(), ...req.body, createdAt: ..., updatedAt: ... }].
    A later key of an object literal replaces an earlier one. *)
Definition new_product (uuid : string) (body : gmap string Value)
    (createdAt updatedAt : string) : gmap string Value :=
  <["updatedAt"%string := VString updatedAt]>
    (<["createdAt"%string := VString createdAt]>
       (body ∪ {[ "id"%string := VString uuid ]})).

(** PUT /api/products/:id:
    [{ ...req.body, id: req.params.id, updatedAt: ... }]. *)
Definition updatedProduct (id : string) (body : gmap string Value)
    (updatedAt : string) : gmap string Value :=
  <["updatedAt"%string := VString updatedAt]>
    (<["id"%string := VString id]> body).

End documents.

End Products.

(* ================================================================== *)
(** * Properties *)
(* ================================================================== *)

(** ** Arithmetic of the number model *)

Lemma Qred_zero_num (d : positive) : Qred (0 # d) = 0%Q.
Proof. apply (Qred_complete (0 # d) 0). reflexivity. Qed.

Lemma Qeq_bool_inject_Z_0 (z : Z) : Qeq_bool (inject_Z z) 0 = (z =? 0).
Proof.
  unfold Qeq_bool, inject_Z. simpl. rewrite Z.mul_1_r. reflexivity.
Qed.

(** ** The error of rounding to a double *)

Module RoundingError.
Import Binary64.

(** Powers of two. *)
Lemma pow2_pos (e : Z) : (0 < pow2 e)%Q.
Proof. apply Qpower_0_lt. reflexivity. Qed.

Lemma pow2_plus (a b : Z) : (pow2 (a + b) == pow2 a * pow2 b)%Q.
Proof. apply Qpower_plus. discriminate. Qed.

Lemma pow2_inject (n : Z) : 0 <= n -> (inject_Z (2 ^ n) == pow2 n)%Q.
Proof. intros H. apply (Zpower_Qpower 2 n H). Qed.

(** [magnitude x] is the exponent of the power of two just above [x]. *)
Lemma magnitude_spec (x : Q) :
  (0 < x)%Q -> (pow2 (magnitude x - 1) <= x)%Q /\ (x < pow2 (magnitude x))%Q.
Proof.
  intros Hx. destruct x as [n d].
  assert (Hn : 0 < n) by (unfold Qlt in Hx; simpl in Hx; lia).
  unfold magnitude. cbn [Qnum Qden].
  pose proof (Z.log2_spec n Hn) as [Hn1 Hn2].
  pose proof (Z.log2_spec (Z.pos d) ltac:(lia)) as [Hd1 Hd2].
  pose proof (Z.log2_nonneg n) as Ha. pose proof (Z.log2_nonneg (Z.pos d)) as Hb.
  set (a := Z.log2 n) in *. set (b := Z.log2 (Z.pos d)) in *.
  assert (Hdpos : (0 < inject_Z (Z.pos d))%Q) by reflexivity.
  assert (Ex : (n # d == inject_Z n / inject_Z (Z.pos d))%Q) by apply Qmake_Qdiv.
  assert (Lo : (pow2 (a - b - 1) <= n # d)%Q).
  { rewrite Ex. apply Qle_shift_div_l; [exact Hdpos|].
    apply Qle_trans with (pow2 (a - b - 1) * pow2 (b + 1))%Q.
    - apply Qmult_le_l; [apply pow2_pos|].
      rewrite <- pow2_inject by lia. rewrite <- Zle_Qle. unfold Z.succ in Hd2. lia.
    - rewrite <- pow2_plus. replace (a - b - 1 + (b + 1)) with a by lia.
      rewrite <- pow2_inject by lia. rewrite <- Zle_Qle. exact Hn1. }
  assert (Hi : (n # d < pow2 (a - b + 1))%Q).
  { rewrite Ex. apply Qlt_shift_div_r; [exact Hdpos|].
    apply Qlt_le_trans with (pow2 (a - b + 1) * pow2 b)%Q.
    - rewrite <- pow2_plus. replace (a - b + 1 + b) with (Z.succ a) by lia.
      rewrite <- pow2_inject by lia. rewrite <- Zlt_Qlt. exact Hn2.
    - apply Qmult_le_l; [apply pow2_pos|].
      rewrite <- pow2_inject by lia. rewrite <- Zle_Qle. exact Hd1. }
  destruct (Qle_bool (pow2 (a - b)) (n # d)) eqn:E.
  - apply Qle_bool_iff in E. replace (a - b + 1 - 1) with (a - b) by lia.
    split; assumption.
  - split; [exact Lo|]. apply Qnot_le_lt. intros H. apply Qle_bool_iff in H.
    rewrite H in E. discriminate E.
Qed.

(** The nearest integer is at most a half away. *)
Lemma nearest_even_error (s : Q) :
  (inject_Z (nearest_even s) - s <= 1 # 2)%Q
  /\ (s - inject_Z (nearest_even s) <= 1 # 2)%Q.
Proof.
  unfold nearest_even.
  pose proof (Qfloor_le s) as Hle. pose proof (Qlt_floor s) as Hlt.
  rewrite inject_Z_plus in Hlt. change (inject_Z 1) with 1%Q in Hlt.
  destruct (s - inject_Z (Qfloor s) ?= 1 # 2)%Q eqn:E.
  - apply Qeq_alt in E. destruct (Z.even (Qfloor s)).
    + split; lra.
    + rewrite inject_Z_plus. change (inject_Z 1) with 1%Q. split; lra.
  - apply Qlt_alt in E. split; lra.
  - apply Qgt_alt in E. rewrite inject_Z_plus. change (inject_Z 1) with 1%Q. split; lra.
Qed.

(** The unit in the last place is at most [2^-52] times the number, or
    the least one. *)
Lemma quantum_bound (x : Q) :
  ~ (x == 0)%Q ->
  (pow2 (quantum x) <= (Qabs x + pow2 (-1022)) * (1 # 4503599627370496))%Q.
Proof.
  intros Hx. unfold quantum.
  assert (Hpos : (0 < Qabs x)%Q).
  { destruct (Qlt_le_dec 0 (Qabs x)) as [H|H]; [exact H|].
    exfalso. apply Hx. pose proof (Qabs_nonneg x) as H0.
    assert (E : (Qabs x == 0)%Q) by lra.
    pose proof (Qle_Qabs x) as H1. pose proof (Qle_Qabs (- x)) as H2.
    rewrite Qabs_opp in H2. lra. }
  destruct (magnitude_spec (Qabs x) Hpos) as [Hlo _].
  pose proof (pow2_pos (-1022)) as Ht.
  assert (E52 : (pow2 (-52) == 1 # 4503599627370496)%Q) by reflexivity.
  destruct (Z.max_spec (magnitude (Qabs x) - 53) (-1074)) as [[_ ->]|[_ ->]].
  - replace (-1074) with (-1022 + -52) by lia. rewrite pow2_plus, E52.
    apply Qmult_le_compat_r; [lra|discriminate].
  - replace (magnitude (Qabs x) - 53) with (magnitude (Qabs x) - 1 + -52) by lia.
    rewrite pow2_plus, E52. apply Qmult_le_compat_r; [lra|discriminate].
Qed.

(** The nearest multiple of the unit in the last place is at most half a
    unit away: [2^-53] times the number, or half the least unit. *)
Lemma nearest_error (x : Q) :
  ~ (x == 0)%Q ->
  (nearest x - x <= (Qabs x + pow2 (-1022)) * (1 # 9007199254740992))%Q
  /\ (x - nearest x <= (Qabs x + pow2 (-1022)) * (1 # 9007199254740992))%Q.
Proof.
  intros Hx. pose proof (quantum_bound x Hx) as Hq. unfold nearest.
  pose proof (pow2_pos (quantum x)) as Hg.
  set (g := pow2 (quantum x)) in *.
  destruct (nearest_even_error (x / g)) as [H1 H2].
  set (m := inject_Z (nearest_even (x / g))) in *. clearbody m.
  assert (Es : (x / g * g == x)%Q) by (field; lra).
  set (s := (x / g)%Q) in *. clearbody s.
  set (a := Qabs x) in *. clearbody a. set (t := pow2 (-1022)) in *. clearbody t.
  assert (H3 : ((m - s) * g <= (1 # 2) * g)%Q) by (apply Qmult_le_compat_r; lra).
  assert (H4 : ((s - m) * g <= (1 # 2) * g)%Q) by (apply Qmult_le_compat_r; lra).
  clearbody g. split; lra.
Qed.

(** A rational up to the largest power of two of the doubles is rounded
    to a finite double, with that error. *)
Lemma round_error (x : Q) :
  (Qabs x <= max_binade)%Q ->
  exists r : Q,
    round x = Fin r
    /\ (r - x <= (Qabs x + min_normal) * (1 # 9007199254740992))%Q
    /\ (x - r <= (Qabs x + min_normal) * (1 # 9007199254740992))%Q.
Proof.
  unfold max_binade, min_normal. intros Hb. unfold round.
  assert (Ex : (Qred x == x)%Q) by apply Qred_correct.
  pose proof (pow2_pos (-1022)) as Ht.
  pose proof (Qabs_nonneg x) as Ha.
  destruct (Qeq_bool (Qred x) 0) eqn:E0.
  - apply Qeq_bool_iff in E0. exists 0%Q. split; [reflexivity|].
    assert (Ea : (Qabs x == 0)%Q) by (rewrite <- Ex, E0; reflexivity).
    assert (Exx : (x == 0)%Q) by (rewrite <- Ex; exact E0).
    split; lra.
  - assert (Hne : ~ (Qred x == 0)%Q).
    { intros H. apply Qeq_bool_iff in H. rewrite H in E0. discriminate E0. }
    destruct (nearest_error (Qred x) Hne) as [H1 H2].
    assert (Eabs : (Qabs (Qred x) == Qabs x)%Q) by (rewrite Ex; reflexivity).
    set (r := nearest (Qred x)) in *. clearbody r.
    assert (E24 : (pow2 1024 == 2 * pow2 1023)%Q) by reflexivity.
    assert (Hp : (1 <= pow2 1023)%Q) by discriminate.
    assert (Htiny : (pow2 (-1022) <= 1)%Q) by discriminate.
    pose proof (Qle_Qabs x) as Hx1. pose proof (Qle_Qabs (- x)) as Hx2.
    rewrite Qabs_opp in Hx2.
    set (a := Qabs x) in *. set (a' := Qabs (Qred x)) in *.
    set (t := pow2 (-1022)) in *. set (P := pow2 1023) in *. set (P2 := pow2 1024) in *.
    set (x' := Qred x) in *.
    clearbody a a' t P P2 x'.
    destruct (Qle_bool P2 r) eqn:E1.
    { apply Qle_bool_iff in E1. exfalso. lra. }
    destruct (Qle_bool r (- P2)) eqn:E2.
    { apply Qle_bool_iff in E2. exfalso. lra. }
    exists (Qred r). split; [reflexivity|].
    rewrite (Qred_correct r). split; lra.
Qed.

(** Equal rationals are rounded to the same double. *)
Lemma round_comp (x y : Q) : (x == y)%Q -> round x = round y.
Proof. intros H. unfold round. rewrite (Qred_complete x y H). reflexivity. Qed.

Lemma Qfloor_unique (x : Q) (k : Z) :
  (inject_Z k <= x)%Q -> (x < inject_Z k + 1)%Q -> Qfloor x = k.
Proof.
  intros H1 H2. pose proof (Qfloor_le x) as Hle. pose proof (Qlt_floor x) as Hlt.
  rewrite inject_Z_plus in Hlt. change (inject_Z 1) with 1%Q in Hlt.
  assert (A : (inject_Z (Qfloor x) < inject_Z (k + 1))%Q)
    by (rewrite inject_Z_plus; change (inject_Z 1) with 1%Q; lra).
  assert (B : (inject_Z k < inject_Z (Qfloor x + 1))%Q)
    by (rewrite inject_Z_plus; change (inject_Z 1) with 1%Q; lra).
  rewrite <- Zlt_Qlt in A, B. lia.
Qed.

(** The error of one operation whose exact result [x] is bounded by [c]. *)
Lemma round_within (x c : Q) :
  (- c <= x)%Q -> (x <= c)%Q -> (c <= max_binade)%Q ->
  exists r : Q,
    round x = Fin r
    /\ (r - x <= (c + min_normal) * (1 # 9007199254740992))%Q
    /\ (x - r <= (c + min_normal) * (1 # 9007199254740992))%Q.
Proof.
  intros H1 H2 Hc.
  assert (Ha : (Qabs x <= c)%Q) by (apply Qabs_Qle_condition; split; assumption).
  destruct (round_error x) as (r & Er & Hr1 & Hr2); [exact (Qle_trans _ _ _ Ha Hc)|].
  exists r. split; [exact Er|].
  revert Ha Hr1 Hr2. generalize (Qabs x), min_normal. intros a t Ha Hr1 Hr2.
  split; lra.
Qed.

Lemma magnitudes :
  (max_binade == 8388608 * pow2 1000)%Q /\ (18446744073709551616 <= pow2 1000)%Q
  /\ (0 < min_normal)%Q /\ (min_normal <= 1 # 1024)%Q.
Proof. repeat split; try reflexivity; discriminate. Qed.

Lemma Qabs_bounds (q : Q) : (0 <= Qabs q)%Q /\ (q <= Qabs q)%Q /\ (- q <= Qabs q)%Q.
Proof.
  split; [apply Qabs_nonneg|]. split; [apply Qle_Qabs|].
  rewrite <- Qabs_opp. apply Qle_Qabs.
Qed.

(** [Math.round(v * 100) / 100] of a number [v] of size at most [A]: a
    whole number [k] of hundredths, at most a half and the error of the
    product away from [100 v], and its quotient by 100. *)
Lemma hundredths (v A : Q) :
  (- A <= v)%Q -> (v <= A)%Q -> (A <= 4 * pow2 1000)%Q ->
  exists (k : Z) (r : Q),
    div (Math_round (mul (Fin v) (of_Z 100))) (of_Z 100) = Fin r
    /\ div (of_Z k) (of_Z 100) = Fin r
    /\ (inject_Z k - 100 * v <= (1 # 2) + (100 * A + 1) * (1 # 9007199254740992))%Q
    /\ (100 * v - inject_Z k <= (1 # 2) + (100 * A + 1) * (1 # 9007199254740992))%Q
    /\ (r - v <= (1 # 200) + (3 * A + 2) * (1 # 9007199254740992))%Q
    /\ (v - r <= (1 # 200) + (3 * A + 2) * (1 # 9007199254740992))%Q.
Proof.
  destruct magnitudes as (EP & HB & Ht0 & Ht1). revert EP HB.
  generalize (pow2 1000). intros B EP HB Hv1 Hv2 HA.
  unfold mul. cbn [JsNum.mul of_Z rounded].
  destruct (round_within (Qred (v * inject_Z 100)) (100 * A))
    as (p & Ep & Hp1 & Hp2).
  { rewrite Qred_correct. change (inject_Z 100) with 100%Q. lra. }
  { rewrite Qred_correct. change (inject_Z 100) with 100%Q. lra. }
  { lra. }
  rewrite Qred_correct in Hp1, Hp2.
  change (inject_Z 100) with 100%Q in Hp1, Hp2.
  rewrite Ep. cbn [Math_round].
  pose proof (Qfloor_le (p + (1 # 2))) as Hk1. pose proof (Qlt_floor (p + (1 # 2))) as Hk2.
  rewrite inject_Z_plus in Hk2. change (inject_Z 1) with 1%Q in Hk2.
  generalize dependent (Qfloor (p + (1 # 2))). intros k Hk1 Hk2.
  unfold div. cbn [JsNum.div of_Z rounded].
  change (Qeq_bool (inject_Z 100) 0) with false. cbn iota.
  assert (Ek : (Qred (inject_Z k / inject_Z 100) == inject_Z k * (1 # 100))%Q).
  { rewrite Qred_correct. unfold Qdiv. reflexivity. }
  destruct (round_within (Qred (inject_Z k / inject_Z 100)) (2 * A + 1))
    as (r & Er & Hr1 & Hr2).
  { rewrite Ek. lra. }
  { rewrite Ek. lra. }
  { lra. }
  rewrite Ek in Hr1, Hr2.
  exists k, r. split; [exact Er|]. split; [exact Er|].
  clear Ep Er Ek. revert EP Ht0 Ht1 Hp1 Hp2 Hr1 Hr2.
  generalize min_normal, max_binade. intros t P EP Ht0 Ht1 Hp1 Hp2 Hr1 Hr2.
  repeat split; lra.
Qed.

(** The same of the number that the numeral [q] denotes. *)
Lemma two_decimals (q : Q) :
  (Qabs q <= pow2 1000)%Q ->
  exists (k : Z) (r : Q),
    div (Math_round (mul (ToNumber (Some q)) (of_Z 100))) (of_Z 100) = Fin r
    /\ div (of_Z k) (of_Z 100) = Fin r
    /\ (inject_Z k - 100 * q <= (1 # 2) + (Qabs q + 1) * (1 # 35184372088832))%Q
    /\ (100 * q - inject_Z k <= (1 # 2) + (Qabs q + 1) * (1 # 35184372088832))%Q
    /\ (r - q <= (1 # 200) + (Qabs q + 1) * (1 # 1125899906842624))%Q
    /\ (q - r <= (1 # 200) + (Qabs q + 1) * (1 # 1125899906842624))%Q.
Proof.
  destruct magnitudes as (EP & HB & Ht0 & Ht1).
  destruct (Qabs_bounds q) as (HA0 & Hq1 & Hq2).
  revert HA0 Hq1 Hq2. generalize (Qabs q). intros A HA0 Hq1 Hq2 Hq.
  destruct (round_within q A) as (d & Ed & Hd1 & Hd2); [lra|lra|lra|].
  cbn [ToNumber]. rewrite Ed.
  destruct (hundredths d (A + (A + min_normal) * (1 # 9007199254740992)))
    as (k & r & E1 & E2 & Hk1 & Hk2 & Hr1 & Hr2); [lra|lra|lra|].
  exists k, r. split; [exact E1|]. split; [exact E2|].
  clear Ed E1 E2. revert EP HB Ht0 Ht1 Hq Hd1 Hd2 Hk1 Hk2 Hr1 Hr2.
  generalize min_normal, max_binade, (pow2 1000). intros t P B.
  intros. repeat split; lra.
Qed.

(** A numeral with two decimals comes back as the number it denotes. *)
Lemma two_decimals_fixed (k : Z) :
  - 2 ^ 50 <= k <= 2 ^ 50 ->
  div (Math_round (mul (ToNumber (Some (k # 100))) (of_Z 100))) (of_Z 100)
  = ToNumber (Some (k # 100)).
Proof.
  intros Hk. destruct magnitudes as (EP & HB & Ht0 & Ht1).
  assert (Eq : (100 * (k # 100) == inject_Z k)%Q).
  { unfold Qeq, Qmult, inject_Z. simpl. lia. }
  assert (HK : (- inject_Z (2 ^ 50) <= inject_Z k)%Q /\ (inject_Z k <= inject_Z (2 ^ 50))%Q).
  { rewrite <- inject_Z_opp, <- !Zle_Qle. lia. }
  change (inject_Z (2 ^ 50)) with 1125899906842624%Q in HK. destruct HK as [HK1 HK2].
  destruct (Qabs_bounds (k # 100)) as (HA0 & Hq1 & Hq2).
  assert (HA : (Qabs (k # 100) <= 11258999068427 # 1)%Q)
    by (apply Qabs_Qle_condition; split; lra).
  revert Eq HA0 Hq1 Hq2 HA. generalize (Qabs (k # 100)).
  intros A Eq HA0 Hq1 Hq2 HA.
  assert (HP : (1152921504606846976 <= max_binade)%Q) by discriminate.
  destruct (round_within (k # 100) A) as (d & Ed & Hd1 & Hd2); [lra|lra|lra|].
  cbn [ToNumber]. rewrite Ed.
  unfold mul. cbn [JsNum.mul of_Z rounded].
  destruct (round_within (Qred (d * inject_Z 100)) (101 * A + 1))
    as (p & Ep & Hp1 & Hp2).
  { rewrite Qred_correct. change (inject_Z 100) with 100%Q. lra. }
  { rewrite Qred_correct. change (inject_Z 100) with 100%Q. lra. }
  { lra. }
  rewrite Qred_correct in Hp1, Hp2.
  change (inject_Z 100) with 100%Q in Hp1, Hp2.
  rewrite Ep. cbn [Math_round].
  assert (Ef : Qfloor (p + (1 # 2)) = k).
  { revert Ht0 Ht1 Hd1 Hd2 Hp1 Hp2. generalize min_normal. intros t Ht0 Ht1 Hd1 Hd2 Hp1 Hp2.
    apply Qfloor_unique; lra. }
  rewrite Ef. unfold div. cbn [JsNum.div of_Z rounded].
  change (Qeq_bool (inject_Z 100) 0) with false. cbn iota.
  rewrite <- Ed. apply round_comp. rewrite Qred_correct. symmetry. apply Qmake_Qdiv.
Qed.

(** [Math.round((c / d) * 100)] for a part [c] of a positive [d]. *)
Lemma percentage (c d : Z) :
  0 < d -> 0 <= c <= d ->
  exists pct : Z,
    Math_round (mul (div (of_Z c) (of_Z d)) (of_Z 100)) = of_Z pct
    /\ 0 <= pct <= 100
    /\ (inject_Z pct - 100 * (inject_Z c / inject_Z d)
        <= (1 # 2) + (1 # 35184372088832))%Q
    /\ (100 * (inject_Z c / inject_Z d) - inject_Z pct
        <= (1 # 2) + (1 # 35184372088832))%Q.
Proof.
  intros Hd Hc. destruct magnitudes as (EP & HB & Ht0 & Ht1).
  assert (HP : (1024 <= max_binade)%Q) by discriminate.
  assert (Hd0 : (0 < inject_Z d)%Q) by (change 0%Q with (inject_Z 0); rewrite <- Zlt_Qlt; lia).
  assert (HT0 : (0 <= inject_Z c / inject_Z d)%Q).
  { apply Qle_shift_div_l; [exact Hd0|]. rewrite Qmult_0_l.
    change 0%Q with (inject_Z 0). rewrite <- Zle_Qle. lia. }
  assert (HT1 : (inject_Z c / inject_Z d <= 1)%Q).
  { apply Qle_shift_div_r; [exact Hd0|]. rewrite Qmult_1_l. rewrite <- Zle_Qle. lia. }
  unfold div at 1. cbn [JsNum.div of_Z rounded].
  assert (E0 : Qeq_bool (inject_Z d) 0 = false).
  { destruct (Qeq_bool (inject_Z d) 0) eqn:E; [|reflexivity].
    apply Qeq_bool_iff in E. lra. }
  rewrite E0. cbn [rounded].
  revert HT0 HT1. generalize (inject_Z c / inject_Z d)%Q. intros T HT0 HT1.
  destruct (round_within (Qred T) 1) as (x & Ex & Hx1 & Hx2);
    [rewrite Qred_correct; lra|rewrite Qred_correct; lra|lra|].
  rewrite Qred_correct in Hx1, Hx2. rewrite Ex.
  unfold mul. cbn [JsNum.mul of_Z rounded].
  destruct (round_within (Qred (x * inject_Z 100)) 101) as (y & Ey & Hy1 & Hy2).
  { rewrite Qred_correct. change (inject_Z 100) with 100%Q. lra. }
  { rewrite Qred_correct. change (inject_Z 100) with 100%Q. lra. }
  { lra. }
  rewrite Qred_correct in Hy1, Hy2. change (inject_Z 100) with 100%Q in Hy1, Hy2.
  rewrite Ey. cbn [Math_round]. exists (Qfloor (y + (1 # 2))).
  split; [reflexivity|].
  pose proof (Qfloor_le (y + (1 # 2))) as Hk1. pose proof (Qlt_floor (y + (1 # 2))) as Hk2.
  rewrite inject_Z_plus in Hk2. change (inject_Z 1) with 1%Q in Hk2.
  revert Ht0 Ht1 Hx1 Hx2 Hy1 Hy2. generalize min_normal. intros t Ht0 Ht1 Hx1 Hx2 Hy1 Hy2.
  split; [|split; lra].
  split.
  - change 0 with (Qfloor 0). apply Qfloor_resp_le. lra.
  - assert (H : (inject_Z (Qfloor (y + (1 # 2))) < inject_Z 101)%Q)
      by (change (inject_Z 101) with 101%Q; lra).
    rewrite <- Zlt_Qlt in H. lia.
Qed.

End RoundingError.

(** ** The result shaper *)

Module ResultShaper.

(** C1, as stated, fails: a bucket with doc count 0 and in-stock count 0
    is shaped, by both category handlers, to the percentage NaN, which is
    not equal to 0. *)
Lemma empty_bucket_percentage_not_zero :
  let a := {| Analytics.key := "Books"; Analytics.doc_count := 0;
              Analytics.bucket_avg_price_value := None;
              Analytics.bucket_avg_rating_value := None;
              Analytics.bucket_in_stock_count_value := 0 |} in
  let b := {| Aggregations.key := "Books"; Aggregations.doc_count := 0;
              Aggregations.bucket_avg_price_value := None;
              Aggregations.bucket_avg_rating_value := None;
              Aggregations.bucket_min_price_value := None;
              Aggregations.bucket_max_price_value := None;
              Aggregations.bucket_in_stock_count_count_value := 0 |} in
  Analytics.in_stock_percentage (Analytics.shape_bucket a) = NaN
  /\ eqb (Analytics.in_stock_percentage (Analytics.shape_bucket a)) (of_Z 0) = false
  /\ Aggregations.in_stock_percentage (Aggregations.shape_bucket b) = NaN
  /\ eqb (Aggregations.in_stock_percentage (Aggregations.shape_bucket b)) (of_Z 0) = false.
Proof. repeat split; reflexivity. Qed.

(** C1, amended: for every bucket whose doc count is 0 and whose in-stock
    count is 0, both category handlers shape the in-stock percentage to
    NaN: the quotient 0/0 is not guarded, and nothing is thrown. *)
Theorem empty_bucket_percentage_is_NaN :
  (forall bucket : Analytics.Bucket,
      Analytics.doc_count bucket = 0 ->
      Analytics.bucket_in_stock_count_value bucket = 0 ->
      Analytics.in_stock_percentage (Analytics.shape_bucket bucket) = NaN)
  /\ (forall bucket : Aggregations.Bucket,
      Aggregations.doc_count bucket = 0 ->
      Aggregations.bucket_in_stock_count_count_value bucket = 0 ->
      Aggregations.in_stock_percentage (Aggregations.shape_bucket bucket) = NaN).
Proof.
  split; intros bucket Hdoc Hstock; simpl; rewrite Hdoc, Hstock; reflexivity.
Qed.

Lemma empty_bucket_percentage_is_NaN_witness :
  Analytics.in_stock_percentage
    (Analytics.shape_bucket
       {| Analytics.key := "Toys"; Analytics.doc_count := 0;
          Analytics.bucket_avg_price_value := None;
          Analytics.bucket_avg_rating_value := None;
          Analytics.bucket_in_stock_count_value := 0 |}) = NaN.
Proof.
  apply (proj1 empty_bucket_percentage_is_NaN); reflexivity.
Defined.

(** C3, as stated, fails in three ways.  A rating average is shaped to
    two decimals, not to one: 4.449 becomes 4.45.  A currency value that
    is not an average is not rounded at all: the minimum price 5.999 is
    handed on as it is.  And the rounding is that of the double product
    [v * 100], not a decimal round-half-up: the price average 1.005 (a
    double just below 1.005, whose product with 100 is just below 100.5)
    becomes 1, not 1.01. *)
Lemma rating_rounded_to_two_decimals_not_one :
  let aggs := {| Analytics.total_products_value := 3;
                 Analytics.avg_price_value := Some (19999 # 1000)%Q;
                 Analytics.min_price_value := Some (5999 # 1000)%Q;
                 Analytics.max_price_value := Some (40 # 1)%Q;
                 Analytics.avg_rating_value := Some (4449 # 1000)%Q;
                 Analytics.in_stock_count_count_value := 2;
                 Analytics.out_of_stock_count_count_value := 1 |} in
  let tie := {| Analytics.total_products_value := 3;
                Analytics.avg_price_value := Some (1005 # 1000)%Q;
                Analytics.min_price_value := Some (1 # 1)%Q;
                Analytics.max_price_value := Some (2 # 1)%Q;
                Analytics.avg_rating_value := None;
                Analytics.in_stock_count_count_value := 2;
                Analytics.out_of_stock_count_count_value := 1 |} in
  Analytics.average_rating (Analytics.overview aggs)
  = Binary64.ToNumber (Some (445 # 100)%Q)
  /\ eqb (Analytics.average_rating (Analytics.overview aggs))
         (Binary64.ToNumber (Some (44 # 10)%Q)) = false
  /\ Analytics.min (Analytics.price_stats (Analytics.overview aggs))
     = Some (5999 # 1000)%Q
  /\ Analytics.average (Analytics.price_stats (Analytics.overview tie)) = of_Z 1
  /\ eqb (Analytics.average (Analytics.price_stats (Analytics.overview tie)))
         (Binary64.ToNumber (Some (101 # 100)%Q)) = false.
Proof. cbv zeta. repeat split; vm_compute; reflexivity. Qed.

(** C3, amended: the shaper treats currency averages and rating averages
    alike, with [Math.round(v * 100) / 100] in double arithmetic, in the
    overview and in the category buckets: the shaped value is the number
    [k / 100] for a whole number [k] of hundredths, where [k] is at most
    a half away from [100 v] but for the rounding error of the product
    (at most [(|v| + 1) / 2^45]), so that the shaped value is within
    0.005 of [v] but for the rounding errors (at most [(|v| + 1) / 2^50]).
    The minimum and the maximum price are handed on as the engine gave
    them.  So 19.999 is shaped to 20 and 4.449 to 4.45. *)
Theorem averages_rounded_to_two_decimals
    (aggs : Analytics.OverviewAggs) (bucket : Analytics.Bucket) (p r : Q) :
  (Qabs p <= Binary64.pow2 1000)%Q ->
  (Qabs r <= Binary64.pow2 1000)%Q ->
  Analytics.avg_price_value aggs = Some p ->
  Analytics.avg_rating_value aggs = Some r ->
  Analytics.bucket_avg_price_value bucket = Some p ->
  Analytics.bucket_avg_rating_value bucket = Some r ->
  (exists (k : Z) (shaped : Q),
      Analytics.average (Analytics.price_stats (Analytics.overview aggs)) = Fin shaped
      /\ Analytics.avg_price (Analytics.shape_bucket bucket) = Fin shaped
      /\ Binary64.div (of_Z k) (of_Z 100) = Fin shaped
      /\ (inject_Z k - 100 * p <= (1 # 2) + (Qabs p + 1) * (1 # 35184372088832))%Q
      /\ (100 * p - inject_Z k <= (1 # 2) + (Qabs p + 1) * (1 # 35184372088832))%Q
      /\ (shaped - p <= (1 # 200) + (Qabs p + 1) * (1 # 1125899906842624))%Q
      /\ (p - shaped <= (1 # 200) + (Qabs p + 1) * (1 # 1125899906842624))%Q)
  /\ (exists (k : Z) (shaped : Q),
      Analytics.average_rating (Analytics.overview aggs) = Fin shaped
      /\ Analytics.avg_rating (Analytics.shape_bucket bucket) = Fin shaped
      /\ Binary64.div (of_Z k) (of_Z 100) = Fin shaped
      /\ (inject_Z k - 100 * r <= (1 # 2) + (Qabs r + 1) * (1 # 35184372088832))%Q
      /\ (100 * r - inject_Z k <= (1 # 2) + (Qabs r + 1) * (1 # 35184372088832))%Q
      /\ (shaped - r <= (1 # 200) + (Qabs r + 1) * (1 # 1125899906842624))%Q
      /\ (r - shaped <= (1 # 200) + (Qabs r + 1) * (1 # 1125899906842624))%Q)
  /\ Analytics.min (Analytics.price_stats (Analytics.overview aggs))
     = Analytics.min_price_value aggs
  /\ Analytics.max (Analytics.price_stats (Analytics.overview aggs))
     = Analytics.max_price_value aggs.
Proof.
  intros Hp Hr Eap Ear Ebp Ebr.
  cbn [Analytics.overview Analytics.shape_bucket Analytics.price_stats
       Analytics.average Analytics.average_rating Analytics.avg_price
       Analytics.avg_rating Analytics.min Analytics.max].
  rewrite Eap, Ear, Ebp, Ebr.
  destruct (RoundingError.two_decimals p Hp) as (kp & sp & E1 & E2 & H).
  destruct (RoundingError.two_decimals r Hr) as (kr & sr & E3 & E4 & H').
  split; [exists kp, sp; auto|]. split; [exists kr, sr; auto|]. auto.
Qed.

Lemma averages_rounded_to_two_decimals_witness :
  let aggs := {| Analytics.total_products_value := 3;
                 Analytics.avg_price_value := Some (19999 # 1000)%Q;
                 Analytics.min_price_value := Some (5999 # 1000)%Q;
                 Analytics.max_price_value := Some (40 # 1)%Q;
                 Analytics.avg_rating_value := Some (4449 # 1000)%Q;
                 Analytics.in_stock_count_count_value := 2;
                 Analytics.out_of_stock_count_count_value := 1 |} in
  let bucket := {| Analytics.key := "Books"; Analytics.doc_count := 3;
                   Analytics.bucket_avg_price_value := Some (19999 # 1000)%Q;
                   Analytics.bucket_avg_rating_value := Some (4449 # 1000)%Q;
                   Analytics.bucket_in_stock_count_value := 2 |} in
  (exists (k : Z) (shaped : Q),
      Analytics.average (Analytics.price_stats (Analytics.overview aggs)) = Fin shaped
      /\ Analytics.avg_price (Analytics.shape_bucket bucket) = Fin shaped
      /\ Binary64.div (of_Z k) (of_Z 100) = Fin shaped
      /\ (shaped - (19999 # 1000) <= 1 # 199)%Q
      /\ ((19999 # 1000) - shaped <= 1 # 199)%Q)
  /\ (exists (k : Z) (shaped : Q),
      Analytics.average_rating (Analytics.overview aggs) = Fin shaped
      /\ Analytics.avg_rating (Analytics.shape_bucket bucket) = Fin shaped
      /\ Binary64.div (of_Z k) (of_Z 100) = Fin shaped
      /\ (shaped - (4449 # 1000) <= 1 # 199)%Q
      /\ ((4449 # 1000) - shaped <= 1 # 199)%Q)
  /\ Analytics.average (Analytics.price_stats (Analytics.overview aggs)) = of_Z 20
  /\ Analytics.average_rating (Analytics.overview aggs)
     = Binary64.ToNumber (Some (445 # 100)%Q).
Proof.
  intros aggs bucket.
  destruct (averages_rounded_to_two_decimals aggs bucket (19999 # 1000) (4449 # 1000))
    as ((kp & sp & E1 & E2 & E3 & _ & _ & H1 & H2)
        & (kr & sr & E4 & E5 & E6 & _ & _ & H3 & H4) & _);
    [vm_compute; discriminate|vm_compute; discriminate
    |reflexivity|reflexivity|reflexivity|reflexivity|].
  change (Qabs (19999 # 1000)) with (19999 # 1000)%Q in H1, H2.
  change (Qabs (4449 # 1000)) with (4449 # 1000)%Q in H3, H4.
  split; [exists kp, sp; repeat split; try assumption; lra|].
  split; [exists kr, sr; repeat split; try assumption; lra|].
  split; vm_compute; reflexivity.
Defined.

End ResultShaper.

(** ** The aggregation spec builder *)

Module AggregationSpecBuilder.
Import Aggregations.

Lemma split_comma_not_nil (s : string) : split_comma s <> [].
Proof.
  induction s as [|c rest IH]; simpl; [discriminate|].
  destruct (Ascii.eqb c ","); [discriminate|].
  destruct (split_comma rest); discriminate.
Qed.

(** A text without blank is determined by what precedes the first blank. *)
Lemma blank_free_prefix (s1 s2 r1 r2 : string) :
  has_blank s1 = false ->
  has_blank s2 = false ->
  s1 +:+ String " " r1 = s2 +:+ String " " r2 ->
  s1 = s2.
Proof.
  revert s2. induction s1 as [|a s1 IH]; intros [|c s2]; simpl; intros H1 H2 E.
  - reflexivity.
  - injection E as Ec _. subst c. discriminate.
  - injection E as Ea _. subst a. discriminate.
  - injection E as Ea E'. subst c.
    apply orb_false_iff in H1 as [_ H1]. apply orb_false_iff in H2 as [_ H2].
    f_equal. eapply IH; eauto.
Qed.

Section price_ranges.

Context {num : Type}.
Variable toString : num -> string.

Lemma index_of_nat (arr : list num) (i : nat) :
  index arr (Z.of_nat i) = arr !! i.
Proof.
  unfold index. destruct (Z.ltb_spec (Z.of_nat i) 0); [lia|].
  rewrite Nat2Z.id. reflexivity.
Qed.

Lemma index_middle (pre : list num) (b : num) (rest : list num) :
  index (pre ++ b :: rest) (Z.of_nat (length pre)) = Some b.
Proof. rewrite index_of_nat. apply list_lookup_middle. reflexivity. Qed.

(** The loop from index [length pre + 1] on, with the final push, gives
    the buckets from the breakpoint at [length pre] on. *)
Lemma priceRanges_from (rest : list num) : forall (pre : list num) (b : num),
  map (fun i => range_at toString (pre ++ b :: rest) (Z.of_nat i))
      (seq (S (length pre)) (length rest))
  ++ [ {| from := index (pre ++ b :: rest)
                    (Z.of_nat (length (pre ++ b :: rest)) - 1);
          to := None;
          range_key :=
            "Over $" +:+ template toString
              (index (pre ++ b :: rest)
                 (Z.of_nat (length (pre ++ b :: rest)) - 1)) |} ]
  = spec_between toString b rest.
Proof.
  induction rest as [|c rest IH]; intros pre b.
  - cbn [length seq map app spec_between].
    replace (Z.of_nat (length (pre ++ [b])) - 1) with (Z.of_nat (length pre))
      by (rewrite length_app; simpl; lia).
    rewrite index_middle. reflexivity.
  - cbn [length seq map app spec_between]. f_equal.
    + unfold range_at.
      destruct (Z.eqb_spec (Z.of_nat (S (length pre))) 0); [lia|].
      replace (Z.of_nat (S (length pre)) - 1) with (Z.of_nat (length pre)) by lia.
      rewrite index_middle.
      replace (pre ++ b :: c :: rest) with ((pre ++ [b]) ++ c :: rest)
        by (rewrite <- app_assoc; reflexivity).
      replace (S (length pre)) with (length (pre ++ [b]))
        by (rewrite length_app; simpl; lia).
      rewrite index_middle. reflexivity.
    + specialize (IH (pre ++ [b]) c).
      replace (length (pre ++ [b])) with (S (length pre)) in IH
        by (rewrite length_app; simpl; lia).
      replace ((pre ++ [b]) ++ c :: rest) with (pre ++ b :: c :: rest) in IH
        by (rewrite <- app_assoc; reflexivity).
      exact IH.
Qed.

(** The index loop builds the buckets of the specification, in the order
    of the breakpoints as given. *)
Lemma priceRanges_spec (b1 : num) (rest : list num) :
  priceRanges toString (b1 :: rest) = spec_ranges toString b1 rest.
Proof.
  unfold priceRanges, spec_ranges.
  cbn [length seq map app]. f_equal.
  exact (priceRanges_from rest [] b1).
Qed.

Lemma spec_between_length (rest : list num) : forall b,
  length (spec_between toString b rest) = S (length rest).
Proof. induction rest as [|c rest IH]; intros b; simpl; [|rewrite IH]; reflexivity. Qed.

Lemma spec_between_bounds (rest : list num) : forall b,
  map (fun r => (from r, to r)) (spec_between toString b rest)
  = zip (map Some (b :: rest)) (map Some rest ++ [None]).
Proof.
  induction rest as [|c rest IH]; intros b; [reflexivity|].
  cbn [spec_between map from to]. rewrite IH. reflexivity.
Qed.

Lemma spec_between_last (rest : list num) : forall b,
  range_key <$> last (spec_between toString b rest)
  = (fun x => "Over $" +:+ toString x) <$> last (b :: rest).
Proof.
  induction rest as [|c rest IH]; intros b; [reflexivity|].
  cbn [spec_between]. rewrite last_cons_cons. rewrite <- IH.
  pose proof (spec_between_length rest c) as Hlen.
  destruct (spec_between toString c rest) as [|r l]; [discriminate Hlen|].
  rewrite last_cons_cons. reflexivity.
Qed.

(** Every label after the first is "Over $x", or "$x - $y" for a
    breakpoint [x] of the list. *)
Lemma spec_between_keys (rest : list num) : forall b k,
  k ∈ map range_key (spec_between toString b rest) ->
  (exists x, k = "Over $" +:+ toString x)
  \/ (exists x y, x ∈ b :: rest /\ k = "$" +:+ toString x +:+ " - $" +:+ toString y).
Proof.
  induction rest as [|c rest IH]; intros b k Hk; cbn [spec_between map range_key] in Hk.
  - apply list_elem_of_singleton in Hk. left. eauto.
  - apply elem_of_cons in Hk as [->|Hk].
    + right. exists b, c. split; [left|reflexivity].
    + destruct (IH c k Hk) as [?|(x & y & Hx & ->)]; [left; assumption|].
      right. exists x, y. split; [right; assumption|reflexivity].
Qed.

Variable lt : relation num.
Context `{!StrictOrder lt}.
Hypothesis toString_inj : forall x y, toString x = toString y -> x = y.
Hypothesis toString_blank_free : forall x, has_blank (toString x) = false.

Lemma spec_between_NoDup (rest : list num) : forall b,
  StronglySorted lt (b :: rest) ->
  NoDup (map range_key (spec_between toString b rest)).
Proof.
  induction rest as [|c rest IH]; intros b Hs; cbn [spec_between map range_key].
  - apply NoDup_singleton.
  - apply StronglySorted_inv in Hs as [Hs Hb].
    apply NoDup_cons. split; [|apply IH; exact Hs].
    intros Hin. apply spec_between_keys in Hin as [[x E]|(x & y & Hx & E)].
    + discriminate E.
    + injection E as E.
      apply blank_free_prefix in E; try apply toString_blank_free.
      apply toString_inj in E. subst x.
      rewrite Forall_forall in Hb. apply Hb in Hx.
      exact (irreflexivity lt b Hx).
Qed.

Lemma spec_ranges_NoDup (b1 : num) (rest : list num) :
  Sorted lt (b1 :: rest) ->
  NoDup (map range_key (spec_ranges toString b1 rest)).
Proof.
  intros Hs. apply Sorted_StronglySorted in Hs; [|apply _].
  unfold spec_ranges. cbn [map range_key]. apply NoDup_cons. split.
  - intros Hin. apply spec_between_keys in Hin as [[x E]|(x & y & _ & E)]; discriminate E.
  - apply spec_between_NoDup. exact Hs.
Qed.

End price_ranges.

(** *** The instance of integer breakpoints *)

Lemma string_of_uint_blank_free (d : Decimal.uint) :
  has_blank (NilEmpty.string_of_uint d) = false.
Proof. induction d; simpl; auto. Qed.

Lemma toString_integer_blank_free (x : option Z) :
  has_blank (toString_integer x) = false.
Proof.
  destruct x as [z|]; [|reflexivity]. unfold toString_integer.
  destruct (Z.to_int z); simpl; apply string_of_uint_blank_free.
Qed.

Lemma toString_integer_inj (x y : option Z) :
  toString_integer x = toString_integer y -> x = y.
Proof.
  assert (P : forall z, NilEmpty.int_of_string (toString_integer (Some z)) = Some (Z.to_int z))
    by (intros z; apply NilEmpty.isi).
  destruct x as [a|], y as [b|]; intros E; [| | |reflexivity].
  - pose proof (P a) as Ha. rewrite E, P in Ha. injection Ha as Ha.
    f_equal. rewrite <- (DecimalZ.of_to a), <- (DecimalZ.of_to b). congruence.
  - pose proof (P a) as Ha. rewrite E in Ha. discriminate Ha.
  - pose proof (P b) as Hb. rewrite <- E in Hb. discriminate Hb.
Qed.

#[local] Instance lt_integer_strict : StrictOrder lt_integer.
Proof.
  split.
  - intros [x|]; unfold complement, lt_integer; lia.
  - intros [x|] [y|] [z|]; unfold lt_integer; lia.
Qed.

(** C2, as stated, fails: the breakpoint list "100,50" is neither sorted
    nor rejected; its buckets are derived in the order given. *)
Lemma decreasing_breakpoints_kept_in_given_order :
  price_analysis_ranges Number_integer toString_integer (Some "100,50"%string)
  = [ {| from := None; to := Some (Some 100); range_key := "Under $100" |};
      {| from := Some (Some 100); to := Some (Some 50); range_key := "$100 - $50" |};
      {| from := Some (Some 50); to := None; range_key := "Over $50" |} ]
  /\ price_analysis_ranges Number_integer toString_integer (Some "100,50"%string)
     <> price_analysis_ranges Number_integer toString_integer (Some "50,100"%string)
  /\ ~ lt_integer (Some 100) (Some 50).
Proof.
  split; [reflexivity|]. split; [discriminate|]. unfold lt_integer. lia.
Qed.

(** C2, amended: the builder takes the values of the delimited list in
    the order given, without sorting or validating them.  The list always
    has a first value; for the values b1, b2, ..., bn it produces exactly
    n+1 range buckets with the boundaries (-inf,b1), (b1,b2), ...,
    (bn,+inf), the lowest labeled "Under $b1" and the highest "Over $bn";
    when the values are strictly increasing the labels are unique. *)
Theorem price_ranges_in_given_order
    {num : Type} (Number : string -> num) (toString : num -> string)
    (lt : relation num) `{!StrictOrder lt}
    (toString_inj : forall x y, toString x = toString y -> x = y)
    (toString_blank_free : forall x, has_blank (toString x) = false)
    (ranges : option string) :
  exists (b1 : num) (rest : list num),
    rangeValues Number ranges = b1 :: rest
    /\ price_analysis_ranges Number toString ranges = spec_ranges toString b1 rest
    /\ length (price_analysis_ranges Number toString ranges) = S (length (b1 :: rest))
    /\ map (fun r => (from r, to r)) (price_analysis_ranges Number toString ranges)
       = zip (None :: map Some (b1 :: rest)) (map Some (b1 :: rest) ++ [None])
    /\ range_key <$> head (price_analysis_ranges Number toString ranges)
       = Some ("Under $" +:+ toString b1)
    /\ range_key <$> last (price_analysis_ranges Number toString ranges)
       = (fun bn => "Over $" +:+ toString bn) <$> last (b1 :: rest)
    /\ (Sorted lt (b1 :: rest) ->
        NoDup (map range_key (price_analysis_ranges Number toString ranges))).
Proof.
  unfold price_analysis_ranges.
  destruct (rangeValues Number ranges) as [|b1 rest] eqn:E.
  { unfold rangeValues in E. apply map_eq_nil in E.
    exfalso. exact (split_comma_not_nil _ E). }
  exists b1, rest. rewrite priceRanges_spec. split; [reflexivity|].
  split; [reflexivity|]. split.
  { unfold spec_ranges. cbn [length]. rewrite spec_between_length. reflexivity. }
  split.
  { unfold spec_ranges. cbn [map from to]. rewrite spec_between_bounds. reflexivity. }
  split; [reflexivity|]. split.
  { unfold spec_ranges.
    pose proof (spec_between_length toString rest b1) as Hlen.
    rewrite <- spec_between_last.
    destruct (spec_between toString b1 rest) as [|r l]; [discriminate Hlen|].
    rewrite last_cons_cons. reflexivity. }
  intros Hs. eapply spec_ranges_NoDup; eauto.
Qed.

Lemma price_ranges_in_given_order_witness :
  exists (b1 : option Z) (rest : list (option Z)),
    rangeValues Number_integer (Some "50,100,200"%string) = b1 :: rest
    /\ price_analysis_ranges Number_integer toString_integer (Some "50,100,200"%string)
       = spec_ranges toString_integer b1 rest
    /\ length (price_analysis_ranges Number_integer toString_integer
                 (Some "50,100,200"%string)) = S (length (b1 :: rest))
    /\ map (fun r => (from r, to r))
         (price_analysis_ranges Number_integer toString_integer (Some "50,100,200"%string))
       = zip (None :: map Some (b1 :: rest)) (map Some (b1 :: rest) ++ [None])
    /\ range_key <$> head (price_analysis_ranges Number_integer toString_integer
                             (Some "50,100,200"%string))
       = Some ("Under $" +:+ toString_integer b1)
    /\ range_key <$> last (price_analysis_ranges Number_integer toString_integer
                             (Some "50,100,200"%string))
       = (fun bn => "Over $" +:+ toString_integer bn) <$> last (b1 :: rest)
    /\ (Sorted lt_integer (b1 :: rest) ->
        NoDup (map range_key (price_analysis_ranges Number_integer toString_integer
                                (Some "50,100,200"%string)))).
Proof.
  exact (price_ranges_in_given_order Number_integer toString_integer lt_integer
           toString_integer_inj toString_integer_blank_free
           (Some "50,100,200"%string)).
Defined.

End AggregationSpecBuilder.

(** ** The filter clause builder *)

Module FilterClauseBuilder.
Import Search.

Lemma truthy_number_nonzero (r : Q) : ~ (r == 0)%Q -> truthy_number r = true.
Proof.
  intros H. unfold truthy_number. destruct (Qeq_bool r 0) eqn:E; [|reflexivity].
  apply Qeq_bool_eq in E. contradiction.
Qed.

Lemma truthy_string_nonempty (c : string) : c <> EmptyString -> truthy_string c = true.
Proof. destruct c; [contradiction|reflexivity]. Qed.

Lemma spec_filter_clauses_length (filters : Filters) :
  length (spec_filter_clauses filters) = present_fields filters.
Proof.
  unfold spec_filter_clauses, present_fields, defined.
  destruct filters as [[c|] pmin pmax [r|] [b|] [[|t ts]|]];
    cbn [category priceMin priceMax rating inStock tags];
    destruct pmin, pmax; reflexivity.
Qed.

(** C5, as stated, fails: a filter set whose only field is a rating floor
    of 0 has one present field and yields no clause, and so does one
    whose only field is the empty category. *)
Lemma falsy_field_emits_no_clause :
  let floor0 := {| category := None; priceMin := None; priceMax := None;
                   rating := Some 0%Q; inStock := None; tags := None |} in
  let empty_category := {| category := Some ""%string; priceMin := None;
                           priceMax := None; rating := None; inStock := None;
                           tags := None |} in
  present_fields floor0 = 1%nat
  /\ filterQueries floor0 = []
  /\ present_fields empty_category = 1%nat
  /\ filterQueries empty_category = [].
Proof. repeat split; reflexivity. Qed.

(** C5, amended: for every filter set whose category, when present, is
    not the empty string and whose rating floor, when present, is not 0,
    the builder emits exactly one clause per present field, k clauses for
    k present fields, in the fixed order: category term, price range
    (gte/lte from the bounds that are present), rating floor range, stock
    term, tags membership; an absent field gives no clause, and the
    filter set with every field absent gives the empty sequence. *)
Theorem one_clause_per_present_field (filters : Filters) :
  category filters <> Some ""%string ->
  (forall r, rating filters = Some r -> ~ (r == 0)%Q) ->
  filterQueries filters = spec_filter_clauses filters
  /\ length (filterQueries filters) = present_fields filters
  /\ filterQueries no_filters = [].
Proof.
  intros Hc Hr.
  assert (E : filterQueries filters = spec_filter_clauses filters).
  { unfold filterQueries, spec_filter_clauses.
    destruct filters as [c pmin pmax r b ts];
      cbn [category priceMin priceMax rating inStock tags] in *.
    destruct c as [c|]; [rewrite (truthy_string_nonempty c) by congruence|];
      (destruct r as [r|];
         [rewrite (truthy_number_nonzero r) by (apply Hr; reflexivity)|]);
      destruct ts as [[|t ts]|]; reflexivity. }
  split; [exact E|]. split; [|reflexivity].
  rewrite E. apply spec_filter_clauses_length.
Qed.

Lemma one_clause_per_present_field_witness :
  let filters := {| category := Some "Electronics"%string;
                    priceMin := Some (0 # 1)%Q; priceMax := None;
                    rating := Some (4 # 1)%Q; inStock := Some false;
                    tags := Some ["sale"%string] |} in
  filterQueries filters
  = [ Term "category" (SString "Electronics");
      Range "price" (Some (0 # 1)%Q) None;
      Range "rating" (Some (4 # 1)%Q) None;
      Term "inStock" (SBool false);
      Terms "tags" ["sale"%string] ]
  /\ length (filterQueries filters) = 5%nat
  /\ filterQueries no_filters = [].
Proof.
  intros filters.
  refine (one_clause_per_present_field filters _ _).
  - discriminate.
  - intros r [= <-]. discriminate.
Defined.

End FilterClauseBuilder.

(** ** The query tree compiler *)

Module QueryTreeCompiler.
Import Search.

(** A filter object without keys has no clause to give. *)
Lemma no_keys_no_clauses (filters : Filters) :
  Object_keys_length filters = 0%nat -> filterQueries filters = [].
Proof.
  unfold Object_keys_length, filterQueries, defined.
  destruct filters as [[c|] [pmin|] [pmax|] [r|] [b|] [ts|]];
    cbn [category priceMin priceMax rating inStock tags]; simpl;
    intros H; try reflexivity; discriminate H.
Qed.

(** C7: the compiled query is the primary match itself when the filter
    clause sequence is empty, and otherwise a boolean node whose sole
    [must] entry is the primary match and whose [filter] entries are all
    the filter clauses; [from] is (page-1)*size and [size] the page size.
    The request for "wireless" in the category "Electronics", page 1 of
    size 10, compiles to the boolean query of the weighted multi-field
    match and the one category term clause, with from=0 and size=10. *)
Theorem boolean_wrapper_iff_filter_clauses :
  (forall body : Body,
      let filters := default no_filters (body_filters body) in
      let primary :=
        primary_query (default "multi_match"%string (body_searchType body))
          (body_query body) in
      query (searchQuery body)
      = match filterQueries filters with
        | [] => primary
        | clause :: clauses => Bool [primary] (clause :: clauses)
        end
      /\ from (searchQuery body)
         = (default 1 (body_page body) - 1) * default 10 (body_size body)
      /\ size (searchQuery body) = default 10 (body_size body))
  /\ searchQuery
       {| body_query := Some "wireless"%string;
          body_filters :=
            Some {| category := Some "Electronics"%string; priceMin := None;
                    priceMax := None; rating := None; inStock := None;
                    tags := None |};
          body_page := Some 1;
          body_size := Some 10;
          body_sort := None;
          body_order := None;
          body_searchType := Some "multi_match"%string |}
     = {| query :=
            Bool [ MultiMatch (Some "wireless"%string)
                     ["name^3"; "description^2"; "category"; "tags"]%string
                     "best_fields" "AUTO" ]
                 [ Term "category" (SString "Electronics") ];
          from := 0;
          size := 10;
          sort := [("createdAt", "desc")]%string |}.
Proof.
  split; [|reflexivity].
  intros body filters primary. split; [|split; reflexivity].
  unfold searchQuery. cbn [query]. fold filters. fold primary.
  destruct (Object_keys_length filters) as [|k] eqn:Hk.
  - rewrite (no_keys_no_clauses filters Hk). reflexivity.
  - cbn [Nat.ltb Nat.leb]. destruct (filterQueries filters); reflexivity.
Qed.

End QueryTreeCompiler.

(** ** The benchmark harness *)

Module BenchmarkHarness.
Import Performance.

(** *** The comparator [(a, b) => a - b] orders numbers ascending *)

Abbreviation ascending := (sorts_before (fun a b : Z => a - b)).

Lemma ascending_le (a b : Z) : ascending a b <-> a <= b.
Proof. unfold sorts_before. lia. Qed.

#[local] Instance ascending_total : Total ascending.
Proof. intros a b. unfold sorts_before. lia. Qed.

#[local] Instance ascending_trans : Transitive ascending.
Proof. intros a b c. unfold sorts_before. lia. Qed.

#[local] Instance ascending_antisymm : AntiSymm (=) ascending.
Proof. intros a b. unfold sorts_before. lia. Qed.

Lemma Sorted_ascending_le (l : list Z) : Sorted ascending l -> Sorted Z.le l.
Proof.
  induction 1 as [|a l Hs IH Hd]; constructor; [exact IH|].
  destruct Hd; constructor. apply ascending_le. assumption.
Qed.

Lemma sort_Sorted (l : list Z) : Sorted Z.le (merge_sort ascending l).
Proof. apply Sorted_ascending_le, Sorted_merge_sort. apply _. Qed.

Lemma sort_Permutation (l : list Z) : merge_sort ascending l ≡ₚ l.
Proof. apply merge_sort_Permutation. Qed.

Lemma sort_length (l : list Z) : length (merge_sort ascending l) = length l.
Proof. apply Permutation_length, sort_Permutation. Qed.

(** Sorting forgets the order of the input. *)
Lemma sort_permutation_invariant (l l' : list Z) :
  l ≡ₚ l' -> merge_sort ascending l = merge_sort ascending l'.
Proof.
  intros Hp. apply (Sorted_unique ascending).
  - apply Sorted_merge_sort. apply _.
  - apply Sorted_merge_sort. apply _.
  - rewrite !sort_Permutation. exact Hp.
Qed.

(** *** The rank of a percentile *)

(** [Math.ceil((p / 100) * n)] is the least integer [k] with
    [100 k >= p n]. *)
Lemma percentile_index_rank (p : Z) (n : nat) :
  100 * percentile_index p n < p * Z.of_nat n <= 100 * (percentile_index p n + 1).
Proof.
  unfold percentile_index.
  set (x := ((inject_Z p / inject_Z 100) * inject_Z (Z.of_nat n))%Q).
  assert (Ex : (x == (p * Z.of_nat n) # 100)%Q).
  { unfold x, Qeq, Qdiv, Qmult, Qinv, inject_Z. simpl. lia. }
  assert (Hle : ((p * Z.of_nat n) # 100 <= inject_Z (Qceiling x))%Q)
    by (rewrite <- Ex; apply Qle_ceiling).
  assert (Hlt : (inject_Z (Qceiling x - 1) < (p * Z.of_nat n) # 100)%Q)
    by (rewrite <- Ex; apply Qceiling_lt).
  unfold Qle, Qlt, inject_Z in Hle, Hlt. simpl in Hle, Hlt. lia.
Qed.

Lemma percentile_index_in_range (p : Z) (n : nat) :
  0 < p <= 100 -> (0 < n)%nat ->
  0 <= percentile_index p n < Z.of_nat n.
Proof.
  intros Hp Hn. pose proof (percentile_index_rank p n). nia.
Qed.

(** *** [calculatePercentile] on the store *)

Lemma fresh_lookup_None (h : heap) : h !! fresh (dom h) = None.
Proof. apply not_elem_of_dom, is_fresh. Qed.

(** What was in the store stays when a fresh array is added. *)
Lemma insert_fresh_frame (h : heap) (elements x : list Z) (a : loc) :
  h !! a = Some x -> <[fresh (dom h) := elements]> h !! a = Some x.
Proof.
  intros Ha. rewrite lookup_insert_ne; [exact Ha|].
  intros E. rewrite <- E, fresh_lookup_None in Ha. discriminate.
Qed.

(** One call: the value is the percentile of the elements, and the only
    change of the store is the sorted copy at a fresh location. *)
Lemma calculatePercentile_run (h : heap) (arr : loc) (l : list Z) (p : Z) :
  h !! arr = Some l ->
  calculatePercentile arr p h
  = (percentile_of l p, <[fresh (dom h) := merge_sort ascending l]> h).
Proof.
  intros Harr.
  unfold calculatePercentile, array_slice, array_elements, array_new,
    array_sort, bind, ret.
  rewrite Harr. cbn [default].
  rewrite alter_insert_eq, lookup_insert_eq. cbn [default].
  reflexivity.
Qed.

Lemma preserved_refl (h : heap) : preserved h h.
Proof. intros a x H. exact H. Qed.

Lemma preserved_trans (h1 h2 h3 : heap) :
  preserved h1 h2 -> preserved h2 h3 -> preserved h1 h3.
Proof. intros H12 H23 a x H. apply H23, H12, H. Qed.

Lemma preserved_insert_fresh (h : heap) (elements : list Z) :
  preserved h (<[fresh (dom h) := elements]> h).
Proof. intros a x H. apply insert_fresh_frame, H. Qed.

Lemma calculatePercentile_preserved (h : heap) (arr : loc) (l : list Z) (p : Z) :
  h !! arr = Some l -> preserved h (calculatePercentile arr p h).2.
Proof.
  intros Harr. rewrite (calculatePercentile_run h arr l p Harr).
  apply preserved_insert_fresh.
Qed.

(** Successive calls on one array: each value is the percentile of the
    elements the array had at the start. *)
Lemma percentiles_run (ps : list Z) : forall (h : heap) (arr : loc) (l : list Z),
  h !! arr = Some l ->
  (percentiles arr ps h).1 = map (percentile_of l) ps
  /\ preserved h (percentiles arr ps h).2.
Proof.
  induction ps as [|p ps IH]; intros h arr l Harr.
  - split; [reflexivity|apply preserved_refl].
  - cbn [percentiles]. unfold bind, ret.
    rewrite (calculatePercentile_run h arr l p Harr).
    set (h1 := <[fresh (dom h) := merge_sort ascending l]> h).
    assert (Harr1 : h1 !! arr = Some l) by (apply insert_fresh_frame, Harr).
    destruct (IH h1 arr l Harr1) as [Hv Hp].
    destruct (percentiles arr ps h1) as [vs h2]. cbn [fst snd] in *.
    split; [rewrite Hv; reflexivity|].
    eapply preserved_trans; [apply preserved_insert_fresh|exact Hp].
Qed.

(** The statistics object over an array with the elements [l]. *)
Lemma statistics_over_run (h : heap) (arr : loc) (l : list Z) (k : Z) :
  h !! arr = Some l ->
  (statistics_over arr k h).1
  = {| totalQueries := Z.of_nat (length l);
       successfulQueries := k;
       failedQueries := Z.of_nat (length l) - k;
       successRate := mul (div (of_Z k) (of_Z (Z.of_nat (length l)))) (of_Z 100);
       averageDuration := div (of_Z (fold_left Z.add l 0)) (of_Z (Z.of_nat (length l)));
       minDuration := Math_min l;
       maxDuration := Math_max l;
       p50Duration := percentile_of l 50;
       p90Duration := percentile_of l 90;
       p95Duration := percentile_of l 95;
       p99Duration := percentile_of l 99 |}
  /\ preserved h (statistics_over arr k h).2.
Proof.
  intros Harr.
  pose proof (percentiles_run [50; 90; 95; 99] h arr l Harr) as [Hv Hp].
  revert Hv Hp.
  unfold statistics_over, array_elements. cbn [percentiles].
  unfold bind, ret. rewrite Harr. cbn [default].
  destruct (calculatePercentile arr 50 h) as [p50 h1].
  destruct (calculatePercentile arr 90 h1) as [p90 h2].
  destruct (calculatePercentile arr 95 h2) as [p95 h3].
  destruct (calculatePercentile arr 99 h3) as [p99 h4].
  cbn [fst snd map]. intros [= -> -> -> ->] Hp.
  split; [reflexivity|exact Hp].
Qed.

Lemma statistics_run {Query : Type} (results : list (IterationResult Query)) (h : heap) :
  (statistics results h).1
  = (statistics_over (fresh (dom h))
       (Z.of_nat (length (successful results)))
       (<[fresh (dom h) := allDurations results]> h)).1
  /\ preserved h (statistics results h).2
  /\ (statistics results h).2 !! fresh (dom h) = Some (allDurations results).
Proof.
  unfold statistics, array_new, bind.
  set (a := fresh (dom h)). set (h1 := <[a := allDurations results]> h).
  assert (Ha : h1 !! a = Some (allDurations results)) by apply lookup_insert_eq.
  destruct (statistics_over_run h1 a _ (Z.of_nat (length (successful results))) Ha)
    as [_ Hp].
  split; [reflexivity|]. split.
  - eapply preserved_trans; [apply preserved_insert_fresh|exact Hp].
  - apply Hp, Ha.
Qed.

(** C6: for a non-empty array of n durations and each percentile p of
    50, 90, 95, 99 (and 100), [calculatePercentile] returns the element
    at the 0-based index k = ceil(p/100 * n) - 1 of the durations sorted
    ascending: k is the index with 100 k < p n <= 100 (k + 1), it lies
    inside the array for every n >= 1 (n = 1 and p = 100 are not special
    cases), and the value is one of the durations, never an
    interpolation between two of them. *)
Theorem percentile_is_nearest_rank (h : heap) (arr : loc) (l : list Z) (p : Z) :
  h !! arr = Some l ->
  l <> [] ->
  p ∈ [50; 90; 95; 99; 100] ->
  exists (sorted : list Z) (k : nat) (v : Z),
    Sorted Z.le sorted
    /\ sorted ≡ₚ l
    /\ 100 * Z.of_nat k < p * Z.of_nat (length l) <= 100 * (Z.of_nat k + 1)
    /\ (k < length l)%nat
    /\ sorted !! k = Some v
    /\ (calculatePercentile arr p h).1 = Some v
    /\ v ∈ l.
Proof.
  intros Harr Hne Hin.
  assert (Hp : 0 < p <= 100).
  { repeat (apply elem_of_cons in Hin as [->|Hin]; [lia|]).
    apply elem_of_nil in Hin. contradiction. }
  assert (Hn : (0 < length l)%nat) by (destruct l; [contradiction|simpl; lia]).
  pose proof (percentile_index_rank p (length l)) as Hrank.
  pose proof (percentile_index_in_range p (length l) Hp Hn) as Hrange.
  set (sorted := merge_sort ascending l).
  set (k := Z.to_nat (percentile_index p (length l))).
  assert (Hk : (k < length sorted)%nat) by (unfold sorted; rewrite sort_length; lia).
  destruct (lookup_lt_is_Some_2 sorted k Hk) as [v Hv].
  exists sorted, k, v.
  split; [apply sort_Sorted|]. split; [apply sort_Permutation|].
  split; [unfold k; lia|]. split; [unfold sorted in Hk; rewrite sort_length in Hk; exact Hk|].
  split; [exact Hv|]. split.
  - rewrite (calculatePercentile_run h arr l p Harr). cbn [fst].
    unfold percentile_of. fold sorted. unfold sorted at 2. rewrite sort_length.
    unfold array_get. destruct (Z.ltb_spec (percentile_index p (length l)) 0); [lia|].
    exact Hv.
  - rewrite <- (sort_Permutation l). fold sorted.
    apply list_elem_of_lookup. exists k. exact Hv.
Qed.

Lemma percentile_is_nearest_rank_witness :
  exists (sorted : list Z) (k : nat) (v : Z),
    Sorted Z.le sorted
    /\ sorted ≡ₚ [30; 10; 20]
    /\ 100 * Z.of_nat k < 50 * Z.of_nat (length [30; 10; 20]) <= 100 * (Z.of_nat k + 1)
    /\ (k < length [30; 10; 20])%nat
    /\ sorted !! k = Some v
    /\ (calculatePercentile 1%positive 50 {[ 1%positive := [30; 10; 20] ]}).1 = Some v
    /\ v ∈ [30; 10; 20].
Proof.
  apply (percentile_is_nearest_rank {[ 1%positive := [30; 10; 20] ]} 1%positive
           [30; 10; 20] 50).
  - reflexivity.
  - discriminate.
  - left.
Defined.

(** C10: [calculatePercentile] sorts a copy.  After any sequence of
    percentile computations on an array, that array, and every other
    array of the store, has its elements in their original order, and
    each value of the sequence is the value a single call on the initial
    store returns.  In the handler, the array [allDurations] still lists
    the durations in the order of the calls after the statistics are
    computed, each of the four percentiles is the percentile of that
    original list, and the answer of the route carries the run's entries
    as the loop produced them. *)
Theorem calculatePercentile_does_not_mutate :
  (forall (h : heap) (arr : loc) (l : list Z) (ps : list Z),
      h !! arr = Some l ->
      (percentiles arr ps h).2 !! arr = Some l
      /\ preserved h (percentiles arr ps h).2
      /\ (percentiles arr ps h).1 = map (fun p => (calculatePercentile arr p h).1) ps)
  /\ (forall (Query : Type) (results : list (IterationResult Query)) (h : heap),
      load_test_results (respond results h).1 = results
      /\ preserved h (respond results h).2
      /\ (respond results h).2 !! fresh (dom h) = Some (allDurations results)
      /\ p50Duration (load_test_statistics (respond results h).1)
         = percentile_of (allDurations results) 50
      /\ p90Duration (load_test_statistics (respond results h).1)
         = percentile_of (allDurations results) 90
      /\ p95Duration (load_test_statistics (respond results h).1)
         = percentile_of (allDurations results) 95
      /\ p99Duration (load_test_statistics (respond results h).1)
         = percentile_of (allDurations results) 99)
  /\ (forall (Query Id : Type) (query_id : Query -> Id) (now : nat -> Z)
        (search indexDocument : nat -> Query -> Outcome)
        (getDocument : nat -> Id -> Outcome) (null_hits_message testType : string)
        (q : Query) (qs : list Query) (iterations : nat) (u : Usage) (h : heap),
      exists (body : LoadTestResults) (u' : Usage) (h' : heap),
        load_test_route query_id now search indexDocument getDocument
          null_hits_message testType (q :: qs) iterations u h
        = (Json body, u', h')
        /\ load_test_results body
           = (run_load_test query_id now search indexDocument getDocument
                null_hits_message testType (q :: qs) iterations u).1
        /\ preserved h h').
Proof.
  assert (Hrespond : forall (Query : Type) (results : list (IterationResult Query))
                       (h : heap),
             load_test_results (respond results h).1 = results
             /\ preserved h (respond results h).2
             /\ (respond results h).2 !! fresh (dom h) = Some (allDurations results)
             /\ p50Duration (load_test_statistics (respond results h).1)
                = percentile_of (allDurations results) 50
             /\ p90Duration (load_test_statistics (respond results h).1)
                = percentile_of (allDurations results) 90
             /\ p95Duration (load_test_statistics (respond results h).1)
                = percentile_of (allDurations results) 95
             /\ p99Duration (load_test_statistics (respond results h).1)
                = percentile_of (allDurations results) 99).
  { intros Query results h.
    destruct (statistics_run results h) as (Hs & Hp & Ha).
    assert (Harr : <[fresh (dom h) := allDurations results]> h !! fresh (dom h)
                   = Some (allDurations results)) by apply lookup_insert_eq.
    destruct (statistics_over_run _ _ _ (Z.of_nat (length (successful results))) Harr)
      as [Hso _].
    rewrite Hso in Hs. clear Hso.
    unfold respond, bind, ret.
    destruct (statistics results h) as [stats h']. cbn [fst snd] in *.
    subst stats. cbn. repeat split; assumption. }
  split; [|split; [exact Hrespond|]].
  - intros h arr l ps Harr.
    destruct (percentiles_run ps h arr l Harr) as [Hv Hp].
    split; [apply Hp, Harr|]. split; [exact Hp|].
    rewrite Hv. apply map_ext. intros p.
    rewrite (calculatePercentile_run h arr l p Harr). reflexivity.
  - intros Query Id query_id now search indexDocument getDocument
      null_hits_message testType q qs iterations u h.
    unfold load_test_route.
    destruct (run_load_test query_id now search indexDocument getDocument
                null_hits_message testType (q :: qs) iterations u)
      as [results u'].
    destruct (Hrespond Query results h) as (Hres & Hp & _).
    destruct (respond results h) as [body h']. cbn [fst snd] in *.
    exists body, u', h'. auto.
Qed.

Lemma calculatePercentile_does_not_mutate_witness :
  let h : heap := {[ 1%positive := [30; 10; 20] ]} in
  (percentiles 1%positive [50; 90; 95; 99] h).2 !! 1%positive = Some [30; 10; 20]
  /\ preserved h (percentiles 1%positive [50; 90; 95; 99] h).2
  /\ (percentiles 1%positive [50; 90; 95; 99] h).1
     = map (fun p => (calculatePercentile 1%positive p h).1) [50; 90; 95; 99].
Proof.
  intros h.
  apply (proj1 calculatePercentile_does_not_mutate h 1%positive [30; 10; 20]).
  reflexivity.
Defined.

(** *** Statistics do not depend on the order of the durations *)

Lemma fold_left_permutation (f : Z -> Z -> Z) (l l' : list Z) :
  (forall a x y, f (f a x) y = f (f a y) x) ->
  l ≡ₚ l' -> forall a, fold_left f l a = fold_left f l' a.
Proof.
  intros Hf Hp. induction Hp as [|x l l' _ IH|x y l|l1 l2 l3 _ IH1 _ IH2]; intros a.
  - reflexivity.
  - simpl. apply IH.
  - simpl. rewrite Hf. reflexivity.
  - rewrite IH1. apply IH2.
Qed.

Lemma Math_min_permutation (l l' : list Z) : l ≡ₚ l' -> Math_min l = Math_min l'.
Proof.
  assert (Hf : forall a x y, Z.min (Z.min a x) y = Z.min (Z.min a y) x) by lia.
  induction 1 as [|x l l' Hp _|x y l|l1 l2 l3 _ IH1 _ IH2].
  - reflexivity.
  - simpl. f_equal. apply fold_left_permutation; assumption.
  - simpl. do 2 f_equal. apply Z.min_comm.
  - congruence.
Qed.

Lemma Math_max_permutation (l l' : list Z) : l ≡ₚ l' -> Math_max l = Math_max l'.
Proof.
  assert (Hf : forall a x y, Z.max (Z.max a x) y = Z.max (Z.max a y) x) by lia.
  induction 1 as [|x l l' Hp _|x y l|l1 l2 l3 _ IH1 _ IH2].
  - reflexivity.
  - simpl. f_equal. apply fold_left_permutation; assumption.
  - simpl. do 2 f_equal. apply Z.max_comm.
  - congruence.
Qed.

Lemma percentile_of_permutation (l l' : list Z) (p : Z) :
  l ≡ₚ l' -> percentile_of l p = percentile_of l' p.
Proof.
  intros Hp. unfold percentile_of. rewrite (sort_permutation_invariant l l' Hp).
  reflexivity.
Qed.

(** C9: the statistics computed over an array of durations and over any
    permutation of it are identical in every field; so shuffling the
    entries of a run before computing its statistics changes nothing. *)
Theorem statistics_permutation_invariant :
  (forall (h h' : heap) (arr arr' : loc) (l l' : list Z) (k : Z),
      h !! arr = Some l ->
      h' !! arr' = Some l' ->
      l ≡ₚ l' ->
      (statistics_over arr k h).1 = (statistics_over arr' k h').1)
  /\ (forall (Query : Type) (results results' : list (IterationResult Query))
        (h h' : heap),
      all_queries results ≡ₚ all_queries results' ->
      (statistics results h).1 = (statistics results' h').1).
Proof.
  assert (Hover : forall (h h' : heap) (arr arr' : loc) (l l' : list Z) (k : Z),
      h !! arr = Some l -> h' !! arr' = Some l' -> l ≡ₚ l' ->
      (statistics_over arr k h).1 = (statistics_over arr' k h').1).
  { intros h h' arr arr' l l' k Harr Harr' Hp.
    rewrite (proj1 (statistics_over_run h arr l k Harr)).
    rewrite (proj1 (statistics_over_run h' arr' l' k Harr')).
    rewrite (Permutation_length Hp).
    rewrite (fold_left_permutation Z.add l l') by (intros; lia || assumption).
    rewrite (Math_min_permutation l l' Hp), (Math_max_permutation l l' Hp).
    rewrite !(percentile_of_permutation l l' _ Hp).
    reflexivity. }
  split; [exact Hover|].
  intros Query results results' h h' Hp.
  rewrite (proj1 (statistics_run results h)), (proj1 (statistics_run results' h')).
  assert (Hs : length (successful results) = length (successful results')).
  { unfold successful. apply Permutation_length. rewrite Hp. reflexivity. }
  rewrite Hs.
  apply (Hover _ _ _ _ (allDurations results) (allDurations results')).
  - apply lookup_insert_eq.
  - apply lookup_insert_eq.
  - unfold allDurations. apply Permutation_map. exact Hp.
Qed.

Lemma statistics_permutation_invariant_witness :
  (statistics_over 1%positive 2 {[ 1%positive := [30; 10; 20] ]}).1
  = (statistics_over 2%positive 2 {[ 2%positive := [10; 20; 30] ]}).1.
Proof.
  apply (proj1 statistics_permutation_invariant
           {[ 1%positive := [30; 10; 20] ]} {[ 2%positive := [10; 20; 30] ]}
           1%positive 2%positive [30; 10; 20] [10; 20; 30] 2).
  - reflexivity.
  - reflexivity.
  - change [30; 10; 20] with ([30] ++ [10; 20]).
    change [10; 20; 30] with ([10; 20] ++ [30]).
    apply Permutation_app_comm.
Defined.

(** *** The loop of the load test *)

Section run.

Context {Query Id : Type}.
Variable query_id : Query -> Id.
Variable now : nat -> Z.
Variable search : nat -> Query -> Outcome.
Variable indexDocument : nat -> Query -> Outcome.
Variable getDocument : nat -> Id -> Outcome.
Variable null_hits_message : string.

Abbreviation outcome_of :=
  (service_outcome query_id search indexDocument getDocument).
Abbreviation one_query :=
  (run_query query_id now search indexDocument getDocument null_hits_message).
Abbreviation all_queries_of_iteration :=
  (run_queries query_id now search indexDocument getDocument null_hits_message).
Abbreviation iterations_from :=
  (run_iterations query_id now search indexDocument getDocument null_hits_message).
Abbreviation load_test :=
  (run_load_test query_id now search indexDocument getDocument null_hits_message).

(** One timed call: it uses the service once, and its entry is decided by
    the outcome of that call and by the clock. *)
Lemma run_query_calls (testType : string) (q : Query) (u : Usage) :
  calls (one_query testType q u).2 = S (calls u)
  /\ (ticks u <= ticks (one_query testType q u).2)%nat.
Proof.
  unfold run_query, bind, ret, Date_now, call_service. cbn.
  destruct (outcome_of testType q (calls u)) as [[r|]|m]; cbn; lia.
Qed.

Lemma run_query_entry (testType : string) (q : Query) (t k : nat) :
  let entry := (one_query testType q {| ticks := t; calls := k |}).1 in
  query entry = q
  /\ (forall message, outcome_of testType q k = Rejected message ->
        entry = failure q (now (S t) - now t) message)
  /\ (outcome_of testType q k = Resolved None ->
        entry = failure q (now (S (S t)) - now t) null_hits_message)
  /\ (forall r, outcome_of testType q k = Resolved (Some r) ->
        entry = {| query := q; success := true; duration := now (S t) - now t;
                   responseSize := Some (response_json_length r);
                   hits := Some (default 0 (response_hits_total_value r));
                   took := Some (default 0 (response_took r));
                   error := None |}).
Proof.
  unfold run_query, bind, ret, Date_now, call_service. cbn.
  destruct (outcome_of testType q k) as [[r|]|m]; cbn;
    repeat split; try discriminate; try (intros; congruence).
Qed.

Lemma usage_eta (u : Usage) : {| ticks := ticks u; calls := calls u + 0 |} = u.
Proof. destruct u. cbn. f_equal. lia. Qed.

(** The inner loop appends one entry per query, in the order of the
    queries; the j-th is the entry of the call number [calls u + j]. *)
Lemma run_queries_spec (testType : string) (qs : list Query) :
  forall (acc : list (QueryResult Query)) (u : Usage),
  exists entries : list (QueryResult Query),
    (all_queries_of_iteration testType qs acc u).1 = acc ++ entries
    /\ length entries = length qs
    /\ calls (all_queries_of_iteration testType qs acc u).2 = (calls u + length qs)%nat
    /\ (ticks u <= ticks (all_queries_of_iteration testType qs acc u).2)%nat
    /\ (forall (j : nat) (q : Query), qs !! j = Some q ->
          exists t : nat,
            entries !! j
            = Some (one_query testType q {| ticks := t; calls := calls u + j |}).1).
Proof.
  induction qs as [|q rest IH]; intros acc u.
  - exists []. cbn. rewrite app_nil_r. repeat split; try lia.
    intros j q' Hj. discriminate Hj.
  - cbn [run_queries]. unfold bind.
    pose proof (run_query_calls testType q u) as [Hc Ht].
    destruct (one_query testType q u) as [entry u1] eqn:E. cbn [fst snd] in Hc, Ht.
    destruct (IH (acc ++ [entry]) u1) as (entries & Hres & Hlen & Hcalls & Hticks & Hj).
    exists (entry :: entries). rewrite Hres, Hcalls, Hc.
    split; [rewrite <- app_assoc; reflexivity|].
    split; [cbn; lia|]. split; [cbn; lia|]. split; [lia|].
    intros [|j] q' Hq; cbn in Hq.
    + injection Hq as <-. exists (ticks u). rewrite usage_eta, E. reflexivity.
    + destruct (Hj j q' Hq) as [t Hentry]. exists t.
      change ((entry :: entries) !! S j) with (entries !! j).
      rewrite Hentry, Hc. do 3 f_equal. f_equal. lia.
Qed.

(** The outer loop appends one iteration per turn, numbered from [i + 1]
    on, each with one entry per query; every turn runs all the queries. *)
Lemma run_iterations_spec (testType : string) (qs : list Query) (n : nat) :
  forall (i : Z) (acc : list (IterationResult Query)) (u : Usage),
  exists its : list (IterationResult Query),
    (iterations_from testType qs n i acc u).1 = acc ++ its
    /\ length its = n
    /\ calls (iterations_from testType qs n i acc u).2 = (calls u + n * length qs)%nat
    /\ (forall k : nat, (k < n)%nat ->
          exists it : IterationResult Query,
            its !! k = Some it
            /\ iteration it = i + Z.of_nat k + 1
            /\ length (queries it) = length qs
            /\ (forall (j : nat) (q : Query), qs !! j = Some q ->
                  exists t : nat,
                    queries it !! j
                    = Some (one_query testType q
                              {| ticks := t;
                                 calls := calls u + k * length qs + j |}).1)).
Proof.
  induction n as [|n IH]; intros i acc u.
  - exists []. cbn. rewrite app_nil_r. repeat split; try lia.
  - cbn [run_iterations]. unfold bind.
    destruct (run_queries_spec testType qs [] u)
      as (entries & Hres & Hlen & Hcalls & _ & Hj).
    destruct (all_queries_of_iteration testType qs [] u) as [iterationResults u1].
    cbn [fst snd app] in Hres, Hcalls. subst iterationResults.
    destruct (IH (i + 1) (acc ++ [ {| iteration := i + 1; queries := entries |} ]) u1)
      as (its & Hits & Hlenits & Hcallsits & Hk).
    exists ({| iteration := i + 1; queries := entries |} :: its).
    rewrite Hits, Hcallsits, Hcalls.
    split; [rewrite <- app_assoc; reflexivity|].
    split; [cbn; lia|]. split; [cbn; lia|].
    intros [|k] Hlt.
    + eexists. split; [reflexivity|]. cbn [iteration queries].
      split; [lia|]. split; [exact Hlen|].
      intros j q Hq. destruct (Hj j q Hq) as [t Ht]. exists t.
      rewrite Ht. do 3 f_equal. f_equal. lia.
    + destruct (Hk k ltac:(lia)) as (it & Hit & Hnum & Hlenq & Hentries).
      exists it. split; [exact Hit|].
      split; [lia|]. split; [exact Hlenq|].
      intros j q Hq. destruct (Hentries j q Hq) as [t Ht]. exists t.
      rewrite Ht, Hcalls. do 3 f_equal. f_equal. lia.
Qed.

(** When no call gives a response, every entry of the run is a failure,
    and there is one entry per query and iteration. *)
Lemma failing_service_entries
    (testType : string) (qs : list Query) (iterations : nat) (u : Usage) :
  (forall k q r, outcome_of testType q k <> Resolved (Some r)) ->
  (forall entry, entry ∈ all_queries (load_test testType qs iterations u).1 ->
                 success entry = false)
  /\ length (all_queries (load_test testType qs iterations u).1)
     = (iterations * length qs)%nat.
Proof.
  intros Hfail. unfold run_load_test.
  destruct (run_iterations_spec testType qs iterations 0 [] u)
    as (its & Hres & Hlen & _ & Hk).
  cbn [app] in Hres. rewrite Hres. clear Hres. split.
  - intros entry Hin. unfold all_queries in Hin.
    apply list_elem_of_In, in_flat_map in Hin as (it & Hit & Hentry).
    apply list_elem_of_In, list_elem_of_lookup in Hit as [i Hi].
    apply list_elem_of_In, list_elem_of_lookup in Hentry as [j Hj].
    assert (Hlt : (i < iterations)%nat)
      by (rewrite <- Hlen; eapply lookup_lt_Some; eauto).
    destruct (Hk i Hlt) as (it' & Hit' & _ & Hlenq & Hentries).
    rewrite Hi in Hit'. injection Hit' as <-.
    assert (Hjlt : (j < length qs)%nat)
      by (rewrite <- Hlenq; eapply lookup_lt_Some; eauto).
    destruct (lookup_lt_is_Some_2 qs j Hjlt) as [q Hq].
    destruct (Hentries j q Hq) as [t Ht]. rewrite Hj in Ht. injection Ht as ->.
    pose proof (run_query_entry testType q t (calls u + i * length qs + j))
      as (_ & Hrej & Hnull & _).
    destruct (outcome_of testType q (calls u + i * length qs + j))
      as [[r|]|m] eqn:E.
    + exfalso. exact (Hfail _ _ _ E).
    + rewrite (Hnull eq_refl). reflexivity.
    + rewrite (Hrej m eq_refl). reflexivity.
  - assert (Hall : forall it, it ∈ its -> length (queries it) = length qs).
    { intros it Hit. apply list_elem_of_lookup in Hit as [i Hi].
      assert (Hlt : (i < iterations)%nat)
        by (rewrite <- Hlen; eapply lookup_lt_Some; eauto).
      destruct (Hk i Hlt) as (it' & Hit' & _ & Hlenq & _).
      rewrite Hi in Hit'. injection Hit' as <-. exact Hlenq. }
    rewrite <- Hlen. clear Hlen Hk. unfold all_queries.
    induction its as [|it its IH]; [reflexivity|].
    cbn [flat_map length]. rewrite length_app, IH.
    + rewrite (Hall it); [lia|]. left.
    + intros it' Hit'. apply Hall. right. exact Hit'.
Qed.

End run.

(** *** The loop of the load test on one time line *)

Section time_line.

Context {Query Id : Type}.
Variable query_id : Query -> Id.
Variable clock : nat -> Z.
Variable search : nat -> Query -> Outcome.
Variable indexDocument : nat -> Query -> Outcome.
Variable getDocument : nat -> Id -> Outcome.
Variable null_hits_message : string.

Abbreviation outcome_at :=
  (service_outcome query_id search indexDocument getDocument).
Abbreviation timed_call :=
  (LoadTest.run_query query_id clock search indexDocument getDocument
     null_hits_message).
Abbreviation timed_calls :=
  (LoadTest.run_queries query_id clock search indexDocument getDocument
     null_hits_message).
Abbreviation timed_iterations :=
  (LoadTest.run_iterations query_id clock search indexDocument getDocument
     null_hits_message).
Abbreviation interactions_after :=
  (LoadTest.after query_id search indexDocument getDocument).

(** One timed call begun at interaction [n]: the call itself is
    interaction [n + 1], its outcome decides the entry, and the duration
    runs from the reading at [n] to the last reading. *)
Lemma timed_call_entry (testType : string) (q : Query) (n : nat) :
  (timed_call testType q n).2
  = (n + LoadTest.interactions_of (outcome_at testType q (S n)))%nat
  /\ query (timed_call testType q n).1 = q
  /\ (forall message, outcome_at testType q (S n) = Rejected message ->
        (timed_call testType q n).1
        = failure q (clock (n + 2) - clock n) message)
  /\ (outcome_at testType q (S n) = Resolved None ->
        (timed_call testType q n).1
        = failure q (clock (n + 3) - clock n) null_hits_message)
  /\ (forall r, outcome_at testType q (S n) = Resolved (Some r) ->
        (timed_call testType q n).1
        = {| query := q; success := true; duration := clock (n + 2) - clock n;
             responseSize := Some (response_json_length r);
             hits := Some (default 0 (response_hits_total_value r));
             took := Some (default 0 (response_took r));
             error := None |}).
Proof.
  unfold LoadTest.run_query, bind, ret, LoadTest.Date_now, LoadTest.call_service.
  cbn [fst snd].
  replace (n + 2)%nat with (S (S n)) by lia.
  replace (n + 3)%nat with (S (S (S n))) by lia.
  destruct (outcome_at testType q (S n)) as [[r|]|m]; cbn [fst snd LoadTest.interactions_of];
    (split; [lia|]); repeat split; try discriminate; intros; congruence.
Qed.

Lemma interactions_after_app (testType : string) (qs qs' : list Query) :
  forall n : nat,
    interactions_after testType (qs ++ qs') n
    = interactions_after testType qs' (interactions_after testType qs n).
Proof.
  induction qs as [|q qs IH]; intros n; [reflexivity|].
  cbn [app LoadTest.after]. apply IH.
Qed.

(** The inner loop: one entry per query in the order of the queries, the
    j-th being the entry of the timed call that begins when the j
    earlier ones are over. *)
Lemma timed_calls_spec (testType : string) (qs : list Query) :
  forall (acc : list (QueryResult Query)) (n : nat),
  exists entries : list (QueryResult Query),
    (timed_calls testType qs acc n).1 = acc ++ entries
    /\ length entries = length qs
    /\ (timed_calls testType qs acc n).2 = interactions_after testType qs n
    /\ (forall (j : nat) (q : Query), qs !! j = Some q ->
          entries !! j
          = Some (timed_call testType q
                    (interactions_after testType (take j qs) n)).1).
Proof.
  induction qs as [|q rest IH]; intros acc n.
  - exists []. cbn. rewrite app_nil_r. repeat split.
    intros j q' Hj. discriminate Hj.
  - cbn [LoadTest.run_queries LoadTest.after]. unfold bind.
    pose proof (timed_call_entry testType q n) as [Hn _].
    destruct (timed_call testType q n) as [entry n1] eqn:E. cbn [fst snd] in Hn.
    subst n1.
    destruct (IH (acc ++ [entry])
                (n + LoadTest.interactions_of (outcome_at testType q (S n)))%nat)
      as (entries & Hres & Hlen & Hn' & Hj).
    exists (entry :: entries). rewrite Hres, Hn'.
    split; [rewrite <- app_assoc; reflexivity|].
    split; [cbn; lia|]. split; [reflexivity|].
    intros [|j] q' Hq; cbn in Hq.
    + injection Hq as <-. cbn [take LoadTest.after]. rewrite E. reflexivity.
    + change ((entry :: entries) !! S j) with (entries !! j).
      rewrite (Hj j q' Hq). reflexivity.
Qed.

(** The outer loop: one result per turn, numbered from [i + 1] on, the
    turn [k] beginning when the calls of the [k] earlier turns are
    over. *)
Lemma timed_iterations_spec (testType : string) (qs : list Query) (turns : nat) :
  forall (i : Z) (acc : list (IterationResult Query)) (n : nat),
  exists its : list (IterationResult Query),
    (timed_iterations testType qs turns i acc n).1 = acc ++ its
    /\ length its = turns
    /\ (timed_iterations testType qs turns i acc n).2
       = interactions_after testType (concat (replicate turns qs)) n
    /\ (forall k : nat, (k < turns)%nat ->
          exists it : IterationResult Query,
            its !! k = Some it
            /\ iteration it = i + Z.of_nat k + 1
            /\ length (queries it) = length qs
            /\ (forall (j : nat) (q : Query), qs !! j = Some q ->
                  queries it !! j
                  = Some (timed_call testType q
                            (interactions_after testType
                               (concat (replicate k qs) ++ take j qs) n)).1)).
Proof.
  induction turns as [|turns IH]; intros i acc n.
  - exists []. cbn. rewrite app_nil_r. repeat split. lia.
  - cbn [LoadTest.run_iterations]. unfold bind.
    destruct (timed_calls_spec testType qs [] n) as (entries & Hres & Hlen & Hn & Hj).
    destruct (timed_calls testType qs [] n) as [iterationResults n1].
    cbn [fst snd app] in Hres, Hn. subst iterationResults n1.
    destruct (IH (i + 1) (acc ++ [ {| iteration := i + 1; queries := entries |} ])
                (interactions_after testType qs n))
      as (its & Hits & Hlenits & Hnits & Hk).
    exists ({| iteration := i + 1; queries := entries |} :: its).
    rewrite Hits, Hnits.
    split; [rewrite <- app_assoc; reflexivity|].
    split; [cbn; lia|].
    split; [cbn [replicate concat]; rewrite interactions_after_app; reflexivity|].
    intros [|k] Hlt.
    + eexists. split; [reflexivity|]. cbn [iteration queries].
      split; [lia|]. split; [exact Hlen|].
      intros j q Hq. cbn [replicate concat app]. exact (Hj j q Hq).
    + destruct (Hk k ltac:(lia)) as (it & Hit & Hnum & Hlenq & Hentries).
      exists it. split; [exact Hit|].
      split; [lia|]. split; [exact Hlenq|].
      intros j q Hq. rewrite (Hentries j q Hq).
      cbn [replicate concat].
      rewrite <- app_assoc, (interactions_after_app testType qs). reflexivity.
Qed.

(** When no answer is [null], every timed call is three interactions. *)
Lemma interactions_after_three (testType : string) (qs : list Query) :
  (forall k q, outcome_at testType q k <> Resolved None) ->
  forall n : nat, interactions_after testType qs n = (n + 3 * length qs)%nat.
Proof.
  intros Hnull. induction qs as [|q qs IH]; intros n; cbn [LoadTest.after length]; [lia|].
  rewrite IH. specialize (Hnull (S n) q).
  destruct (outcome_at testType q (S n)) as [[r|]|m]; cbn [LoadTest.interactions_of];
    [lia|contradiction|lia].
Qed.

Lemma length_concat_replicate (k : nat) (qs : list Query) :
  length (concat (replicate k qs)) = (k * length qs)%nat.
Proof.
  induction k as [|k IH]; [reflexivity|].
  cbn [replicate concat]. rewrite length_app, IH. lia.
Qed.


End time_line.


(** *** Statistics of a run in which every call fails *)

Lemma fold_left_min_spec (t : list Z) : forall x,
  fold_left Z.min t x ∈ x :: t
  /\ (forall d, d ∈ x :: t -> fold_left Z.min t x <= d).
Proof.
  induction t as [|y t IH]; intros x; cbn [fold_left].
  - split; [left|]. intros d Hd. apply list_elem_of_singleton in Hd. lia.
  - destruct (IH (Z.min x y)) as [Hin Hle]. split.
    + apply elem_of_cons in Hin as [E|Hin]; [|right; right; exact Hin].
      rewrite E. destruct (Z.min_spec x y) as [[_ ->]|[_ ->]]; [left|right; left].
    + intros d Hd. apply elem_of_cons in Hd as [->|Hd].
      * specialize (Hle (Z.min x y) ltac:(left)). lia.
      * apply elem_of_cons in Hd as [->|Hd].
        -- specialize (Hle (Z.min x y) ltac:(left)). lia.
        -- apply Hle. right. exact Hd.
Qed.

Lemma fold_left_max_spec (t : list Z) : forall x,
  fold_left Z.max t x ∈ x :: t
  /\ (forall d, d ∈ x :: t -> d <= fold_left Z.max t x).
Proof.
  induction t as [|y t IH]; intros x; cbn [fold_left].
  - split; [left|]. intros d Hd. apply list_elem_of_singleton in Hd. lia.
  - destruct (IH (Z.max x y)) as [Hin Hle]. split.
    + apply elem_of_cons in Hin as [E|Hin]; [|right; right; exact Hin].
      rewrite E. destruct (Z.max_spec x y) as [[_ ->]|[_ ->]]; [right; left|left].
    + intros d Hd. apply elem_of_cons in Hd as [->|Hd].
      * specialize (Hle (Z.max x y) ltac:(left)). lia.
      * apply elem_of_cons in Hd as [->|Hd].
        -- specialize (Hle (Z.max x y) ltac:(left)). lia.
        -- apply Hle. right. exact Hd.
Qed.

(** The sum of numbers that lie between two bounds. *)
Lemma sum_between (l : list Z) (lo hi : Z) :
  (forall d, d ∈ l -> lo <= d <= hi) ->
  forall a,
    a + lo * Z.of_nat (length l) <= fold_left Z.add l a
    /\ fold_left Z.add l a <= a + hi * Z.of_nat (length l).
Proof.
  induction l as [|x l IH]; intros H a; cbn [fold_left length]; [lia|].
  assert (Hx : lo <= x <= hi) by (apply H; left).
  destruct (IH (fun d Hd => H d ltac:(right; exact Hd)) (a + x)) as [H1 H2].
  lia.
Qed.

(** The quotient of the sum of a non-empty array by its length lies
    between any two bounds of the elements. *)
Lemma mean_between (l : list Z) (lo hi : Z) :
  l <> [] ->
  (forall d, d ∈ l -> lo <= d <= hi) ->
  exists mean : Q,
    div (of_Z (fold_left Z.add l 0)) (of_Z (Z.of_nat (length l))) = Fin mean
    /\ (inject_Z lo <= mean)%Q
    /\ (mean <= inject_Z hi)%Q.
Proof.
  intros Hne Hb. destruct (sum_between l lo hi Hb 0) as [Hlo Hhi].
  destruct l as [|x t]; [contradiction|].
  set (sum := fold_left Z.add (x :: t) 0) in *. clearbody sum.
  cbn [length] in *. rewrite Nat2Z.inj_succ in *.
  destruct (Z.succ (Z.of_nat (length t))) as [|n|n] eqn:En; try lia.
  eexists. split; [reflexivity|].
  rewrite Qred_correct. unfold Qle, Qdiv, Qmult, Qinv, inject_Z. simpl.
  split; lia.
Qed.

Lemma success_rate_zero (n : Z) :
  n <> 0 -> mul (div (of_Z 0) (of_Z n)) (of_Z 100) = of_Z 0.
Proof.
  intros Hn. unfold div, mul, of_Z. rewrite Qeq_bool_inject_Z_0.
  destruct (Z.eqb_spec n 0); [contradiction|].
  reflexivity.
Qed.

Lemma no_success_filter {Query : Type} (entries : list (QueryResult Query)) :
  (forall entry, entry ∈ entries -> success entry = false) ->
  filter (fun entry => success entry = true) entries = [].
Proof.
  induction entries as [|e entries IH]; intros H; [reflexivity|].
  rewrite filter_cons. destruct (decide (success e = true)) as [E|_].
  - rewrite (H e) in E by left. discriminate E.
  - apply IH. intros entry Hin. apply H. right. exact Hin.
Qed.

(** The statistics over results without a successful entry. *)
Lemma all_failed_statistics {Query : Type}
    (results : list (IterationResult Query)) (h : heap) :
  (forall entry, entry ∈ all_queries results -> success entry = false) ->
  all_queries results <> [] ->
  totalQueries (statistics results h).1 = Z.of_nat (length (all_queries results))
  /\ successfulQueries (statistics results h).1 = 0
  /\ failedQueries (statistics results h).1 = Z.of_nat (length (all_queries results))
  /\ successRate (statistics results h).1 = of_Z 0
  /\ (exists (lo hi : Z) (mean : Q),
        minDuration (statistics results h).1 = of_Z lo
        /\ maxDuration (statistics results h).1 = of_Z hi
        /\ averageDuration (statistics results h).1 = Fin mean
        /\ lo ∈ allDurations results
        /\ hi ∈ allDurations results
        /\ (forall d, d ∈ allDurations results -> lo <= d <= hi)
        /\ (inject_Z lo <= mean)%Q
        /\ (mean <= inject_Z hi)%Q).
Proof.
  intros Hfail Hne.
  rewrite (proj1 (statistics_run results h)).
  rewrite (proj1 (statistics_over_run _ _ (allDurations results) _
                    (lookup_insert_eq _ _ _))).
  cbn [totalQueries successfulQueries failedQueries successRate averageDuration
       minDuration maxDuration].
  unfold successful. rewrite (no_success_filter _ Hfail). cbn [length].
  assert (Hlen : length (allDurations results) = length (all_queries results))
    by (unfold allDurations; apply length_map).
  assert (Hpos : Z.of_nat (length (allDurations results)) <> 0).
  { rewrite Hlen. destruct (all_queries results); [contradiction|]. cbn. lia. }
  rewrite Hlen at 1 2. change (Z.of_nat 0) with 0.
  split; [reflexivity|]. split; [reflexivity|]. split; [lia|].
  split; [apply success_rate_zero; exact Hpos|].
  destruct (allDurations results) as [|x t] eqn:E; [cbn in Hpos; lia|].
  destruct (fold_left_min_spec t x) as [Hmin Hle].
  destruct (fold_left_max_spec t x) as [Hmax Hge].
  destruct (mean_between (x :: t) (fold_left Z.min t x) (fold_left Z.max t x))
    as (mean & Emean & Hlo & Hhi);
    [discriminate|intros d Hd; split; [apply Hle|apply Hge]; exact Hd|].
  exists (fold_left Z.min t x), (fold_left Z.max t x), mean.
  cbn [Math_min Math_max].
  repeat split; try assumption; [apply Hle|apply Hge]; assumption.
Qed.

(** C4, as stated, fails: in a run of two calls that both fail after 7 ms
    the success rate is 0, but the mean, the minimum and the maximum of
    the durations are the number 7, not NaN and not left out. *)
Lemma all_failing_run_has_defined_mean_min_max :
  let now := fun n : nat => 7 * Z.of_nat n in
  let unreachable := fun (_ : nat) (_ : nat) => Rejected "No living connections" in
  let run := run_load_test (fun q : nat => q) now unreachable unreachable unreachable
               "Cannot read properties of null (reading 'hits')" "search"
               [1; 2]%nat 1 {| ticks := 0; calls := 0 |} in
  let stats := (statistics run.1 ∅).1 in
  Forall (fun entry => success entry = false) (all_queries run.1)
  /\ successRate stats = of_Z 0
  /\ averageDuration stats = of_Z 7
  /\ minDuration stats = of_Z 7
  /\ maxDuration stats = of_Z 7
  /\ is_NaN (averageDuration stats) = false
  /\ is_NaN (minDuration stats) = false
  /\ is_NaN (maxDuration stats) = false.
Proof.
  cbv zeta. split; [repeat constructor|]. repeat split; vm_compute; reflexivity.
Qed.

(** C4, amended: for every run with at least one attempted call in which
    every call fails, the statistics are a defined structure that reports
    no successful query and successRate = 0, and the mean, the minimum
    and the maximum are finite numbers: the durations measured up to the
    failures are part of the statistics, so the minimum and the maximum
    are the least and the greatest of them and the mean lies between the
    two. *)
Theorem all_calls_failing_statistics
    {Query Id : Type} (query_id : Query -> Id) (now : nat -> Z)
    (search indexDocument : nat -> Query -> Outcome)
    (getDocument : nat -> Id -> Outcome) (null_hits_message : string)
    (testType : string) (qs : list Query) (iterations : nat) (u : Usage)
    (h : heap) :
  (0 < iterations)%nat ->
  qs <> [] ->
  (forall k q r,
      service_outcome query_id search indexDocument getDocument testType q k
      <> Resolved (Some r)) ->
  let results :=
    (run_load_test query_id now search indexDocument getDocument
       null_hits_message testType qs iterations u).1 in
  let stats := (statistics results h).1 in
  totalQueries stats = Z.of_nat (iterations * length qs)
  /\ successfulQueries stats = 0
  /\ failedQueries stats = Z.of_nat (iterations * length qs)
  /\ successRate stats = of_Z 0
  /\ (exists (lo hi : Z) (mean : Q),
        minDuration stats = of_Z lo
        /\ maxDuration stats = of_Z hi
        /\ averageDuration stats = Fin mean
        /\ lo ∈ allDurations results
        /\ hi ∈ allDurations results
        /\ (forall d, d ∈ allDurations results -> lo <= d <= hi)
        /\ (inject_Z lo <= mean)%Q
        /\ (mean <= inject_Z hi)%Q).
Proof.
  intros Hit Hqs Hfail results stats.
  destruct (failing_service_entries query_id now search indexDocument getDocument
              null_hits_message testType qs iterations u Hfail) as [Hentries Hlen].
  fold results in Hentries, Hlen.
  assert (Hne : all_queries results <> []).
  { intros E. rewrite E in Hlen. cbn in Hlen.
    destruct qs; [contradiction|]. cbn in Hlen. nia. }
  destruct (all_failed_statistics results h Hentries Hne)
    as (Ht & Hs & Hf & Hr & Hminmax).
  fold stats in Ht, Hs, Hf, Hr, Hminmax.
  rewrite Hlen in Ht, Hf. auto 10.
Qed.

Lemma all_calls_failing_statistics_witness :
  let now := fun n : nat => 7 * Z.of_nat n in
  let unreachable := fun (_ : nat) (_ : nat) => Rejected "No living connections" in
  let results :=
    (run_load_test (fun q : nat => q) now unreachable unreachable unreachable
       "Cannot read properties of null (reading 'hits')" "search"
       [1; 2]%nat 1 {| ticks := 0; calls := 0 |}).1 in
  let stats := (statistics results ∅).1 in
  totalQueries stats = Z.of_nat (1 * length [1; 2]%nat)
  /\ successfulQueries stats = 0
  /\ failedQueries stats = Z.of_nat (1 * length [1; 2]%nat)
  /\ successRate stats = of_Z 0
  /\ (exists (lo hi : Z) (mean : Q),
        minDuration stats = of_Z lo
        /\ maxDuration stats = of_Z hi
        /\ averageDuration stats = Fin mean
        /\ lo ∈ allDurations results
        /\ hi ∈ allDurations results
        /\ (forall d, d ∈ allDurations results -> lo <= d <= hi)
        /\ (inject_Z lo <= mean)%Q
        /\ (mean <= inject_Z hi)%Q).
Proof.
  intros now unreachable.
  apply (all_calls_failing_statistics (fun q : nat => q) now unreachable unreachable
           unreachable "Cannot read properties of null (reading 'hits')" "search"
           [1; 2]%nat 1 {| ticks := 0; calls := 0 |} ∅).
  - lia.
  - discriminate.
  - intros k q r. discriminate.
Defined.

End BenchmarkHarness.

(* ================================================================== *)
(** * Further properties of the routes *)
(* ================================================================== *)

(** ** POST /api/search *)

Module SearchRoute.
Import Search.

(** X1: a search type that is none of the four the handler knows falls
    back to match-all, and the free text then has no influence on the
    compiled query. *)
Theorem unknown_search_type_ignores_text (body : Body) (text : option string) :
  default "multi_match"%string (body_searchType body)
    ∉ ["multi_match"; "match_phrase"; "wildcard"; "fuzzy"]%string ->
  primary_query (default "multi_match"%string (body_searchType body)) (body_query body)
    = MatchAll
  /\ searchQuery body
     = searchQuery {| body_query := text;
                      body_filters := body_filters body;
                      body_page := body_page body;
                      body_size := body_size body;
                      body_sort := body_sort body;
                      body_order := body_order body;
                      body_searchType := body_searchType body |}.
Proof.
  intros Hnot.
  assert (Hall : forall q, primary_query
                   (default "multi_match"%string (body_searchType body)) q = MatchAll).
  { intros q. unfold primary_query.
    repeat match goal with
    | |- context [String.eqb ?a ?b] =>
        destruct (String.eqb_spec a b) as [E|_];
        [exfalso; apply Hnot; rewrite E; repeat constructor|]
    end.
    reflexivity. }
  split; [apply Hall|].
  unfold searchQuery. cbn [body_query body_filters body_page body_size body_sort
                            body_order body_searchType].
  rewrite !Hall. reflexivity.
Qed.

Lemma unknown_search_type_ignores_text_witness :
  let body := {| body_query := Some "wireless"%string; body_filters := None;
                 body_page := None; body_size := None; body_sort := None;
                 body_order := None; body_searchType := Some "prefix"%string |} in
  primary_query "prefix" (Some "wireless"%string) = MatchAll
  /\ searchQuery body
     = searchQuery {| body_query := None; body_filters := None;
                      body_page := None; body_size := None; body_sort := None;
                      body_order := None; body_searchType := Some "prefix"%string |}.
Proof.
  intros body. apply (unknown_search_type_ignores_text body None).
  cbn. intros H.
  repeat (apply elem_of_cons in H as [H|H]; [discriminate H|]).
  apply elem_of_nil in H. exact H.
Defined.

(** X2: whatever the filter set, the clauses the builder emits are a
    subsequence of the one-clause-per-present-field sequence: it may
    leave a clause out (a falsy category or rating) but never adds,
    repeats or reorders one, so there are at most as many clauses as
    present fields and never more than five. *)
Theorem filter_clauses_subsequence (filters : Filters) :
  filterQueries filters `sublist_of` spec_filter_clauses filters
  /\ (length (filterQueries filters) <= present_fields filters)%nat
  /\ (present_fields filters <= 5)%nat.
Proof.
  assert (Hsub : filterQueries filters `sublist_of` spec_filter_clauses filters).
  { unfold filterQueries, spec_filter_clauses.
    repeat apply sublist_app; try reflexivity.
    - destruct (category filters) as [c|]; [|reflexivity].
      destruct (truthy_string c); [reflexivity|apply sublist_nil_l].
    - destruct (rating filters) as [r|]; [|reflexivity].
      destruct (truthy_number r); [reflexivity|apply sublist_nil_l].
    - destruct (tags filters) as [[|t ts]|]; reflexivity. }
  split; [exact Hsub|]. split.
  - rewrite <- FilterClauseBuilder.spec_filter_clauses_length.
    apply sublist_length, Hsub.
  - unfold present_fields, defined.
    destruct (category filters), (priceMin filters), (priceMax filters),
      (rating filters), (inStock filters), (tags filters) as [[|? ?]|]; cbn; lia.
Qed.

(** X3: the falsy values that mean something are not dropped: a stock
    flag, [false] included, and a price range with a bound, 0 included,
    always give their clause, and that clause reaches the [filter]
    entries of the compiled boolean query. *)
Theorem stock_flag_and_price_bounds_kept (body : Body) (filters : Filters) :
  body_filters body = Some filters ->
  (forall b, inStock filters = Some b ->
     Term "inStock" (SBool b) ∈ filterQueries filters
     /\ exists must filter,
          query (searchQuery body) = Bool must filter
          /\ Term "inStock" (SBool b) ∈ filter)
  /\ (forall bound, priceMin filters = Some bound \/ priceMax filters = Some bound ->
     Range "price" (priceMin filters) (priceMax filters) ∈ filterQueries filters
     /\ exists must filter,
          query (searchQuery body) = Bool must filter
          /\ Range "price" (priceMin filters) (priceMax filters) ∈ filter).
Proof.
  intros Hbody.
  assert (Hwrap : forall clause, clause ∈ filterQueries filters ->
            exists must filter,
              query (searchQuery body) = Bool must filter /\ clause ∈ filter).
  { intros clause Hin. unfold searchQuery. rewrite Hbody. cbn [default query].
    cbv zeta.
    destruct (Object_keys_length filters) as [|k] eqn:Hk.
    - rewrite (QueryTreeCompiler.no_keys_no_clauses filters Hk) in Hin.
      apply elem_of_nil in Hin. contradiction.
    - cbn [Nat.ltb Nat.leb].
      destruct (filterQueries filters) as [|c cs] eqn:E.
      + apply elem_of_nil in Hin. contradiction.
      + cbn. rewrite Hk, E. cbn. exists [primary_query
            (default "multi_match"%string (body_searchType body)) (body_query body)],
          (c :: cs).
        split; [reflexivity|exact Hin]. }
  split.
  - intros b Hb.
    assert (Hin : Term "inStock" (SBool b) ∈ filterQueries filters).
    { unfold filterQueries. rewrite Hb.
      rewrite !elem_of_app. right. right. right. left. left. }
    split; [exact Hin|apply Hwrap, Hin].
  - intros bound Hbound.
    assert (Hin : Range "price" (priceMin filters) (priceMax filters)
                  ∈ filterQueries filters).
    { unfold filterQueries.
      assert (Hd : defined (priceMin filters) || defined (priceMax filters) = true).
      { destruct Hbound as [-> | ->]; cbn; [reflexivity|apply orb_true_r]. }
      rewrite Hd. rewrite !elem_of_app. right. left. left. }
    split; [exact Hin|apply Hwrap, Hin].
Qed.

Lemma stock_flag_and_price_bounds_kept_witness :
  let filters := {| category := None; priceMin := Some 0%Q; priceMax := None;
                    rating := None; inStock := Some false; tags := None |} in
  let body := {| body_query := Some "lamp"%string; body_filters := Some filters;
                 body_page := None; body_size := None; body_sort := None;
                 body_order := None; body_searchType := None |} in
  (Term "inStock" (SBool false) ∈ filterQueries filters
   /\ exists must filter,
        query (searchQuery body) = Bool must filter
        /\ Term "inStock" (SBool false) ∈ filter)
  /\ (Range "price" (Some 0%Q) None ∈ filterQueries filters
      /\ exists must filter,
           query (searchQuery body) = Bool must filter
           /\ Range "price" (Some 0%Q) None ∈ filter).
Proof.
  intros filters body.
  destruct (stock_flag_and_price_bounds_kept body filters eq_refl) as [Hstock Hprice].
  split; [exact (Hstock false eq_refl)|exact (Hprice 0%Q (or_introl eq_refl))].
Defined.

End SearchRoute.

(** ** The pages of the search answer *)

Module Pagination.
Import Search SearchAnswer.

Lemma ceiling_quotient (total : Z) (size : positive) :
  (Qceiling (Qred (inject_Z total / inject_Z (Z.pos size))) - 1) * Z.pos size < total
  /\ total <= Qceiling (Qred (inject_Z total / inject_Z (Z.pos size))) * Z.pos size.
Proof.
  set (x := Qred (inject_Z total / inject_Z (Z.pos size))).
  assert (Ex : (x == total # size)%Q).
  { unfold x. rewrite Qred_correct. symmetry. apply Qmake_Qdiv. }
  assert (Hle : (total # size <= inject_Z (Qceiling x))%Q)
    by (rewrite <- Ex; apply Qle_ceiling).
  assert (Hlt : (inject_Z (Qceiling x - 1) < total # size)%Q)
    by (rewrite <- Ex; apply Qceiling_lt).
  unfold Qle, Qlt, inject_Z in Hle, Hlt. simpl in Hle, Hlt. lia.
Qed.

(** X4: with a positive page size the answer's [totalPages] is the
    least number of pages that holds all the hits (0 pages for no hit);
    with a page size of 0 it is not a number of pages at all: Infinity
    when there are hits and NaN when there are none. *)
Theorem total_pages_hold_all_hits {Source : Type} (body : Body)
    (response : Response Source) :
  0 <= hits_total_value response ->
  (0 < default 10 (body_size body) ->
     exists pages : Z,
       totalPages (answer body response) = of_Z pages
       /\ (pages - 1) * default 10 (body_size body) < hits_total_value response
       /\ hits_total_value response <= pages * default 10 (body_size body))
  /\ (default 10 (body_size body) = 0 ->
      totalPages (answer body response)
      = if hits_total_value response =? 0 then NaN else PInf).
Proof.
  intros Htotal. unfold answer. cbn [totalPages].
  set (size := default 10 (body_size body)).
  set (total := hits_total_value response) in *.
  split.
  - intros Hsize. destruct size as [|size|size]; try lia.
    exists (Qceiling (Qred (inject_Z total / inject_Z (Z.pos size)))).
    split; [reflexivity|]. apply ceiling_quotient.
  - intros ->. unfold div, of_Z. cbn [Qeq_bool Math_ceil].
    destruct total as [|t|t]; try lia; reflexivity.
Qed.

Lemma total_pages_hold_all_hits_witness :
  let body := {| body_query := Some "lamp"%string; body_filters := None;
                 body_page := Some 2; body_size := Some 10; body_sort := None;
                 body_order := None; body_searchType := None |} in
  let response : Response unit :=
    {| hits_hits := []; hits_total_value := 21; response_took := Some 3 |} in
  exists pages : Z,
    totalPages (answer body response) = of_Z pages
    /\ (pages - 1) * 10 < 21
    /\ 21 <= pages * 10.
Proof.
  intros body response.
  apply (proj1 (total_pages_hold_all_hits body response ltac:(cbn; lia))).
  cbn. lia.
Defined.

End Pagination.

(** ** The aggregations routes *)

Module AggregationRoutes.
Import Aggregations.

Lemma split_comma_length (s : string) :
  length (split_comma s) = S (count_commas s).
Proof.
  induction s as [|c rest IH]; [reflexivity|]. cbn [split_comma count_commas].
  destruct (Ascii.eqb c ","); cbn [length]; [rewrite IH; reflexivity|].
  destruct (split_comma rest); [discriminate IH|]. exact IH.
Qed.

Lemma split_comma_concat (s : string) :
  String.concat "," (split_comma s) = s.
Proof.
  induction s as [|c rest IH]; [reflexivity|]. cbn [split_comma].
  pose proof (split_comma_length rest) as Hlen.
  destruct (Ascii.eqb_spec c ","%char) as [->|_].
  - destruct (split_comma rest) as [|piece pieces]; [discriminate Hlen|].
    rewrite <- IH. reflexivity.
  - destruct (split_comma rest) as [|piece pieces]; [discriminate Hlen|].
    destruct pieces as [|piece' pieces]; rewrite <- IH; reflexivity.
Qed.

Lemma split_comma_pieces (s : string) :
  Forall (fun piece => count_commas piece = 0%nat) (split_comma s).
Proof.
  induction s as [|c rest IH]; cbn [split_comma]; [repeat constructor|].
  destruct (Ascii.eqb c ","%char) eqn:E; [constructor; [reflexivity|exact IH]|].
  destruct (split_comma rest) as [|piece pieces]; [repeat constructor; cbn; rewrite E; reflexivity|].
  apply Forall_cons in IH as [Hp Hps]. constructor; [|exact Hps].
  cbn. rewrite E, Hp. reflexivity.
Qed.

(** X5: the [ranges] parameter is cut at its commas and nowhere else:
    the pieces contain no comma and joined by commas they give the
    parameter back; there is one bucket more than pieces, so a parameter
    with c commas gives c + 2 buckets, the empty parameter two. *)
Theorem buckets_count_commas {num : Type} (Number : string -> num)
    (toString : num -> string) (ranges : option string) :
  let parameter := default "50,100,200,500"%string ranges in
  String.concat "," (split_comma parameter) = parameter
  /\ Forall (fun piece => count_commas piece = 0%nat) (split_comma parameter)
  /\ length (rangeValues Number ranges) = S (count_commas parameter)
  /\ length (price_analysis_ranges Number toString ranges)
     = (count_commas parameter + 2)%nat.
Proof.
  intros parameter.
  split; [apply split_comma_concat|]. split; [apply split_comma_pieces|].
  assert (Hlen : length (rangeValues Number ranges) = S (count_commas parameter)).
  { unfold rangeValues. rewrite length_map. apply split_comma_length. }
  split; [exact Hlen|].
  unfold price_analysis_ranges, priceRanges.
  rewrite length_app, length_map, length_seq, Hlen. cbn. lia.
Qed.

(** *** The complex route and the search route build the same filters *)

Lemma positive_truthy (r : Q) :
  (0 <= r)%Q -> ComplexAggregation.positive r = Search.truthy_number r.
Proof.
  intros Hr. unfold ComplexAggregation.positive, Search.truthy_number. f_equal.
  destruct (Qle_bool r 0) eqn:Hle, (Qeq_bool r 0) eqn:Heq; try reflexivity.
  - apply Qle_bool_iff in Hle. apply Qeq_bool_neq in Heq. exfalso. apply Heq.
    apply Qle_antisym; assumption.
  - apply Qeq_bool_eq in Heq. rewrite Heq in Hle. discriminate Hle.
Qed.

(** X6: on the fields they share, the complex aggregation route builds
    the filter clauses of the search route, in the same order, as long
    as the rating floor is absent or not negative; for a negative floor
    the two differ: the search route filters on it, the complex route
    (which tests [rating_min > 0]) does not. *)
Theorem complex_filters_agree_with_search (body : ComplexAggregation.Body) :
  let filters :=
    {| Search.category := ComplexAggregation.category_filter body;
       Search.priceMin := ComplexAggregation.price_min body;
       Search.priceMax := ComplexAggregation.price_max body;
       Search.rating := ComplexAggregation.rating_min body;
       Search.inStock := None;
       Search.tags := None |} in
  ((forall r, ComplexAggregation.rating_min body = Some r -> (0 <= r)%Q)
     -> ComplexAggregation.filters body = Search.filterQueries filters)
  /\ (forall r, ComplexAggregation.rating_min body = Some r -> (r < 0)%Q ->
        Search.Range "rating" (Some r) None ∈ Search.filterQueries filters
        /\ Search.Range "rating" (Some r) None ∉ ComplexAggregation.filters body).
Proof.
  intros filters. unfold ComplexAggregation.filters, Search.filterQueries.
  cbv zeta.
  cbn [Search.category Search.priceMin Search.priceMax Search.rating
       Search.inStock Search.tags filters].
  split.
  - intros Hr. rewrite !app_nil_r.
    destruct (ComplexAggregation.rating_min body) as [r|]; [|reflexivity].
    cbn [default from_option id].
    rewrite (positive_truthy r (Hr r eq_refl)). reflexivity.
  - intros r -> Hneg. cbn [default from_option id].
    assert (Ht : Search.truthy_number r = true).
    { unfold Search.truthy_number. destruct (Qeq_bool r 0) eqn:E; [|reflexivity].
      apply Qeq_bool_eq in E. rewrite E in Hneg. discriminate Hneg. }
    assert (Hp : ComplexAggregation.positive r = false).
    { unfold ComplexAggregation.positive. apply negb_false_iff, Qle_bool_iff.
      apply Qlt_le_weak, Hneg. }
    rewrite Ht, Hp. split.
    + rewrite !elem_of_app. right. right. left. left.
    + rewrite !elem_of_app. intros [H|[H|H]].
      * destruct (ComplexAggregation.category_filter body) as [c|];
          [destruct (Search.truthy_string c)|];
          [apply list_elem_of_singleton in H; discriminate H
          |apply elem_of_nil in H; exact H
          |apply elem_of_nil in H; exact H].
      * destruct (Search.defined (ComplexAggregation.price_min body)
                  || Search.defined (ComplexAggregation.price_max body));
          [apply list_elem_of_singleton in H; discriminate H
          |apply elem_of_nil in H; exact H].
      * apply elem_of_nil in H; exact H.
Qed.

Lemma complex_filters_agree_with_search_witness :
  let body := {| ComplexAggregation.category_filter := Some "Books"%string;
                 ComplexAggregation.price_min := Some 0%Q;
                 ComplexAggregation.price_max := None;
                 ComplexAggregation.rating_min := Some 4%Q |} in
  ComplexAggregation.filters body
  = Search.filterQueries
      {| Search.category := Some "Books"%string; Search.priceMin := Some 0%Q;
         Search.priceMax := None; Search.rating := Some 4%Q;
         Search.inStock := None; Search.tags := None |}.
Proof.
  intros body.
  apply (proj1 (complex_filters_agree_with_search body)).
  intros r [= <-]. discriminate.
Defined.

(** *** Percentages and rounded averages *)

(** X7: for a bucket that holds documents, of which the in-stock count
    is a part, both category handlers shape the in-stock percentage to a
    whole number between 0 and 100, which is at most half a point away
    from the exact percentage but for the rounding errors of the
    quotient and the product (at most [2^-45] of a point). *)
Theorem in_stock_percentage_whole_number :
  (forall bucket : Analytics.Bucket,
      0 < Analytics.doc_count bucket <= 2 ^ 53 ->
      0 <= Analytics.bucket_in_stock_count_value bucket <= Analytics.doc_count bucket ->
      exists pct : Z,
        Analytics.in_stock_percentage (Analytics.shape_bucket bucket) = of_Z pct
        /\ 0 <= pct <= 100
        /\ (inject_Z pct
            - 100 * (inject_Z (Analytics.bucket_in_stock_count_value bucket)
                     / inject_Z (Analytics.doc_count bucket))
            <= (1 # 2) + (1 # 35184372088832))%Q
        /\ (100 * (inject_Z (Analytics.bucket_in_stock_count_value bucket)
                   / inject_Z (Analytics.doc_count bucket))
            - inject_Z pct
            <= (1 # 2) + (1 # 35184372088832))%Q)
  /\ (forall bucket : Aggregations.Bucket,
      0 < Aggregations.doc_count bucket <= 2 ^ 53 ->
      0 <= Aggregations.bucket_in_stock_count_count_value bucket
        <= Aggregations.doc_count bucket ->
      exists pct : Z,
        Aggregations.in_stock_percentage (Aggregations.shape_bucket bucket) = of_Z pct
        /\ 0 <= pct <= 100
        /\ (inject_Z pct
            - 100 * (inject_Z (Aggregations.bucket_in_stock_count_count_value bucket)
                     / inject_Z (Aggregations.doc_count bucket))
            <= (1 # 2) + (1 # 35184372088832))%Q
        /\ (100 * (inject_Z (Aggregations.bucket_in_stock_count_count_value bucket)
                   / inject_Z (Aggregations.doc_count bucket))
            - inject_Z pct
            <= (1 # 2) + (1 # 35184372088832))%Q).
Proof.
  split; intros bucket [Hd _] Hc;
    cbn [Analytics.shape_bucket Analytics.in_stock_percentage
         Aggregations.shape_bucket Aggregations.in_stock_percentage];
    apply RoundingError.percentage; assumption.
Qed.

Lemma in_stock_percentage_whole_number_witness :
  exists pct : Z,
    Analytics.in_stock_percentage
      (Analytics.shape_bucket
         {| Analytics.key := "Books"; Analytics.doc_count := 40;
            Analytics.bucket_avg_price_value := Some (12 # 1)%Q;
            Analytics.bucket_avg_rating_value := Some (4 # 1)%Q;
            Analytics.bucket_in_stock_count_value := 23 |}) = of_Z pct
    /\ 0 <= pct <= 100
    /\ (inject_Z pct - 100 * (inject_Z 23 / inject_Z 40)
        <= (1 # 2) + (1 # 35184372088832))%Q
    /\ (100 * (inject_Z 23 / inject_Z 40) - inject_Z pct
        <= (1 # 2) + (1 # 35184372088832))%Q.
Proof.
  apply (proj1 in_stock_percentage_whole_number
           {| Analytics.key := "Books"; Analytics.doc_count := 40;
              Analytics.bucket_avg_price_value := Some (12 # 1)%Q;
              Analytics.bucket_avg_rating_value := Some (4 # 1)%Q;
              Analytics.bucket_in_stock_count_value := 23 |}); cbn; lia.
Defined.

(** X8: the averages of a category bucket of the aggregations route: an
    average that the engine gives as [null] (a bucket without values) is
    shaped to 0; any other is shaped to a number [k / 100] with [k]
    whole, within 0.005 of its value but for the rounding errors (at
    most [(|v| + 1) / 2^50]); and an average that is a numeral with two
    decimals is returned as the number it denotes. *)
Theorem bucket_averages_rounding (bucket : Aggregations.Bucket) :
  (Aggregations.bucket_avg_price_value bucket = None ->
     Aggregations.avg_price (Aggregations.shape_bucket bucket) = of_Z 0)
  /\ (Aggregations.bucket_avg_rating_value bucket = None ->
     Aggregations.avg_rating (Aggregations.shape_bucket bucket) = of_Z 0)
  /\ (forall v, Aggregations.bucket_avg_price_value bucket = Some v ->
     (Qabs v <= Binary64.pow2 1000)%Q ->
     exists (k : Z) (r : Q),
       Aggregations.avg_price (Aggregations.shape_bucket bucket) = Fin r
       /\ Binary64.div (of_Z k) (of_Z 100) = Fin r
       /\ (r - v <= (1 # 200) + (Qabs v + 1) * (1 # 1125899906842624))%Q
       /\ (v - r <= (1 # 200) + (Qabs v + 1) * (1 # 1125899906842624))%Q)
  /\ (forall v, Aggregations.bucket_avg_rating_value bucket = Some v ->
     (Qabs v <= Binary64.pow2 1000)%Q ->
     exists (k : Z) (r : Q),
       Aggregations.avg_rating (Aggregations.shape_bucket bucket) = Fin r
       /\ Binary64.div (of_Z k) (of_Z 100) = Fin r
       /\ (r - v <= (1 # 200) + (Qabs v + 1) * (1 # 1125899906842624))%Q
       /\ (v - r <= (1 # 200) + (Qabs v + 1) * (1 # 1125899906842624))%Q)
  /\ (forall k : Z, Aggregations.bucket_avg_price_value bucket = Some (k # 100) ->
     - 2 ^ 50 <= k <= 2 ^ 50 ->
     Aggregations.avg_price (Aggregations.shape_bucket bucket)
     = Binary64.ToNumber (Some (k # 100)))
  /\ (forall k : Z, Aggregations.bucket_avg_rating_value bucket = Some (k # 100) ->
     - 2 ^ 50 <= k <= 2 ^ 50 ->
     Aggregations.avg_rating (Aggregations.shape_bucket bucket)
     = Binary64.ToNumber (Some (k # 100))).
Proof.
  cbn [Aggregations.shape_bucket Aggregations.avg_price Aggregations.avg_rating].
  repeat split.
  - intros ->. reflexivity.
  - intros ->. reflexivity.
  - intros v -> Hv.
    destruct (RoundingError.two_decimals v Hv) as (k & r & E1 & E2 & _ & _ & H1 & H2).
    exists k, r. auto.
  - intros v -> Hv.
    destruct (RoundingError.two_decimals v Hv) as (k & r & E1 & E2 & _ & _ & H1 & H2).
    exists k, r. auto.
  - intros k -> Hk. apply RoundingError.two_decimals_fixed. exact Hk.
  - intros k -> Hk. apply RoundingError.two_decimals_fixed. exact Hk.
Qed.

Lemma bucket_averages_rounding_witness :
  let bucket := {| Aggregations.key := "Books"; Aggregations.doc_count := 3;
                   Aggregations.bucket_avg_price_value := Some (1999 # 100)%Q;
                   Aggregations.bucket_avg_rating_value := None;
                   Aggregations.bucket_min_price_value := None;
                   Aggregations.bucket_max_price_value := None;
                   Aggregations.bucket_in_stock_count_count_value := 1 |} in
  Aggregations.avg_rating (Aggregations.shape_bucket bucket) = of_Z 0
  /\ Aggregations.avg_price (Aggregations.shape_bucket bucket)
     = Binary64.ToNumber (Some (1999 # 100)%Q).
Proof.
  intros bucket.
  destruct (bucket_averages_rounding bucket) as (_ & Hnull & _ & _ & Hexact & _).
  split; [exact (Hnull eq_refl)|apply (Hexact 1999 eq_refl); lia].
Defined.

(** X9: the index size in megabytes of the index-stats route, for a
    size in bytes that is a whole number up to 2^53, is within 0.005 MB
    of the size in bytes divided by 1024 * 1024 but for the rounding
    errors (at most [(MB + 1) / 2^49]). *)
Theorem size_mb_within_half_a_hundredth (size_in_bytes : Z) :
  0 <= size_in_bytes <= 2 ^ 53 ->
  exists mb : Q,
    Benchmark.size_mb size_in_bytes = Fin mb
    /\ (mb - (size_in_bytes # 1048576)
        <= (1 # 200) + ((size_in_bytes # 1048576) + 1) * (1 # 562949953421312))%Q
    /\ ((size_in_bytes # 1048576) - mb
        <= (1 # 200) + ((size_in_bytes # 1048576) + 1) * (1 # 562949953421312))%Q.
Proof.
  intros Hb. unfold Benchmark.size_mb.
  destruct RoundingError.magnitudes as (EP & HB & Ht0 & Ht1).
  set (bytes := inject_Z size_in_bytes).
  assert (HK : (0 <= bytes)%Q /\ (bytes <= inject_Z (2 ^ 53))%Q).
  { unfold bytes. change 0%Q with (inject_Z 0). rewrite <- !Zle_Qle. lia. }
  change (inject_Z (2 ^ 53)) with 9007199254740992%Q in HK. destruct HK as [HK1 HK2].
  assert (ET : (size_in_bytes # 1048576 == bytes * (1 # 1048576))%Q).
  { unfold bytes, Qeq, Qmult, inject_Z. simpl. lia. }
  (* the two quotients by 1024 *)
  assert (Hin : exists x2 : Q,
            Binary64.div (Binary64.div (of_Z size_in_bytes) (of_Z 1024)) (of_Z 1024)
            = Fin x2
            /\ (x2 - bytes * (1 # 1048576)
                <= (bytes * (1 # 1048576) + (1 # 512)) * (1 # 4503599627370496))%Q
            /\ (bytes * (1 # 1048576) - x2
                <= (bytes * (1 # 1048576) + (1 # 512)) * (1 # 4503599627370496))%Q).
  { unfold Binary64.div. cbn [JsNum.div of_Z Binary64.rounded]. fold bytes.
    change (Qeq_bool (inject_Z 1024) 0) with false. cbn iota.
    assert (E1 : (Qred (bytes / inject_Z 1024) == bytes * (1 # 1024))%Q).
    { rewrite Qred_correct. unfold Qdiv. reflexivity. }
    destruct (RoundingError.round_within (Qred (bytes / inject_Z 1024))
                (bytes * (1 # 1024)))
      as (x1 & Ex1 & Hx11 & Hx12); [rewrite E1; lra|rewrite E1; lra|lra|].
    rewrite E1 in Hx11, Hx12. cbn [Binary64.rounded]. rewrite Ex1. cbn [JsNum.div of_Z].
    change (Qeq_bool (inject_Z 1024) 0) with false. cbn iota. cbn [Binary64.rounded].
    assert (E2 : (Qred (x1 / inject_Z 1024) == x1 * (1 # 1024))%Q).
    { rewrite Qred_correct. unfold Qdiv. reflexivity. }
    destruct (RoundingError.round_within (Qred (x1 / inject_Z 1024))
                (bytes * (1 # 1048576) + (1 # 1024)))
      as (x2 & Ex2 & Hx21 & Hx22); [rewrite E2; lra|rewrite E2; lra|lra|].
    rewrite E2 in Hx21, Hx22. exists x2. split; [exact Ex2|].
    clear Ex1 Ex2 E1 E2 ET. clearbody bytes.
    revert EP HB Ht0 Ht1 Hx11 Hx12 Hx21 Hx22.
    generalize Binary64.min_normal, Binary64.max_binade, (Binary64.pow2 1000).
    intros t P B. intros. split; lra. }
  destruct Hin as (x2 & Ein & Hx21 & Hx22). rewrite Ein.
  (* the product with 100, [Math.round] and the quotient by 100 *)
  destruct (RoundingError.hundredths x2 (bytes * (1 # 1048576) + (1 # 512)))
    as (k & r & Er & _ & _ & _ & Hr1 & Hr2); [lra|lra|lra|].
  exists r. split; [exact Er|]. rewrite ET.
  clear Ein Er ET. clearbody bytes. revert EP HB Ht0 Ht1 Hx21 Hx22 Hr1 Hr2.
  generalize Binary64.min_normal, Binary64.max_binade, (Binary64.pow2 1000).
  intros t P B. intros. split; lra.
Qed.

Lemma size_mb_within_half_a_hundredth_witness :
  exists mb : Q,
    Benchmark.size_mb 131072 = Fin mb
    /\ (mb - (131072 # 1048576)
        <= (1 # 200) + ((131072 # 1048576) + 1) * (1 # 562949953421312))%Q
    /\ ((131072 # 1048576) - mb
        <= (1 # 200) + ((131072 # 1048576) + 1) * (1 # 562949953421312))%Q.
Proof. apply (size_mb_within_half_a_hundredth 131072). lia. Defined.

End AggregationRoutes.

(** ** The statistics of the load test *)

Module LoadTestStatistics.
Import Performance BenchmarkHarness.

(** In a list sorted ascending, a later element is not smaller. *)
Lemma Sorted_le_lookup (l : list Z) :
  Sorted Z.le l ->
  forall (i j : nat) (x y : Z),
    (i <= j)%nat -> l !! i = Some x -> l !! j = Some y -> x <= y.
Proof.
  intros Hs. apply Sorted_StronglySorted in Hs; [|intros a b c; lia].
  induction Hs as [|a l Hs IH Hall]; intros i j x y Hij Hi Hj.
  - discriminate Hi.
  - destruct i as [|i], j as [|j]; cbn in Hi, Hj.
    + injection Hi as <-. injection Hj as <-. lia.
    + injection Hi as <-. rewrite Forall_forall in Hall. apply Hall.
      apply list_elem_of_lookup. eauto.
    + lia.
    + apply (IH i j); [lia|assumption|assumption].
Qed.

(** The percentile of a non-empty list is its sorted element at the rank
    of the percentile. *)
Lemma percentile_of_rank (l : list Z) (p : Z) :
  l <> [] -> 0 < p <= 100 ->
  exists v : Z,
    percentile_of l p = Some v
    /\ merge_sort ascending l !! Z.to_nat (percentile_index p (length l)) = Some v.
Proof.
  intros Hne Hp.
  assert (Hn : (0 < length l)%nat) by (destruct l; [contradiction|simpl; lia]).
  pose proof (percentile_index_in_range p (length l) Hp Hn) as Hrange.
  assert (Hk : (Z.to_nat (percentile_index p (length l))
                < length (merge_sort ascending l))%nat)
    by (rewrite sort_length; lia).
  destruct (lookup_lt_is_Some_2 _ _ Hk) as [v Hv].
  exists v. split; [|exact Hv].
  unfold percentile_of. rewrite sort_length. unfold array_get.
  destruct (Z.ltb_spec (percentile_index p (length l)) 0); [lia|exact Hv].
Qed.

Lemma percentile_of_monotone (l : list Z) (p q v w : Z) :
  l <> [] -> 0 < p -> p <= q -> q <= 100 ->
  percentile_of l p = Some v -> percentile_of l q = Some w -> v <= w.
Proof.
  intros Hne Hp Hpq Hq Hv Hw.
  destruct (percentile_of_rank l p Hne ltac:(lia)) as (v' & Ev & Hlv).
  destruct (percentile_of_rank l q Hne ltac:(lia)) as (w' & Ew & Hlw).
  rewrite Ev in Hv. injection Hv as ->. rewrite Ew in Hw. injection Hw as ->.
  assert (Hn : (0 < length l)%nat) by (destruct l; [contradiction|simpl; lia]).
  pose proof (percentile_index_rank p (length l)) as Hrp.
  pose proof (percentile_index_rank q (length l)) as Hrq.
  pose proof (percentile_index_in_range p (length l) ltac:(lia) Hn).
  pose proof (percentile_index_in_range q (length l) ltac:(lia) Hn).
  eapply (Sorted_le_lookup _ (sort_Sorted l)); [|exact Hlv|exact Hlw].
  apply Z2Nat.inj_le; nia.
Qed.

Lemma percentile_of_member (l : list Z) (p v : Z) :
  percentile_of l p = Some v -> v ∈ l.
Proof.
  unfold percentile_of, array_get. intros H.
  destruct (_ <? 0); [discriminate H|].
  rewrite <- (sort_Permutation l). apply list_elem_of_lookup. eauto.
Qed.

(** The statistics as a function of the elements of [allDurations] and
    of the number of successful entries. *)
Lemma statistics_fields {Query : Type} (results : list (IterationResult Query))
    (h : heap) :
  let l := allDurations results in
  let k := Z.of_nat (length (successful results)) in
  (statistics results h).1
  = {| totalQueries := Z.of_nat (length l);
       successfulQueries := k;
       failedQueries := Z.of_nat (length l) - k;
       successRate := mul (div (of_Z k) (of_Z (Z.of_nat (length l)))) (of_Z 100);
       averageDuration := div (of_Z (fold_left Z.add l 0)) (of_Z (Z.of_nat (length l)));
       minDuration := Math_min l;
       maxDuration := Math_max l;
       p50Duration := percentile_of l 50;
       p90Duration := percentile_of l 90;
       p95Duration := percentile_of l 95;
       p99Duration := percentile_of l 99 |}.
Proof.
  intros l k. rewrite (proj1 (statistics_run results h)).
  apply statistics_over_run, lookup_insert_eq.
Qed.

Lemma allDurations_not_nil {Query : Type} (results : list (IterationResult Query)) :
  all_queries results <> [] -> allDurations results <> [].
Proof.
  unfold allDurations. destruct (all_queries results); [contradiction|discriminate].
Qed.

(** X10: in the statistics of a run with at least one entry, the minimum,
    the four percentiles and the maximum are in ascending order:
    min <= p50 <= p90 <= p95 <= p99 <= max, and each percentile is the
    duration of one of the entries. *)
Theorem statistics_ordered {Query : Type} (results : list (IterationResult Query))
    (h : heap) :
  all_queries results <> [] ->
  exists lo v50 v90 v95 v99 hi : Z,
    minDuration (statistics results h).1 = of_Z lo
    /\ p50Duration (statistics results h).1 = Some v50
    /\ p90Duration (statistics results h).1 = Some v90
    /\ p95Duration (statistics results h).1 = Some v95
    /\ p99Duration (statistics results h).1 = Some v99
    /\ maxDuration (statistics results h).1 = of_Z hi
    /\ lo <= v50 <= v90 /\ v90 <= v95 <= v99 /\ v99 <= hi
    /\ Forall (fun v => v ∈ allDurations results) [v50; v90; v95; v99].
Proof.
  intros Hne. apply allDurations_not_nil in Hne.
  rewrite statistics_fields.
  cbn [minDuration maxDuration p50Duration p90Duration p95Duration p99Duration].
  set (l := allDurations results) in *.
  destruct (percentile_of_rank l 50 Hne ltac:(lia)) as (v50 & E50 & _).
  destruct (percentile_of_rank l 90 Hne ltac:(lia)) as (v90 & E90 & _).
  destruct (percentile_of_rank l 95 Hne ltac:(lia)) as (v95 & E95 & _).
  destruct (percentile_of_rank l 99 Hne ltac:(lia)) as (v99 & E99 & _).
  pose proof (percentile_of_monotone l 50 90 v50 v90 Hne ltac:(lia) ltac:(lia) ltac:(lia) E50 E90).
  pose proof (percentile_of_monotone l 90 95 v90 v95 Hne ltac:(lia) ltac:(lia) ltac:(lia) E90 E95).
  pose proof (percentile_of_monotone l 95 99 v95 v99 Hne ltac:(lia) ltac:(lia) ltac:(lia) E95 E99).
  pose proof (percentile_of_member l 50 v50 E50) as M50.
  pose proof (percentile_of_member l 90 v90 E90) as M90.
  pose proof (percentile_of_member l 95 v95 E95) as M95.
  pose proof (percentile_of_member l 99 v99 E99) as M99.
  destruct l as [|x t] eqn:El; [contradiction|].
  destruct (fold_left_min_spec t x) as [_ Hmin].
  destruct (fold_left_max_spec t x) as [_ Hmax].
  exists (fold_left Z.min t x), v50, v90, v95, v99, (fold_left Z.max t x).
  cbn [Math_min Math_max].
  pose proof (Hmin v50 M50). pose proof (Hmax v99 M99).
  do 6 (split; [first [reflexivity | assumption]|]).
  split; [lia|]. split; [lia|]. split; [lia|].
  repeat (constructor; [assumption|]). constructor.
Qed.

Lemma statistics_ordered_witness :
  let entry := fun d : Z =>
    {| query := tt; success := true; duration := d; responseSize := Some 2%nat;
       hits := Some 0; took := Some 0; error := None |} in
  let results := [ {| iteration := 1; queries := [entry 30; entry 10] |};
                   {| iteration := 2; queries := [entry 20; entry 40] |} ] in
  exists lo v50 v90 v95 v99 hi : Z,
    minDuration (statistics results ∅).1 = of_Z lo
    /\ p50Duration (statistics results ∅).1 = Some v50
    /\ p90Duration (statistics results ∅).1 = Some v90
    /\ p95Duration (statistics results ∅).1 = Some v95
    /\ p99Duration (statistics results ∅).1 = Some v99
    /\ maxDuration (statistics results ∅).1 = of_Z hi
    /\ lo <= v50 <= v90 /\ v90 <= v95 <= v99 /\ v99 <= hi
    /\ Forall (fun v => v ∈ allDurations results) [v50; v90; v95; v99].
Proof.
  intros entry results.
  apply (statistics_ordered results ∅). discriminate.
Defined.

(** X11: in the statistics of a run with at least one entry the mean
    duration lies between the minimum and the maximum. *)
Theorem mean_between_min_and_max {Query : Type}
    (results : list (IterationResult Query)) (h : heap) :
  all_queries results <> [] ->
  exists (lo hi : Z) (mean : Q),
    minDuration (statistics results h).1 = of_Z lo
    /\ averageDuration (statistics results h).1 = Fin mean
    /\ maxDuration (statistics results h).1 = of_Z hi
    /\ (inject_Z lo <= mean)%Q
    /\ (mean <= inject_Z hi)%Q.
Proof.
  intros Hne. apply allDurations_not_nil in Hne.
  rewrite statistics_fields. cbn [minDuration maxDuration averageDuration].
  destruct (allDurations results) as [|x t] eqn:El; [contradiction|].
  destruct (fold_left_min_spec t x) as [_ Hmin].
  destruct (fold_left_max_spec t x) as [_ Hmax].
  set (lo := fold_left Z.min t x) in *. set (hi := fold_left Z.max t x) in *.
  destruct (sum_between (x :: t) lo hi
              (fun d Hd => conj (Hmin d Hd) (Hmax d Hd)) 0) as [Hlo Hhi].
  set (sum := fold_left Z.add (x :: t) 0) in *.
  exists lo, hi, (Qred (inject_Z sum / inject_Z (Z.of_nat (length (x :: t))))).
  cbn [Math_min Math_max]. split; [reflexivity|]. split; [reflexivity|].
  split; [reflexivity|].
  cbn [length] in *. rewrite Nat2Z.inj_succ in *.
  destruct (Z.succ (Z.of_nat (length t))) as [|n|n] eqn:En; try lia.
  rewrite Qred_correct. unfold Qle, Qdiv, Qmult, Qinv, inject_Z. simpl.
  split; lia.
Qed.

Lemma mean_between_min_and_max_witness :
  let entry := fun d : Z =>
    {| query := tt; success := false; duration := d; responseSize := None;
       hits := None; took := None; error := Some "timeout"%string |} in
  let results := [ {| iteration := 1; queries := [entry 30; entry 10; entry 35] |} ] in
  exists (lo hi : Z) (mean : Q),
    minDuration (statistics results ∅).1 = of_Z lo
    /\ averageDuration (statistics results ∅).1 = Fin mean
    /\ maxDuration (statistics results ∅).1 = of_Z hi
    /\ (inject_Z lo <= mean)%Q
    /\ (mean <= inject_Z hi)%Q.
Proof.
  intros entry results.
  apply (mean_between_min_and_max results ∅). discriminate.
Defined.

Lemma rate_between (k n : Z) :
  0 <= k <= n -> 0 < n ->
  exists r : Q,
    mul (div (of_Z k) (of_Z n)) (of_Z 100) = Fin r
    /\ (0 <= r)%Q /\ (r <= 100)%Q
    /\ ((r == 0)%Q <-> k = 0)
    /\ ((r == 100)%Q <-> k = n).
Proof.
  intros Hk Hn. destruct n as [|n|n]; try lia.
  unfold div, mul, of_Z. cbn [Qeq_bool inject_Z Qnum Qden Z.mul Z.eqb].
  eexists. split; [reflexivity|].
  rewrite !Qred_correct. unfold Qle, Qeq, Qdiv, Qmult, Qinv. simpl.
  repeat split; nia.
Qed.

(** X12: the counts of the statistics add up: every entry of the run is
    counted once, as successful or as failed, the successful ones are at
    most all, and when there is an entry the success rate is a number
    between 0 and 100, which is 0 exactly when no entry is successful
    and 100 exactly when all are. *)
Theorem statistics_counts_add_up {Query : Type}
    (results : list (IterationResult Query)) (h : heap) :
  totalQueries (statistics results h).1 = Z.of_nat (length (all_queries results))
  /\ totalQueries (statistics results h).1
     = successfulQueries (statistics results h).1 + failedQueries (statistics results h).1
  /\ 0 <= successfulQueries (statistics results h).1 <= totalQueries (statistics results h).1
  /\ 0 <= failedQueries (statistics results h).1
  /\ (all_queries results <> [] ->
      exists rate : Q,
        successRate (statistics results h).1 = Fin rate
        /\ (0 <= rate)%Q /\ (rate <= 100)%Q
        /\ ((rate == 0)%Q <-> successfulQueries (statistics results h).1 = 0)
        /\ ((rate == 100)%Q
            <-> successfulQueries (statistics results h).1
                = totalQueries (statistics results h).1)).
Proof.
  rewrite statistics_fields.
  cbn [totalQueries successfulQueries failedQueries successRate].
  assert (Hlen : length (allDurations results) = length (all_queries results))
    by apply length_map.
  assert (Hs : (length (successful results) <= length (all_queries results))%nat)
    by apply length_filter.
  rewrite Hlen.
  split; [reflexivity|]. split; [lia|]. split; [lia|]. split; [lia|].
  intros Hne. apply rate_between; [lia|].
  destruct (all_queries results); [contradiction|cbn; lia].
Qed.

Lemma statistics_counts_add_up_witness :
  let entry := fun (ok : bool) (d : Z) =>
    {| query := tt; success := ok; duration := d; responseSize := None;
       hits := None; took := None; error := None |} in
  let results := [ {| iteration := 1;
                      queries := [entry true 30; entry false 10; entry true 35] |} ] in
  exists rate : Q,
    successRate (statistics results ∅).1 = Fin rate
    /\ (0 <= rate)%Q /\ (rate <= 100)%Q
    /\ ((rate == 0)%Q <-> successfulQueries (statistics results ∅).1 = 0)
    /\ ((rate == 100)%Q
        <-> successfulQueries (statistics results ∅).1
            = totalQueries (statistics results ∅).1).
Proof.
  intros entry results.
  destruct (statistics_counts_add_up results ∅) as (_ & _ & _ & _ & Hrate).
  apply Hrate. discriminate.
Defined.

Section run.

Context {Query Id : Type}.
Variable query_id : Query -> Id.
Variable now : nat -> Z.
Variable search : nat -> Query -> Outcome.
Variable indexDocument : nat -> Query -> Outcome.
Variable getDocument : nat -> Id -> Outcome.
Variable null_hits_message : string.

(** Every entry of a run is the entry of one timed call, and there is one
    per query and iteration. *)
Lemma run_entries (testType : string) (qs : list Query) (iterations : nat) (u : Usage) :
  let results :=
    (run_load_test query_id now search indexDocument getDocument
       null_hits_message testType qs iterations u).1 in
  length (all_queries results) = (iterations * length qs)%nat
  /\ (forall entry, entry ∈ all_queries results ->
        exists (q : Query) (t k : nat),
          entry = (run_query query_id now search indexDocument getDocument
                     null_hits_message testType q {| ticks := t; calls := k |}).1).
Proof.
  intros results. unfold results, run_load_test.
  destruct (run_iterations_spec query_id now search indexDocument getDocument
              null_hits_message testType qs iterations 0 [] u)
    as (its & Hres & Hlen & _ & Hk).
  cbn [app] in Hres. rewrite Hres. clear Hres results.
  assert (Hit : forall it, it ∈ its ->
            length (queries it) = length qs
            /\ forall entry, entry ∈ queries it ->
                 exists (q : Query) (t k : nat),
                   entry = (run_query query_id now search indexDocument getDocument
                              null_hits_message testType q
                              {| ticks := t; calls := k |}).1).
  { intros it Hin. apply list_elem_of_lookup in Hin as [i Hi].
    assert (Hlt : (i < iterations)%nat)
      by (rewrite <- Hlen; eapply lookup_lt_Some; eauto).
    destruct (Hk i Hlt) as (it' & Hit' & _ & Hlenq & Hentries).
    rewrite Hi in Hit'. injection Hit' as <-. split; [exact Hlenq|].
    intros entry Hentry. apply list_elem_of_lookup in Hentry as [j Hj].
    assert (Hjlt : (j < length qs)%nat)
      by (rewrite <- Hlenq; eapply lookup_lt_Some; eauto).
    destruct (lookup_lt_is_Some_2 qs j Hjlt) as [q Hq].
    destruct (Hentries j q Hq) as [t Ht]. rewrite Hj in Ht. injection Ht as ->.
    eauto. }
  split.
  - rewrite <- Hlen. clear Hlen Hk. unfold all_queries.
    induction its as [|it its IH]; [reflexivity|].
    cbn [flat_map length]. rewrite length_app, IH.
    + rewrite (proj1 (Hit it ltac:(left))). lia.
    + intros it' Hin. apply Hit. right. exact Hin.
  - intros entry Hin. unfold all_queries in Hin.
    apply list_elem_of_In, in_flat_map in Hin as (it & Hin & Hentry).
    apply list_elem_of_In in Hin, Hentry.
    exact (proj2 (Hit it Hin) entry Hentry).
Qed.

Lemma all_success_filter (entries : list (QueryResult Query)) :
  (forall entry, entry ∈ entries -> success entry = true) ->
  filter (fun entry => success entry = true) entries = entries.
Proof.
  induction entries as [|e entries IH]; intros H; [reflexivity|].
  rewrite filter_cons. destruct (decide (success e = true)) as [_|E].
  - f_equal. apply IH. intros entry Hin. apply H. right. exact Hin.
  - exfalso. apply E, H. left.
Qed.

Lemma rate_all (n : Z) : 0 < n -> mul (div (of_Z n) (of_Z n)) (of_Z 100) = of_Z 100.
Proof.
  intros Hn. destruct n as [|n|n]; try lia.
  unfold div, mul, of_Z. cbn [Qeq_bool inject_Z Qnum Qden Z.mul Z.eqb].
  f_equal. transitivity (Qred 100); [|reflexivity].
  apply Qred_complete. rewrite Qred_correct.
  unfold Qeq, Qdiv, Qmult, Qinv. simpl. lia.
Qed.


End run.


(** X14: with zero iterations (and a non-empty list of queries) the
    route has two interactions with its environment, the two readings
    of [new Date()] for the time stamps: it calls no service and takes
    no reading for a duration.  It still answers with a body: the time
    stamps, no results, and statistics that count nothing, whose success
    rate and mean are NaN, whose minimum is +Infinity and maximum
    -Infinity, and whose percentiles are [undefined]. *)
Theorem zero_iterations_statistics {Query Id : Type} (query_id : Query -> Id)
    (clock : nat -> Z) (search indexDocument : nat -> Query -> Outcome)
    (getDocument : nat -> Id -> Outcome) (null_hits_message testType : string)
    (concurrent : Z) (q : Query) (qs : list Query) (n : nat) (h : heap) :
  exists h' : heap,
    LoadTest.load_test_route query_id clock search indexDocument getDocument
      null_hits_message testType concurrent (q :: qs) 0 n h
    = (LoadTest.Json
         {| LoadTest.body_testType := testType;
            LoadTest.body_iterations := 0;
            LoadTest.body_concurrent := concurrent;
            LoadTest.body_totalQueries := Z.of_nat (length (q :: qs));
            LoadTest.body_startTime := clock n;
            LoadTest.body_results := [];
            LoadTest.body_endTime := clock (S n);
            LoadTest.body_statistics :=
              {| totalQueries := 0; successfulQueries := 0; failedQueries := 0;
                 successRate := NaN; averageDuration := NaN;
                 minDuration := PInf; maxDuration := NInf;
                 p50Duration := None; p90Duration := None;
                 p95Duration := None; p99Duration := None |} |},
       S (S n), h')
    /\ preserved h h'.
Proof.
  unfold LoadTest.load_test_route, LoadTest.new_Date.
  cbn [LoadTest.run_iterations]. unfold ret at 1.
  pose proof (statistics_fields (@nil (IterationResult Query)) h) as Hs.
  pose proof (proj1 (proj2 (statistics_run (@nil (IterationResult Query)) h))) as Hp.
  destruct (statistics [] h) as [stats h']. cbn [fst snd] in Hs, Hp.
  exists h'. split; [|exact Hp]. rewrite Hs. reflexivity.
Qed.

(** X15: the edge cases of [calculatePercentile]: on an empty array and
    for a percentile of 0 or less it returns [undefined]; the percentile
    100 of a non-empty array is its greatest element; and every
    percentile from above 0 to 100 of a one-element array is that
    element. *)
Theorem percentile_edge_cases (h : heap) (arr : loc) (l : list Z) (p : Z) :
  h !! arr = Some l ->
  (l = [] -> (calculatePercentile arr p h).1 = None)
  /\ (p <= 0 -> (calculatePercentile arr p h).1 = None)
  /\ (l <> [] -> p = 100 ->
      exists v, (calculatePercentile arr p h).1 = Some v
                /\ v ∈ l /\ forall d, d ∈ l -> d <= v)
  /\ (forall x, l = [x] -> 0 < p <= 100 -> (calculatePercentile arr p h).1 = Some x).
Proof.
  intros Harr. rewrite (calculatePercentile_run h arr l p Harr). cbn [fst].
  split; [|split; [|split]].
  - intros ->. unfold percentile_of, array_get.
    destruct (_ <? 0); reflexivity.
  - intros Hp. unfold percentile_of, array_get.
    pose proof (percentile_index_rank p (length (merge_sort ascending l))) as Hr.
    destruct (Z.ltb_spec (percentile_index p (length (merge_sort ascending l))) 0);
      [reflexivity|nia].
  - intros Hne ->.
    destruct (percentile_of_rank l 100 Hne ltac:(lia)) as (v & Ev & Hv).
    exists v. split; [exact Ev|]. split; [exact (percentile_of_member l 100 v Ev)|].
    intros d Hd. rewrite <- (sort_Permutation l) in Hd.
    apply list_elem_of_lookup in Hd as [j Hj].
    pose proof (lookup_lt_Some _ _ _ Hj) as Hjlt. rewrite sort_length in Hjlt.
    pose proof (percentile_index_rank 100 (length l)) as Hr.
    eapply (Sorted_le_lookup _ (sort_Sorted l)); [|exact Hj|exact Hv]. lia.
  - intros x -> Hp.
    destruct (percentile_of_rank [x] p ltac:(discriminate) Hp) as (v & Ev & _).
    rewrite Ev. f_equal.
    apply percentile_of_member, list_elem_of_singleton in Ev. exact Ev.
Qed.

Lemma percentile_edge_cases_witness :
  (calculatePercentile 1%positive 0 {[ 1%positive := [30; 10; 20] ]}).1 = None
  /\ exists v, (calculatePercentile 1%positive 100 {[ 1%positive := [30; 10; 20] ]}).1
               = Some v
               /\ v ∈ [30; 10; 20] /\ forall d, d ∈ [30; 10; 20] -> d <= v.
Proof.
  assert (Harr : ({[ 1%positive := [30; 10; 20] ]} : heap) !! 1%positive
                 = Some [30; 10; 20]) by reflexivity.
  split.
  - apply (proj1 (proj2 (percentile_edge_cases _ _ _ 0 Harr))). lia.
  - apply (proj1 (proj2 (proj2 (percentile_edge_cases _ _ _ 100 Harr)))).
    + discriminate.
    + reflexivity.
Defined.

End LoadTestStatistics.

(** ** GET /api/performance/benchmark *)

Module BenchmarkRoute.
Import Performance Benchmark.

Section run.

Context {Query : Type}.
Variable now : nat -> Z.
Variable search : nat -> Query -> Outcome.
Variable null_took_message : string.
Variable undefined_total_message : string.

Abbreviation one_test :=
  (run_test now search null_took_message undefined_total_message).
Abbreviation all_tests :=
  (run_tests now search null_took_message undefined_total_message).

Lemma run_test_calls (test : string * Query) (u : Usage) :
  calls (one_test test u).2 = S (calls u).
Proof.
  unfold run_test, bind, ret, Date_now, call_search. cbn.
  destruct (search (calls u) test.2) as [[r|]|m]; cbn; [|reflexivity|reflexivity].
  destruct (response_hits_total_value r); reflexivity.
Qed.

(** The entry of a test carries the name of the test; it is a failure
    with the error's message when the call is rejected, and a success
    only when the call gives a response with a hit count. *)
Lemma run_test_entry (test : string * Query) (t k : nat) :
  let entry := (one_test test {| ticks := t; calls := k |}).1 in
  name entry = test.1
  /\ (forall message, search k test.2 = Rejected message ->
        entry = failed test.1 (now (S t) - now t) message)
  /\ (success entry = true ->
        exists r total,
          search k test.2 = Resolved (Some r)
          /\ response_hits_total_value r = Some total
          /\ totalHits entry = Some total
          /\ duration entry = now (S t) - now t).
Proof.
  unfold run_test, bind, ret, Date_now, call_search. cbn.
  destruct (search k test.2) as [[r|]|m]; cbn.
  - destruct (response_hits_total_value r) as [total|] eqn:E; cbn.
    + split; [reflexivity|]. split; [discriminate|]. intros _.
      exists r, total. repeat split. exact E.
    + split; [reflexivity|]. split; discriminate.
  - split; [reflexivity|]. split; discriminate.
  - split; [reflexivity|]. split; [|discriminate]. intros message [= <-]. reflexivity.
Qed.

Lemma usage_calls_0 (u : Usage) : {| ticks := ticks u; calls := calls u + 0 |} = u.
Proof. destruct u. cbn. f_equal. lia. Qed.

Lemma run_tests_spec (benchmarkTests : list (string * Query)) :
  forall (acc : list TestResult) (u : Usage),
  exists entries : list TestResult,
    (all_tests benchmarkTests acc u).1 = acc ++ entries
    /\ length entries = length benchmarkTests
    /\ calls (all_tests benchmarkTests acc u).2 = (calls u + length benchmarkTests)%nat
    /\ (forall (j : nat) (test : string * Query), benchmarkTests !! j = Some test ->
          exists t : nat,
            entries !! j
            = Some (one_test test {| ticks := t; calls := calls u + j |}).1).
Proof.
  induction benchmarkTests as [|test rest IH]; intros acc u.
  - exists []. cbn. rewrite app_nil_r. repeat split; try lia.
    intros j test Hj. discriminate Hj.
  - cbn [run_tests]. unfold bind.
    pose proof (run_test_calls test u) as Hc.
    destruct (one_test test u) as [entry u1] eqn:E. cbn [fst snd] in Hc.
    destruct (IH (acc ++ [entry]) u1) as (entries & Hres & Hlen & Hcalls & Hj).
    exists (entry :: entries). rewrite Hres, Hcalls, Hc.
    split; [rewrite <- app_assoc; reflexivity|].
    split; [cbn; lia|]. split; [cbn; lia|].
    intros [|j] test' Hq; cbn in Hq.
    + injection Hq as <-. exists (ticks u). rewrite usage_calls_0, E. reflexivity.
    + destruct (Hj j test' Hq) as [t Hentry]. exists t.
      change ((entry :: entries) !! S j) with (entries !! j).
      rewrite Hentry, Hc. do 3 f_equal. f_equal. lia.
Qed.

(** X16: the benchmark runs every test whatever the earlier ones did:
    the answer has one entry per test, in the order of the tests, each
    under the name of its test; the service is called once per test;
    the summary counts every entry once, as successful or failed; and
    the entry of a rejected call is a failure with the error's message. *)
Theorem benchmark_runs_every_test (benchmarkTests : list (string * Query)) (u : Usage) :
  let run := benchmark now search null_took_message undefined_total_message
               benchmarkTests u in
  map name run.1.1 = map fst benchmarkTests
  /\ calls run.2 = (calls u + length benchmarkTests)%nat
  /\ totalTests run.1.2 = Z.of_nat (length benchmarkTests)
  /\ totalTests run.1.2 = successfulTests run.1.2 + failedTests run.1.2
  /\ 0 <= successfulTests run.1.2 <= totalTests run.1.2
  /\ (forall (j : nat) (test : string * Query) (message : string),
        benchmarkTests !! j = Some test ->
        search (calls u + j) test.2 = Rejected message ->
        exists entry,
          run.1.1 !! j = Some entry
          /\ success entry = false
          /\ error entry = Some message).
Proof.
  intros run. unfold run, benchmark, bind, ret.
  destruct (run_tests_spec benchmarkTests [] u) as (entries & Hres & Hlen & Hcalls & Hj).
  destruct (all_tests benchmarkTests [] u) as [tests u']. cbn [fst snd app] in *.
  subst tests.
  assert (Hnames : map name entries = map fst benchmarkTests).
  { apply list_eq. intros j. rewrite !list_lookup_fmap.
    destruct (benchmarkTests !! j) as [test|] eqn:Et.
    - destruct (Hj j test Et) as [t Ht]. rewrite Ht. cbn. f_equal.
      apply (run_test_entry test t (calls u + j)).
    - apply lookup_ge_None in Et. rewrite <- Hlen in Et.
      apply lookup_ge_None in Et. rewrite Et. reflexivity. }
  split; [exact Hnames|]. split; [exact Hcalls|].
  unfold summary. cbn [totalTests successfulTests failedTests].
  pose proof (length_filter (fun test => success test = true) entries) as Hf.
  rewrite Hlen in *.
  split; [reflexivity|]. split; [lia|]. split; [lia|].
  intros j test message Et Hm. destruct (Hj j test Et) as [t Ht].
  eexists. split; [exact Ht|].
  rewrite (proj1 (proj2 (run_test_entry test t (calls u + j))) message Hm).
  split; reflexivity.
Qed.

(** When the service rejects every call, no entry is a success. *)
Lemma rejected_tests_fail (benchmarkTests : list (string * Query)) (u : Usage) :
  (forall k q, exists message, search k q = Rejected message) ->
  forall entry, entry ∈ (all_tests benchmarkTests [] u).1 -> success entry = false.
Proof.
  intros Hrej entry Hin.
  destruct (run_tests_spec benchmarkTests [] u) as (entries & Hres & Hlen & _ & Hj).
  rewrite Hres in Hin. cbn [app] in Hin.
  apply list_elem_of_lookup in Hin as [j Hjin].
  assert (Hlt : (j < length benchmarkTests)%nat)
    by (rewrite <- Hlen; eapply lookup_lt_Some; eauto).
  destruct (lookup_lt_is_Some_2 _ _ Hlt) as [test Et].
  destruct (Hj j test Et) as [t Ht]. rewrite Hjin in Ht. injection Ht as ->.
  destruct (Hrej (calls u + j)%nat test.2) as [message Hm].
  rewrite (proj1 (proj2 (run_test_entry test t (calls u + j))) message Hm).
  reflexivity.
Qed.

End run.

Lemma benchmark_runs_every_test_witness :
  let now := fun n : nat => 3 * Z.of_nat n in
  let search := fun (k : nat) (_ : nat) =>
    if (k =? 1)%nat then Rejected "timeout"
    else Resolved (Some {| response_json_length := 80;
                           response_hits_total_value := Some 7;
                           response_took := Some 1 |}) in
  let run := benchmark now search "Cannot read properties of null (reading 'took')"
               "Cannot read properties of undefined (reading 'total')"
               [("Simple Match Query", 1%nat); ("Range Query", 2%nat);
                ("Aggregation Query", 3%nat)]%string
               {| ticks := 0; calls := 0 |} in
  exists entry,
    run.1.1 !! 1%nat = Some entry
    /\ success entry = false
    /\ error entry = Some "timeout"%string.
Proof.
  intros now search run.
  destruct (benchmark_runs_every_test now search
              "Cannot read properties of null (reading 'took')"
              "Cannot read properties of undefined (reading 'total')"
              [("Simple Match Query", 1%nat); ("Range Query", 2%nat);
               ("Aggregation Query", 3%nat)]%string
              {| ticks := 0; calls := 0 |}) as (_ & _ & _ & _ & _ & Hrej).
  exact (Hrej 1%nat ("Range Query"%string, 2%nat) "timeout"%string eq_refl eq_refl).
Defined.

Lemma successful_durations (tests : list TestResult) (d : Z) :
  d ∈ map duration (filter (fun test => success test = true) tests)
  <-> exists test, test ∈ tests /\ success test = true /\ duration test = d.
Proof.
  rewrite list_elem_of_In, in_map_iff. split.
  - intros (test & Hd & Hin). apply list_elem_of_In, list_elem_of_filter in Hin.
    exists test. tauto.
  - intros (test & Hin & Hs & Hd). exists test. split; [exact Hd|].
    apply list_elem_of_In, list_elem_of_filter. tauto.
Qed.

(** X17: the summary of the benchmark is computed over the successful
    tests only: when a test succeeded, the minimum and the maximum are
    durations of successful tests, every successful duration lies
    between them, and so does the mean; the duration of a failed test
    plays no part. *)
Theorem summary_over_successful_tests (tests : list TestResult) (test : TestResult) :
  test ∈ tests ->
  success test = true ->
  exists (lo hi : Z) (mean : Q),
    minDuration (summary tests) = of_Z lo
    /\ maxDuration (summary tests) = of_Z hi
    /\ averageDuration (summary tests) = Fin mean
    /\ (exists fastest, fastest ∈ tests /\ success fastest = true
                        /\ duration fastest = lo)
    /\ (exists slowest, slowest ∈ tests /\ success slowest = true
                        /\ duration slowest = hi)
    /\ (forall other, other ∈ tests -> success other = true ->
                      lo <= duration other <= hi)
    /\ (inject_Z lo <= mean)%Q /\ (mean <= inject_Z hi)%Q.
Proof.
  intros Hin Hs. unfold summary. cbn [minDuration maxDuration averageDuration].
  pose proof (successful_durations tests) as Hd.
  set (durations := map duration (filter (fun t => success t = true) tests)) in *.
  assert (Hne : duration test ∈ durations) by (apply Hd; eauto).
  destruct durations as [|x t] eqn:El; [apply elem_of_nil in Hne; contradiction|].
  destruct (BenchmarkHarness.fold_left_min_spec t x) as [Hlo Hmin].
  destruct (BenchmarkHarness.fold_left_max_spec t x) as [Hhi Hmax].
  set (lo := fold_left Z.min t x) in *. set (hi := fold_left Z.max t x) in *.
  destruct (BenchmarkHarness.sum_between (x :: t) lo hi
              (fun d Hd => conj (Hmin d Hd) (Hmax d Hd)) 0) as [Hslo Hshi].
  set (sum := fold_left Z.add (x :: t) 0) in *.
  exists lo, hi, (Qred (inject_Z sum / inject_Z (Z.of_nat (length (x :: t))))).
  cbn [Math_min Math_max].
  split; [reflexivity|]. split; [reflexivity|]. split; [reflexivity|].
  split; [apply Hd, Hlo|]. split; [apply Hd, Hhi|]. split.
  - intros other Ho Hso.
    assert (Hod : duration other ∈ x :: t) by (apply Hd; eauto).
    split; [apply Hmin|apply Hmax]; exact Hod.
  - cbn [length] in *. rewrite Nat2Z.inj_succ in *.
    destruct (Z.succ (Z.of_nat (length t))) as [|n|n] eqn:En; try lia.
    rewrite Qred_correct. unfold Qle, Qdiv, Qmult, Qinv, inject_Z. simpl.
    split; lia.
Qed.

Lemma summary_over_successful_tests_witness :
  let ok := {| name := "Simple Match Query"; success := true; duration := 12;
               elasticsearchTook := Some 3; totalHits := Some 40;
               responseSize := Some 900%nat; error := None |} in
  let slow_failure := {| name := "Range Query"; success := false; duration := 30000;
                         elasticsearchTook := None; totalHits := None;
                         responseSize := None; error := Some "Request Timeout"%string |} in
  exists (lo hi : Z) (mean : Q),
    minDuration (summary [ok; slow_failure]) = of_Z lo
    /\ maxDuration (summary [ok; slow_failure]) = of_Z hi
    /\ averageDuration (summary [ok; slow_failure]) = Fin mean
    /\ (exists fastest, fastest ∈ [ok; slow_failure] /\ success fastest = true
                        /\ duration fastest = lo)
    /\ (exists slowest, slowest ∈ [ok; slow_failure] /\ success slowest = true
                        /\ duration slowest = hi)
    /\ (forall other, other ∈ [ok; slow_failure] -> success other = true ->
                      lo <= duration other <= hi)
    /\ (inject_Z lo <= mean)%Q /\ (mean <= inject_Z hi)%Q.
Proof.
  intros ok slow_failure.
  apply (summary_over_successful_tests [ok; slow_failure] ok).
  - left.
  - reflexivity.
Defined.

Lemma no_successful_test (tests : list TestResult) :
  (forall test, test ∈ tests -> success test = false) ->
  filter (fun test => success test = true) tests = [].
Proof.
  induction tests as [|e tests IH]; intros H; [reflexivity|].
  rewrite filter_cons. destruct (decide (success e = true)) as [E|_].
  - rewrite (H e) in E by left. discriminate E.
  - apply IH. intros test Hin. apply H. right. exact Hin.
Qed.

(** X18: when the engine rejects every call, the benchmark still answers
    with its entries and a summary, in which nothing is successful, the
    mean duration is NaN, the minimum +Infinity and the maximum
    -Infinity: unlike the load test, it takes no duration of a failed
    call into account. *)
Theorem unreachable_engine_summary {Query : Type} (now : nat -> Z)
    (search : nat -> Query -> Outcome)
    (null_took_message undefined_total_message : string)
    (benchmarkTests : list (string * Query)) (u : Usage) :
  (forall k q, exists message, search k q = Rejected message) ->
  (benchmark now search null_took_message undefined_total_message
     benchmarkTests u).1.2
  = {| totalTests := Z.of_nat (length benchmarkTests);
       successfulTests := 0;
       failedTests := Z.of_nat (length benchmarkTests);
       averageDuration := NaN;
       minDuration := PInf;
       maxDuration := NInf |}.
Proof.
  intros Hrej. unfold benchmark, bind, ret.
  pose proof (rejected_tests_fail now search null_took_message
                undefined_total_message benchmarkTests u Hrej) as Hfail.
  destruct (run_tests_spec now search null_took_message undefined_total_message
              benchmarkTests [] u) as (entries & Hres & Hlen & _ & _).
  destruct (run_tests now search null_took_message undefined_total_message
              benchmarkTests [] u) as [tests u'].
  cbn [fst snd app] in *. subst tests.
  unfold summary. rewrite (no_successful_test entries Hfail), Hlen.
  cbn. f_equal. lia.
Qed.

Lemma unreachable_engine_summary_witness :
  (benchmark (fun n : nat => 5 * Z.of_nat n)
     (fun (_ : nat) (_ : nat) => Rejected "No living connections")
     "Cannot read properties of null (reading 'took')"
     "Cannot read properties of undefined (reading 'total')"
     [("Simple Match Query", 1%nat); ("Range Query", 2%nat)]%string
     {| ticks := 0; calls := 0 |}).1.2
  = {| totalTests := 2; successfulTests := 0; failedTests := 2;
       averageDuration := NaN; minDuration := PInf; maxDuration := NInf |}.
Proof.
  apply (unreachable_engine_summary (fun n : nat => 5 * Z.of_nat n)
           (fun (_ : nat) (_ : nat) => Rejected "No living connections")).
  intros k q. eexists. reflexivity.
Defined.

End BenchmarkRoute.

(** ** The search service and the product routes *)

Module ServiceAndProducts.
Import ElasticsearchService Products.

Lemma bulk_body_fold {Id Doc : Type} (indexName : string) (doc_id : Doc -> Id)
    (documents : list Doc) : forall body,
  fold_left
    (fun body doc => (body ++ [IndexAction indexName (doc_id doc)]) ++ [Document doc])
    documents body
  = body ++ flat_map (fun doc => [IndexAction indexName (doc_id doc); Document doc])
              documents.
Proof.
  induction documents as [|doc documents IH]; intros body; cbn [fold_left flat_map].
  - rewrite app_nil_r. reflexivity.
  - rewrite IH, <- !app_assoc. reflexivity.
Qed.

(** X19: the body of a bulk request holds two lines per document, in the
    order of the documents: at position 2 i the index action with the
    index name and the id of the i-th document, and right after it, at
    position 2 i + 1, that document. *)
Theorem bulk_body_pairs {Id Doc : Type} (indexName : string) (doc_id : Doc -> Id)
    (documents : list Doc) :
  length (bulk_body indexName doc_id documents) = (2 * length documents)%nat
  /\ (forall (i : nat) (doc : Doc), documents !! i = Some doc ->
        bulk_body indexName doc_id documents !! (2 * i)%nat
          = Some (IndexAction indexName (doc_id doc))
        /\ bulk_body indexName doc_id documents !! (2 * i + 1)%nat
          = Some (Document doc)).
Proof.
  unfold bulk_body. rewrite bulk_body_fold. cbn [app].
  induction documents as [|d documents [IHlen IH]]; cbn [flat_map length app].
  - split; [reflexivity|]. intros i doc H. discriminate H.
  - split; [rewrite IHlen; lia|].
    intros [|i] doc Hi; cbn in Hi.
    + injection Hi as <-. split; reflexivity.
    + destruct (IH i doc Hi) as [H0 H1].
      replace (2 * S i)%nat with (S (S (2 * i))) by lia.
      replace (S (S (2 * i)) + 1)%nat with (S (S (2 * i + 1))) by lia.
      split; assumption.
Qed.

Lemma bulk_body_pairs_witness :
  bulk_body "products" (fun doc : string * Z => fst doc)
    [("p1"%string, 10); ("p2"%string, 20)] !! (2 * 1)%nat
  = Some (IndexAction "products" "p2"%string)
  /\ bulk_body "products" (fun doc : string * Z => fst doc)
       [("p1"%string, 10); ("p2"%string, 20)] !! (2 * 1 + 1)%nat
     = Some (Document ("p2"%string, 20)).
Proof.
  exact (proj2 (bulk_body_pairs "products" (fun doc : string * Z => fst doc)
                  [("p1"%string, 10); ("p2"%string, 20)])
           1%nat ("p2"%string, 20) eq_refl).
Defined.

(** X20: the routes that read and delete one product.  The answer is 404
    exactly when the engine's client failed with status 404 or the value
    the service returned does not count as true: a response of
    [client.get] without a [_source], or with one that is [null] or
    falsy, is answered with 404 as well.  Any other failure of the
    client is answered with 500 and the client's message, and a value
    that counts as true with 200: the document, or the message of the
    deletion. *)
Theorem not_found_iff_client_404 {Source Response : Type}
    (truthy_source : Source -> bool) (truthy_response : Response -> bool)
    (client_get : Result (Nullable Source))
    (client_delete : Result (Nullable Response)) :
  (get_product truthy_source client_get = Error 404 "Product not found"
   <-> (exists e, client_get = Throws e /\ status e = Some 404)
       \/ (exists v, client_get = Returns v /\ to_boolean truthy_source v = false))
  /\ (delete_product truthy_response client_delete = Error 404 "Product not found"
      <-> (exists e, client_delete = Throws e /\ status e = Some 404)
          \/ (exists v, client_delete = Returns v
                        /\ to_boolean truthy_response v = false))
  /\ (forall e, client_get = Throws e -> status e <> Some 404 ->
        get_product truthy_source client_get = Error 500 (message e))
  /\ (forall e, client_delete = Throws e -> status e <> Some 404 ->
        delete_product truthy_response client_delete = Error 500 (message e))
  /\ (forall v, client_get = Returns v -> to_boolean truthy_source v = true ->
        get_product truthy_source client_get = Json 200 v)
  /\ (forall v, client_delete = Returns v -> to_boolean truthy_response v = true ->
        delete_product truthy_response client_delete
        = Json 200 "Product deleted successfully"%string).
Proof.
  unfold get_product, delete_product, getDocument, deleteDocument.
  split; [|split; [|repeat split]].
  - destruct client_get as [v|e].
    + destruct (to_boolean truthy_source v) eqn:E; cbn [negb].
      * split; [discriminate|]. intros [(e & [=] & _)|(v' & [= <-] & E')]. congruence.
      * split; [eauto|reflexivity].
    + destruct (bool_decide_reflect (status e = Some 404)) as [E|E].
      * cbn. split; [eauto|reflexivity].
      * split; [discriminate|]. intros [(e' & [= <-] & E')|(v & [=] & _)]. contradiction.
  - destruct client_delete as [v|e].
    + destruct (to_boolean truthy_response v) eqn:E; cbn [negb].
      * split; [discriminate|]. intros [(e & [=] & _)|(v' & [= <-] & E')]. congruence.
      * split; [eauto|reflexivity].
    + destruct (bool_decide_reflect (status e = Some 404)) as [E|E].
      * cbn. split; [eauto|reflexivity].
      * split; [discriminate|]. intros [(e' & [= <-] & E')|(v & [=] & _)]. contradiction.
  - intros e -> E. rewrite bool_decide_eq_false_2 by exact E. reflexivity.
  - intros e -> E. rewrite bool_decide_eq_false_2 by exact E. reflexivity.
  - intros v -> E. rewrite E. reflexivity.
  - intros v -> E. rewrite E. reflexivity.
Qed.

Lemma not_found_iff_client_404_witness :
  get_product (fun _ : unit => true)
    (Throws {| status := Some 503; message := "Service Unavailable" |})
  = Error 500 "Service Unavailable"
  /\ get_product (fun _ : unit => true) (Returns Undefined)
     = Error 404 "Product not found".
Proof.
  destruct (not_found_iff_client_404 (fun _ : unit => true) (fun _ : unit => true)
              (Throws {| status := Some 503; message := "Service Unavailable" |})
              (Returns Null))
    as (_ & _ & H500 & _).
  destruct (not_found_iff_client_404 (fun _ : unit => true) (fun _ : unit => true)
              (Returns Undefined) (Returns Null))
    as (H404 & _).
  split.
  - apply (H500 _ eq_refl). discriminate.
  - apply H404. right. exists Undefined. split; reflexivity.
Defined.

Section documents.

Context {Value : Type}.
Variable VString : string -> Value.

(** X21: a created product has the id of the request body when the body
    has one, and the generated one otherwise; its two time stamps are
    always the new ones, whatever the body says; and every other key of
    the body is kept with its value. *)
Theorem new_product_keys (uuid : string) (body : gmap string Value)
    (createdAt updatedAt : string) :
  let product := new_product VString uuid body createdAt updatedAt in
  product !! "id"%string = Some (default (VString uuid) (body !! "id"%string))
  /\ product !! "createdAt"%string = Some (VString createdAt)
  /\ product !! "updatedAt"%string = Some (VString updatedAt)
  /\ (forall key : string,
        key ∉ ["id"; "createdAt"; "updatedAt"]%string ->
        product !! key = body !! key).
Proof.
  intros product. unfold product, new_product.
  split; [|split; [|split]].
  - rewrite !lookup_insert_ne by discriminate. rewrite lookup_union.
    rewrite lookup_singleton_eq. destruct (body !! "id"%string); reflexivity.
  - rewrite lookup_insert_ne by discriminate. apply lookup_insert_eq.
  - apply lookup_insert_eq.
  - intros key Hkey.
    assert (key <> "id"%string /\ key <> "createdAt"%string
            /\ key <> "updatedAt"%string) as (H1 & H2 & H3).
    { repeat split; intros ->; apply Hkey; repeat constructor. }
    rewrite !lookup_insert_ne by congruence. rewrite lookup_union.
    rewrite lookup_singleton_ne by congruence.
    destruct (body !! key); reflexivity.
Qed.

(** X22: an updated product always carries the id of the URL, whatever
    id the body has, and the new [updatedAt]; the other keys are those
    of the body, so a [createdAt] is there only when the body has it. *)
Theorem updated_product_keys (id : string) (body : gmap string Value)
    (updatedAt : string) :
  let product := updatedProduct VString id body updatedAt in
  product !! "id"%string = Some (VString id)
  /\ product !! "updatedAt"%string = Some (VString updatedAt)
  /\ (forall key : string,
        key ∉ ["id"; "updatedAt"]%string -> product !! key = body !! key).
Proof.
  intros product. unfold product, updatedProduct.
  split; [|split].
  - rewrite lookup_insert_ne by discriminate. apply lookup_insert_eq.
  - apply lookup_insert_eq.
  - intros key Hkey.
    assert (key <> "id"%string /\ key <> "updatedAt"%string) as (H1 & H2).
    { split; intros ->; apply Hkey; repeat constructor. }
    rewrite !lookup_insert_ne by congruence. reflexivity.
Qed.

End documents.

Lemma new_product_keys_witness :
  let body : gmap string string :=
    {[ "id"%string := "sku-1"%string; "name"%string := "Lamp"%string;
       "createdAt"%string := "1999-01-01"%string ]} in
  new_product (fun s => s) "generated-uuid" body "now-1" "now-2" !! "name"%string
  = body !! "name"%string.
Proof.
  intros body.
  apply (proj2 (proj2 (proj2 (new_product_keys (fun s => s) "generated-uuid" body
                                "now-1" "now-2")))).
  intros H. repeat (apply elem_of_cons in H as [H|H]; [discriminate H|]).
  apply elem_of_nil in H. exact H.
Defined.

Lemma updated_product_keys_witness :
  let body : gmap string string :=
    {[ "id"%string := "other"%string; "name"%string := "Lamp"%string ]} in
  updatedProduct (fun s => s) "sku-1" body "now" !! "name"%string
  = body !! "name"%string.
Proof.
  intros body.
  apply (proj2 (proj2 (updated_product_keys (fun s => s) "sku-1" body "now"))).
  intros H. repeat (apply elem_of_cons in H as [H|H]; [discriminate H|]).
  apply elem_of_nil in H. exact H.
Defined.

End ServiceAndProducts.

(** ** The calls of the load test *)

Module LoadTestRun.
Import Performance.

Section run.

Context {Query Id : Type}.
Variable query_id : Query -> Id.
Variable now : nat -> Z.
Variable search : nat -> Query -> Outcome.
Variable indexDocument : nat -> Query -> Outcome.
Variable getDocument : nat -> Id -> Outcome.
Variable null_hits_message : string.

(** X23: when the readings of the clock never go back, no entry of a
    run has a negative duration. *)
Theorem durations_not_negative
    (testType : string) (qs : list Query) (iterations : nat) (u : Usage) :
  (forall n, now n <= now (S n)) ->
  forall entry,
    entry ∈ all_queries
              (run_load_test query_id now search indexDocument getDocument
                 null_hits_message testType qs iterations u).1 ->
    0 <= duration entry.
Proof.
  intros Hclock entry Hin.
  destruct (LoadTestStatistics.run_entries query_id now search indexDocument
              getDocument null_hits_message testType qs iterations u)
    as [_ Hentries].
  destruct (Hentries entry Hin) as (q & t & k & ->).
  pose proof (Hclock t). pose proof (Hclock (S t)).
  pose proof (BenchmarkHarness.run_query_entry query_id now search indexDocument
                getDocument null_hits_message testType q t k)
    as (_ & Hrej & Hnull & Hok).
  destruct (service_outcome query_id search indexDocument getDocument testType q k)
    as [[r|]|m].
  - rewrite (Hok r eq_refl). cbn. lia.
  - rewrite (Hnull eq_refl). cbn. lia.
  - rewrite (Hrej m eq_refl). cbn. lia.
Qed.

Lemma unknown_type_outcome (testType : string) (q : Query) (k : nat) :
  testType ∉ ["index"; "get"]%string ->
  service_outcome query_id search indexDocument getDocument testType q k
  = service_outcome query_id search indexDocument getDocument "search" q k.
Proof.
  intros Hnot. unfold service_outcome.
  destruct (String.eqb_spec testType "search"); [reflexivity|].
  destruct (String.eqb_spec testType "index") as [E|_];
    [exfalso; apply Hnot; rewrite E; repeat constructor|].
  destruct (String.eqb_spec testType "get") as [E|_];
    [exfalso; apply Hnot; rewrite E; repeat constructor|].
  reflexivity.
Qed.

(** X24: a test type that is neither 'index' nor 'get' is run as a
    search: the run is, entry for entry, the run of the type 'search'. *)
Theorem unknown_test_type_runs_search
    (testType : string) (qs : list Query) (iterations : nat) (u : Usage) :
  testType ∉ ["index"; "get"]%string ->
  run_load_test query_id now search indexDocument getDocument null_hits_message
    testType qs iterations u
  = run_load_test query_id now search indexDocument getDocument null_hits_message
      "search" qs iterations u.
Proof.
  intros Hnot.
  assert (Hq : forall q u,
            run_query query_id now search indexDocument getDocument
              null_hits_message testType q u
            = run_query query_id now search indexDocument getDocument
                null_hits_message "search" q u).
  { intros q u0. unfold run_query, bind, call_service, Date_now. cbn.
    rewrite (unknown_type_outcome testType q (calls u0) Hnot). reflexivity. }
  assert (Hqs : forall qs acc u,
            run_queries query_id now search indexDocument getDocument
              null_hits_message testType qs acc u
            = run_queries query_id now search indexDocument getDocument
                null_hits_message "search" qs acc u).
  { intros qs0. induction qs0 as [|q rest IH]; intros acc u0; [reflexivity|].
    cbn [run_queries]. unfold bind. rewrite Hq.
    destruct (run_query _ _ _ _ _ _ "search" q u0) as [entry u1]. apply IH. }
  assert (Hits : forall n i acc u,
            run_iterations query_id now search indexDocument getDocument
              null_hits_message testType qs n i acc u
            = run_iterations query_id now search indexDocument getDocument
                null_hits_message "search" qs n i acc u).
  { intros n. induction n as [|n IH]; intros i acc u0; [reflexivity|].
    cbn [run_iterations]. unfold bind. rewrite Hqs.
    destruct (run_queries _ _ _ _ _ _ "search" qs [] u0) as [entries u1]. apply IH. }
  unfold run_load_test. apply Hits.
Qed.

End run.

Lemma durations_not_negative_witness :
  let now := fun n : nat => 6 * Z.of_nat n in
  let search := fun (k : nat) (_ : nat) =>
    if (k =? 0)%nat then Rejected "timeout" else Resolved None in
  Forall (fun entry => 0 <= duration entry)
    (all_queries
       (run_load_test (fun q : nat => q) now search search search
          "Cannot read properties of null (reading 'hits')" "search"
          [1; 2]%nat 1 {| ticks := 0; calls := 0 |}).1).
Proof.
  intros now search. apply Forall_forall.
  apply (durations_not_negative (fun q : nat => q) now search search search
           "Cannot read properties of null (reading 'hits')" "search"
           [1; 2]%nat 1 {| ticks := 0; calls := 0 |}).
  intros n. unfold now. lia.
Defined.

Lemma unknown_test_type_runs_search_witness :
  let now := fun n : nat => 6 * Z.of_nat n in
  let search := fun (k : nat) (_ : nat) => Rejected "timeout" in
  let other := fun (k : nat) (_ : nat) => Resolved None in
  run_load_test (fun q : nat => q) now search other other
    "Cannot read properties of null (reading 'hits')" "aggregation"
    [1; 2]%nat 2 {| ticks := 0; calls := 0 |}
  = run_load_test (fun q : nat => q) now search other other
      "Cannot read properties of null (reading 'hits')" "search"
      [1; 2]%nat 2 {| ticks := 0; calls := 0 |}.
Proof.
  intros now search other.
  apply (unknown_test_type_runs_search (fun q : nat => q) now search other other).
  intros H. repeat (apply elem_of_cons in H as [H|H]; [discriminate H|]).
  apply elem_of_nil in H. exact H.
Defined.

End LoadTestRun.
